(** * ThreadFate: time codec, colour derivation and band layout

    A shallow embedding of the pure core of the two sources of the
    repository:

    - [src/src/App.jsx], the application (module [App] below);
    - [src/app.jsx], the earlier draft of the same component kept at the
      top of the repository (module [Draft] below).

    The JavaScript built-ins that the code calls ([Number], [String],
    [split], [trim], [padStart], [Math.floor], [%], [^], [>>>],
    [Array.prototype.sort], ...) are modelled first, in [JS]; the functions
    of the sources follow, each under the name it has in the source.
    Numbers are IEEE doubles: every arithmetic result is rounded as the
    language rounds it.  Of the drawing effect the model keeps the bands
    (position, row, colour, label, abscissa of the shuttle) and the store
    the effect reads; of the grid, the weave and the hatch it keeps the
    positions, the labels and the loops, not the strokes.  The colour
    arithmetic, the handlers that replace the list of tasks and the name
    of the exported file follow the drawing effect. *)

From Stdlib Require Import String Ascii.
From Stdlib Require Import ZArith QArith Qround Qabs Qreduction Qcanon.
From Stdlib Require Import Lia Lqa Bool List Permutation Sorted.
Import ListNotations.

(** ** JavaScript numbers *)

Module JS.

Local Open Scope Q_scope.

(** A Number value.  Finite values are kept as the exact rational they
    denote, always in lowest terms, so that two finite numbers are equal in
    JavaScript exactly when they are equal here.  The two zeros are
    identified: no code path of the sources tells [-0] from [+0] (they are
    [===], print alike and neither is ever a divisor). *)
Inductive num : Type :=
  | NaN
  | Inf (neg : bool)
  | Fin (q : Q).

Definition fin (q : Q) : num := Fin (Qred q).
Definition int (z : Z) : num := Fin (inject_Z z).

Definition pow2 (e : Z) : Q :=
  if (0 <=? e)%Z then inject_Z (2 ^ e) else 1 # Z.to_pos (2 ^ (- e)).

Definition pow10 (e : Z) : Q :=
  if (0 <=? e)%Z then inject_Z (10 ^ e) else 1 # Z.to_pos (10 ^ (- e)).

(** Nearest integer of a non-negative rational, ties to even. *)
Definition round_half_even (q : Q) : Z :=
  let f := Qfloor q in
  match Qcompare (q - inject_Z f) (1 # 2) with
  | Lt => f
  | Gt => (f + 1)%Z
  | Eq => if Z.even f then f else (f + 1)%Z
  end.

(** [floor (log2 a)] for [a > 0]. *)
Definition binade (a : Q) : Z :=
  let e0 := (Z.log2 (Qnum a) - Z.log2 (Zpos (Qden a)))%Z in
  if Qle_bool (pow2 e0) a then e0 else (e0 - 1)%Z.

(** IEEE 754 binary64 rounding of a real, to nearest, ties to even:
    53 bits of significand, least exponent -1074 (subnormals included),
    overflow to infinity from 2^1024 on. *)
Definition round_nearest (q : Q) : num :=
  let a := Qabs q in
  if Qeq_bool a 0 then Fin 0
  else
    let p := Z.max (binade a - 52) (-1074) in
    let v := inject_Z (round_half_even (a / pow2 p)) * pow2 p in
    if Qle_bool (pow2 1024) v then Inf (negb (Qle_bool 0 q))
    else fin (if Qle_bool 0 q then v else - v).

Definition two53 : Z := 9007199254740992.

(** The Number value for a real.  Integers of magnitude at most 2^53 are
    representable and are left alone; every other real is rounded. *)
Definition round64 (q : Q) : num :=
  let r := Qred q in
  if (Zpos (Qden r) =? 1)%Z && (Z.abs (Qnum r) <=? two53)%Z
  then Fin r
  else round_nearest r.

(** *** Arithmetic *)

Definition num_neg (a : num) : num :=
  match a with
  | NaN => NaN
  | Inf s => Inf (negb s)
  | Fin q => fin (- q)
  end.

Definition num_add (a b : num) : num :=
  match a, b with
  | NaN, _ | _, NaN => NaN
  | Inf s, Inf t => if Bool.eqb s t then Inf s else NaN
  | Inf s, Fin _ => Inf s
  | Fin _, Inf t => Inf t
  | Fin x, Fin y => round64 (x + y)
  end.

Definition num_sub (a b : num) : num := num_add a (num_neg b).

Definition Qneg_bool (q : Q) : bool := negb (Qle_bool 0 q).

Definition num_mul (a b : num) : num :=
  match a, b with
  | NaN, _ | _, NaN => NaN
  | Inf s, Inf t => Inf (xorb s t)
  | Inf s, Fin y => if Qeq_bool y 0 then NaN else Inf (xorb s (Qneg_bool y))
  | Fin x, Inf t => if Qeq_bool x 0 then NaN else Inf (xorb (Qneg_bool x) t)
  | Fin x, Fin y => round64 (x * y)
  end.

Definition num_div (a b : num) : num :=
  match a, b with
  | NaN, _ | _, NaN => NaN
  | Inf _, Inf _ => NaN
  | Inf s, Fin y => Inf (xorb s (Qneg_bool y))
  | Fin _, Inf _ => Fin 0
  | Fin x, Fin y =>
      if Qeq_bool y 0
      then if Qeq_bool x 0 then NaN else Inf (Qneg_bool x)
      else round64 (x / y)
  end.

(** Truncation towards zero. *)
Definition Qtrunc (q : Q) : Z := Z.quot (Qnum q) (Zpos (Qden q)).

(** The remainder operator [%]: the sign of the dividend, exact. *)
Definition num_mod (a b : num) : num :=
  match a, b with
  | NaN, _ | _, NaN => NaN
  | Inf _, _ => NaN
  | Fin x, Inf _ => Fin x
  | Fin x, Fin y =>
      if Qeq_bool y 0 then NaN
      else fin (x - y * inject_Z (Qtrunc (x / y)))
  end.

Definition floor (a : num) : num :=
  match a with
  | Fin q => int (Qfloor q)
  | _ => a
  end.

(** *** Comparison; every comparison with [NaN] is false. *)

Definition num_le (a b : num) : bool :=
  match a, b with
  | NaN, _ | _, NaN => false
  | Inf true, _ => true
  | _, Inf false => true
  | Inf false, _ => false
  | _, Inf true => false
  | Fin x, Fin y => Qle_bool x y
  end.

Definition num_lt (a b : num) : bool :=
  match a, b with
  | NaN, _ | _, NaN => false
  | _, _ => negb (num_le b a)
  end.

Definition num_ge (a b : num) : bool := num_le b a.
Definition num_gt (a b : num) : bool := num_lt b a.

Definition isNaN (a : num) : bool :=
  match a with NaN => true | _ => false end.

Definition num_max (a b : num) : num :=
  match a, b with
  | NaN, _ | _, NaN => NaN
  | _, _ => if num_le a b then b else a
  end.

Definition num_min (a b : num) : num :=
  match a, b with
  | NaN, _ | _, NaN => NaN
  | _, _ => if num_le a b then a else b
  end.

(** *** 32-bit conversions and bit operators *)

Definition two32 : Z := 4294967296.
Definition two31 : Z := 2147483648.

(** [ToUint32] as a mathematical integer in [0, 2^32). *)
Definition toUint32 (a : num) : Z :=
  match a with
  | Fin q => (Qtrunc q mod two32)%Z
  | _ => 0
  end.

(** [ToInt32] as a mathematical integer in [-2^31, 2^31). *)
Definition toInt32 (a : num) : Z :=
  let u := toUint32 a in
  if (two31 <=? u)%Z then (u - two32)%Z else u.

(** [a ^ b]. *)
Definition num_xor (a b : num) : num :=
  int (Z.lxor (toInt32 a) (toInt32 b)).

(** [a >>> b]. *)
Definition num_ushr (a b : num) : num :=
  int (Z.shiftr (toUint32 a) (toUint32 b mod 32)%Z).

Local Close Scope Q_scope.
Local Open Scope Z_scope.

(** ** JavaScript strings

    A string is its sequence of UTF-16 code units, which is what [length],
    [charCodeAt], [split] and the regular expressions of the sources see. *)

Definition jsstring : Type := list Z.

Definition ch (a : ascii) : Z := Z.of_N (N_of_ascii a).

(** The string with the given ASCII text. *)
Definition lit (s : string) : jsstring := List.map ch (list_ascii_of_string s).

Definition str_eqb (a b : jsstring) : bool :=
  if list_eq_dec Z.eq_dec a b then true else false.

(** White space and line terminators, as [trim] and [Number] strip them. *)
Definition is_ws (c : Z) : bool :=
  ((9 <=? c) && (c <=? 13)) || (c =? 32) || (c =? 160) || (c =? 5760)
  || ((8192 <=? c) && (c <=? 8202)) || (c =? 8232) || (c =? 8233)
  || (c =? 8239) || (c =? 8287) || (c =? 12288) || (c =? 65279).

Fixpoint dropWhile (p : Z -> bool) (s : jsstring) : jsstring :=
  match s with
  | [] => []
  | c :: r => if p c then dropWhile p r else s
  end.

(** [s.trim()]. *)
Definition trim (s : jsstring) : jsstring :=
  rev (dropWhile is_ws (rev (dropWhile is_ws s))).

(** [s.split(sep)] for a separator of one code unit. *)
Fixpoint split (sep : Z) (s : jsstring) : list jsstring :=
  match s with
  | [] => [[]]
  | c :: r =>
      if c =? sep then [] :: split sep r
      else match split sep r with
           | p :: ps => (c :: p) :: ps
           | [] => [[c]]
           end
  end.

(** [s.padStart(target, pad)]. *)
Definition padStart (s : jsstring) (target : nat) (pad : jsstring) : jsstring :=
  let len := length s in
  match pad with
  | [] => s
  | _ =>
      if (target <=? len)%nat then s
      else firstn (target - len) (concat (repeat pad (target - len))) ++ s
  end.

(** *** Digits *)

Definition is_digit (c : Z) : bool := (48 <=? c) && (c <=? 57).

Definition is_hex_digit (c : Z) : bool :=
  is_digit c || ((97 <=? c) && (c <=? 102)) || ((65 <=? c) && (c <=? 70)).

Definition hex_val (c : Z) : Z :=
  if is_digit c then c - 48
  else if 97 <=? c then c - 87
  else c - 55.

Definition radix_val (b : Z) (l : jsstring) : Z :=
  fold_left (fun acc c => acc * b + hex_val c) l 0.

Definition digits_val (l : jsstring) : Z := radix_val 10 l.

Fixpoint span (p : Z -> bool) (s : jsstring) : jsstring * jsstring :=
  match s with
  | [] => ([], [])
  | c :: r =>
      if p c then let '(a, b) := span p r in (c :: a, b) else ([], s)
  end.

Definition nonempty (s : jsstring) : bool :=
  match s with [] => false | _ => true end.

(** *** [Number(s)] on a string: the StringNumericLiteral grammar *)

(** ExponentPart, or nothing: the power of ten it denotes. *)
Definition exponentPart (s : jsstring) : option Z :=
  match s with
  | [] => Some 0
  | e :: r =>
      if (e =? 101) || (e =? 69) then
        let '(neg, ds) :=
          match r with
          | c :: r' =>
              if c =? 45 then (true, r')
              else if c =? 43 then (false, r')
              else (false, r)
          | [] => (false, [])
          end in
        if nonempty ds && forallb is_digit ds
        then Some (if neg then - digits_val ds else digits_val ds)
        else None
      else None
  end.

(** The mathematical value of an unsigned decimal literal
    ([12], [12.], [12.5], [.5], each with an optional exponent). *)
Definition decimalMV (s : jsstring) : option Q :=
  let '(ip, r1) := span is_digit s in
  let '(dot, fp, r2) :=
    match r1 with
    | c :: r =>
        if c =? 46 then let '(f, r') := span is_digit r in (true, f, r')
        else (false, [], r1)
    | [] => (false, [], [])
    end in
  if nonempty ip || (dot && nonempty fp) then
    match exponentPart r2 with
    | Some e =>
        Some (inject_Z (digits_val (ip ++ fp))
              * pow10 (e - Z.of_nat (length fp)))%Q
    | None => None
    end
  else None.

Definition strDecimalLiteral (s : jsstring) : num :=
  let '(neg, u) :=
    match s with
    | c :: r =>
        if c =? 45 then (true, r)
        else if c =? 43 then (false, r)
        else (false, s)
    | [] => (false, [])
    end in
  if str_eqb u (lit "Infinity") then Inf neg
  else match decimalMV u with
       | Some q => round64 (if neg then - q else q)%Q
       | None => NaN
       end.

(** [0x..], [0o..], [0b..] (either case of the letter), unsigned. *)
Definition nonDecimalLiteral (s : jsstring) : option Z :=
  match s with
  | 48 :: x :: r =>
      let lit_in (b : Z) (ok : Z -> bool) :=
        if nonempty r && forallb ok r then Some (radix_val b r) else None in
      if (x =? 120) || (x =? 88) then lit_in 16 is_hex_digit
      else if (x =? 111) || (x =? 79) then
        lit_in 8 (fun c => (48 <=? c) && (c <=? 55))
      else if (x =? 98) || (x =? 66) then
        lit_in 2 (fun c => (48 <=? c) && (c <=? 49))
      else None
  | _ => None
  end.

(** [Number(s)]: white space is trimmed, the empty string is 0, text
    outside the grammar is [NaN]. *)
Definition stringToNumber (s : jsstring) : num :=
  match trim s with
  | [] => int 0
  | t =>
      match nonDecimalLiteral t with
      | Some z => round64 (inject_Z z)
      | None => strDecimalLiteral t
      end
  end.

(** *** [String(n)] on a number: Number::toString in radix 10 *)

Fixpoint uint_chars (u : Decimal.uint) : jsstring :=
  match u with
  | Decimal.Nil => []
  | Decimal.D0 r => 48 :: uint_chars r
  | Decimal.D1 r => 49 :: uint_chars r
  | Decimal.D2 r => 50 :: uint_chars r
  | Decimal.D3 r => 51 :: uint_chars r
  | Decimal.D4 r => 52 :: uint_chars r
  | Decimal.D5 r => 53 :: uint_chars r
  | Decimal.D6 r => 54 :: uint_chars r
  | Decimal.D7 r => 55 :: uint_chars r
  | Decimal.D8 r => 56 :: uint_chars r
  | Decimal.D9 r => 57 :: uint_chars r
  end.

(** The decimal digits of a non-negative integer. *)
Definition digits_of (z : Z) : jsstring := uint_chars (N.to_uint (Z.to_N z)).

(** [floor (log10 a)] for [a > 0]: an estimate from the binary exponent,
    then at most two steps down and two steps up. *)
Definition ilog10 (a : Q) : Z :=
  let down (k : Z) := if Qle_bool (pow10 k) a then k else k - 1 in
  let up (k : Z) := if Qle_bool (pow10 (k + 1)) a then k + 1 else k in
  up (up (down (down (binade a * 30103 / 100000)))).

(** The digits [s] and the exponent [n] of step 5 of Number::toString for
    a given number of digits [k]: [s * 10^(n-k)] must round to [x]; of the
    two neighbours of [x] the nearer is taken, the even one on a tie. *)
Definition digits_at (x : Q) (k : Z) : option (Z * Z) :=
  let n := ilog10 x + 1 in
  let scale := pow10 (n - k) in
  let lo := Qfloor (x / scale) in
  let ok (s : Z) := match round64 (inject_Z s * scale) with
                    | Fin y => Qeq_bool y x
                    | _ => false
                    end in
  let norm (s : Z) := if s =? 10 ^ k then (10 ^ (k - 1), n + 1) else (s, n) in
  let dlo := (x - inject_Z lo * scale)%Q in
  let dhi := (inject_Z (lo + 1) * scale - x)%Q in
  match ok lo, ok (lo + 1) with
  | true, true =>
      match Qcompare dlo dhi with
      | Lt => Some (lo, n)
      | Gt => Some (norm (lo + 1))
      | Eq => Some (if Z.even lo then (lo, n) else norm (lo + 1))
      end
  | true, false => Some (lo, n)
  | false, true => Some (norm (lo + 1))
  | false, false => None
  end.

(** The least [k] (at most 17 digits always suffice) with its [s], [n]. *)
Fixpoint shortest (fuel : nat) (x : Q) (k : Z) : Z * Z * Z :=
  match fuel with
  | O => (Qfloor (x / pow10 (ilog10 x + 1 - k)), k, ilog10 x + 1)
  | S fuel' =>
      match digits_at x k with
      | Some (s, n) => (s, k, n)
      | None => shortest fuel' x (k + 1)
      end
  end.

Definition zeros (n : Z) : jsstring := repeat 48 (Z.to_nat n).

Definition positiveToString (x : Q) : jsstring :=
  let '(s, k, n) := shortest 17 x 1 in
  let ds := digits_of s in
  if (k <=? n) && (n <=? 21) then ds ++ zeros (n - k)
  else if (0 <? n) && (n <=? 21) then
    firstn (Z.to_nat n) ds ++ [46] ++ skipn (Z.to_nat n) ds
  else if (-6 <? n) && (n <=? 0) then [48; 46] ++ zeros (- n) ++ ds
  else
    let e := n - 1 in
    let ex := [101; if e <? 0 then 45 else 43] ++ digits_of (Z.abs e) in
    if k =? 1 then ds ++ ex
    else firstn 1 ds ++ [46] ++ skipn 1 ds ++ ex.

Definition numberToString (a : num) : jsstring :=
  match a with
  | NaN => lit "NaN"
  | Inf false => lit "Infinity"
  | Inf true => lit "-Infinity"
  | Fin q =>
      if Qeq_bool q 0 then [48]
      else if Qle_bool 0 q then positiveToString q
      else 45 :: positiveToString (Qabs q)
  end.

(** ** JavaScript values

    The primitive values, which is what the data model of the application
    puts in the fields of a stored record ([undefined] stands for a field
    that is absent).  Objects and arrays as field values are outside the
    model. *)
Inductive value : Type :=
  | VUndefined
  | VNull
  | VBool (b : bool)
  | VNum (n : num)
  | VStr (s : jsstring).

(** ToBoolean. *)
Definition truthy (v : value) : bool :=
  match v with
  | VUndefined | VNull => false
  | VBool b => b
  | VNum NaN => false
  | VNum (Inf _) => true
  | VNum (Fin q) => negb (Qeq_bool q 0)
  | VStr s => nonempty s
  end.

(** [String(v)]. *)
Definition toString (v : value) : jsstring :=
  match v with
  | VUndefined => lit "undefined"
  | VNull => lit "null"
  | VBool true => lit "true"
  | VBool false => lit "false"
  | VNum n => numberToString n
  | VStr s => s
  end.

(** [a || b]. *)
Definition or_else (a b : value) : value := if truthy a then a else b.

(** [arr[i]] for an array index given as a number: [undefined] out of
    range. *)
Definition index {A : Type} (arr : list A) (i : num) : option A :=
  match i with
  | Fin q =>
      if (Zpos (Qden q) =? 1) && (0 <=? Qnum q)
      then nth_error arr (Z.to_nat (Qnum q))
      else None
  | _ => None
  end.

(** ** Further built-ins, used by the colour arithmetic and the handlers *)

(** [Math.round]: the nearest integer, a tie going up. *)
Definition round (a : num) : num :=
  match a with
  | Fin q => int (Qfloor (q + (1 # 2))%Q)
  | _ => a
  end.

(** [Math.ceil] *)
Definition ceil (a : num) : num :=
  match a with
  | Fin q => int (Qceiling q)
  | _ => a
  end.

(** [Math.abs] *)
Definition num_abs (a : num) : num :=
  match a with
  | NaN => NaN
  | Inf _ => Inf false
  | Fin q => Fin (Qabs q)
  end.

(** [a >> b] *)
Definition num_shr (a b : num) : num :=
  int (Z.shiftr (toInt32 a) (toUint32 b mod 32)).

(** [a & b] *)
Definition num_and (a b : num) : num :=
  int (Z.land (toInt32 a) (toInt32 b)).

(** [Number(v)] *)
Definition toNumber (v : value) : num :=
  match v with
  | VUndefined => NaN
  | VNull => int 0
  | VBool true => int 1
  | VBool false => int 0
  | VNum n => n
  | VStr s => stringToNumber s
  end.

(** [a === b]: the same type and the same value; [NaN] differs from
    itself. *)
Definition strict_eq (a b : value) : bool :=
  match a, b with
  | VUndefined, VUndefined => true
  | VNull, VNull => true
  | VBool x, VBool y => Bool.eqb x y
  | VNum (Fin x), VNum (Fin y) => Qeq_bool x y
  | VNum (Inf s), VNum (Inf t) => Bool.eqb s t
  | VStr s, VStr t => str_eqb s t
  | _, _ => false
  end.

(** [parseInt(s, 16)]: leading white space, a sign and a prefix [0x] are
    passed over, then the longest run of hexadecimal digits is read; no
    digit gives [NaN].  In this radix the digits denote their exact
    integer, which is then rounded to a Number. *)
Definition parseInt16 (s : jsstring) : num :=
  let t := dropWhile is_ws s in
  let '(neg, u) :=
    match t with
    | c :: r =>
        if c =? 45 then (true, r)
        else if c =? 43 then (false, r)
        else (false, t)
    | [] => (false, [])
    end in
  let v :=
    match u with
    | 48 :: x :: r => if (x =? 120) || (x =? 88) then r else u
    | _ => u
    end in
  match fst (span is_hex_digit v) with
  | [] => NaN
  | ds => round64 (inject_Z (if neg then - radix_val 16 ds
                             else radix_val 16 ds))
  end.

(** [s.replace(c, '')] for a pattern that is a string of one code unit:
    the first occurrence goes. *)
Fixpoint removeFirst (c : Z) (s : jsstring) : jsstring :=
  match s with
  | [] => []
  | x :: r => if x =? c then r else x :: removeFirst c r
  end.

(** The code units that [.] of a regular expression does not match. *)
Definition is_line_terminator (c : Z) : bool :=
  (c =? 10) || (c =? 13) || (c =? 8232) || (c =? 8233).

(** [s.replace(/(.)/g, '$1$1')]: every code unit but a line terminator
    is doubled. *)
Definition doubleEach (s : jsstring) : jsstring :=
  flat_map (fun c => if is_line_terminator c then [c] else [c; c]) s.

Fixpoint hex_chars (u : Hexadecimal.uint) : jsstring :=
  match u with
  | Hexadecimal.Nil => []
  | Hexadecimal.D0 r => 48 :: hex_chars r
  | Hexadecimal.D1 r => 49 :: hex_chars r
  | Hexadecimal.D2 r => 50 :: hex_chars r
  | Hexadecimal.D3 r => 51 :: hex_chars r
  | Hexadecimal.D4 r => 52 :: hex_chars r
  | Hexadecimal.D5 r => 53 :: hex_chars r
  | Hexadecimal.D6 r => 54 :: hex_chars r
  | Hexadecimal.D7 r => 55 :: hex_chars r
  | Hexadecimal.D8 r => 56 :: hex_chars r
  | Hexadecimal.D9 r => 57 :: hex_chars r
  | Hexadecimal.Da r => 97 :: hex_chars r
  | Hexadecimal.Db r => 98 :: hex_chars r
  | Hexadecimal.Dc r => 99 :: hex_chars r
  | Hexadecimal.Dd r => 100 :: hex_chars r
  | Hexadecimal.De r => 101 :: hex_chars r
  | Hexadecimal.Df r => 102 :: hex_chars r
  end.

(** The hexadecimal digits of a non-negative integer, in lower case. *)
Definition hex_digits_of (z : Z) : jsstring :=
  hex_chars (N.to_hex_uint (Z.to_N z)).

(** [n.toString(16)] on a number that is an integer, an infinity or
    [NaN].  (The sources print in this radix only what [Math.round] and
    [clamp] return, which has no fraction; the digits of a fraction, which
    the language leaves to the implementation, are not modelled.) *)
Definition numberToString16 (a : num) : jsstring :=
  match a with
  | NaN => lit "NaN"
  | Inf false => lit "Infinity"
  | Inf true => lit "-Infinity"
  | Fin q =>
      let z := Qtrunc q in
      if z <? 0 then 45 :: hex_digits_of (- z) else hex_digits_of z
  end.

(** [s.slice(0, n)] *)
Definition slice0 (n : nat) (s : jsstring) : jsstring := firstn n s.

(** [s.replace(/[:T]/g, "-")] *)
Definition dashColonsAndT (s : jsstring) : jsstring :=
  List.map (fun c => if (c =? 58) || (c =? 84) then 45 else c) s.

End JS.

(** ** Exceptions

    Outcome of an expression that can raise (a [TypeError] is the only
    exception the modelled code can meet). *)
Inductive result (A : Type) : Type :=
  | Ok (a : A)
  | Throw.
Arguments Ok {A} a.
Arguments Throw {A}.

Definition rbind {A B : Type} (r : result A) (f : A -> result B) : result B :=
  match r with
  | Ok a => f a
  | Throw => Throw
  end.

Declare Scope result_scope.
Delimit Scope result_scope with result.
Notation "x <- r ;; k" := (rbind r (fun x => k))
  (at level 61, r at next level, right associativity) : result_scope.

(** A method call on a receiver that may not have the method. *)
Definition call_split (recv : JS.value) (sep : Z) : result (list JS.jsstring) :=
  match recv with
  | JS.VStr s => Ok (JS.split sep s)
  | _ => Throw
  end.

(** [Array.prototype.sort(cmp)]: the sort is stable; [a] goes after [b]
    when [cmp(a, b) > 0], and [NaN] counts as 0.  (For a comparator that
    is not a consistent order the standard leaves the result open; the
    model then gives what this insertion sort gives.) *)
Section Sort.

Context {A : Type} (cmp : A -> A -> result JS.num).
Local Open Scope result_scope.

Fixpoint insert (x : A) (l : list A) : result (list A) :=
  match l with
  | [] => Ok [x]
  | y :: ys =>
      v <- cmp x y ;;
      if JS.num_gt v (JS.int 0)
      then (r <- insert x ys ;; Ok (y :: r))
      else Ok (x :: y :: ys)
  end.

Fixpoint sort (l : list A) : result (list A) :=
  match l with
  | [] => Ok []
  | x :: xs => r <- sort xs ;; insert x r
  end.

End Sort.

(** ** [src/src/App.jsx] *)

Module App.

Import JS.
Local Open Scope Z_scope.
Local Open Scope result_scope.

Definition colon : Z := 58.

Definition is_string (v : value) : bool :=
  match v with VStr _ => true | _ => false end.

(** [const clamp = (v, lo, hi) => Math.max(lo, Math.min(hi, v))] *)
Definition clamp (v lo hi : num) : num := num_max lo (num_min hi v).

(** [toMinutes]: the guard on falsy and non-string arguments, the split
    on [":"] mapped through [Number], the guard on fewer than two parts
    and on [NaN], then hour modulo 24 and minute clamped. *)
Definition toMinutes (timeStr : value) : result num :=
  if negb (truthy timeStr) || negb (is_string timeStr) then Ok (int 0)
  else
    ss <- call_split timeStr colon ;;
    match List.map stringToNumber ss with
    | h :: m :: _ =>
        if isNaN h || isNaN m then Ok (int 0)
        else Ok (num_add (num_mul (num_mod (floor h) (int 24)) (int 60))
                         (clamp (floor m) (int 0) (int 59)))
    | _ => Ok (int 0)
    end.

(** [const pad2 = (n) => String(n).padStart(2, "0")] *)
Definition pad2 (n : num) : jsstring :=
  padStart (numberToString n) 2 (lit "0").

(** [fromMinutes] *)
Definition fromMinutes (mins : num) : jsstring :=
  let day := num_mul (int 24) (int 60) in
  let safe := floor (num_mod (num_add (num_mod mins day) day) day) in
  let h := floor (num_div safe (int 60)) in
  let m := num_mod safe (int 60) in
  pad2 h ++ [colon] ++ pad2 m.

Definition palettes : list (list jsstring) :=
  [ [lit "#4857FF"; lit "#00BFA6"; lit "#FF6B6B";
     lit "#FFD166"; lit "#7F5AF0"; lit "#2CB67D"];
    [lit "#0EA5E9"; lit "#F59E0B"; lit "#10B981";
     lit "#EC4899"; lit "#8B5CF6"; lit "#F43F5E"];
    [lit "#FF6B35"; lit "#F7C59F"; lit "#EFEFD0";
     lit "#004E89"; lit "#1A659E"; lit "#16DB93"];
    [lit "#3A86FF"; lit "#8338EC"; lit "#FF006E";
     lit "#FB5607"; lit "#FFBE0B"; lit "#2EC4B6"] ].

Definition len {A : Type} (l : list A) : num := int (Z.of_nat (length l)).

(** One turn of the loop of [hashColor]:
    [h = ((h ^ str.charCodeAt(i)) * 16777619) >>> 0].  The product is a
    Number: it is rounded to a double before [>>> 0] reduces it. *)
Definition hashStep (h : num) (c : Z) : num :=
  num_ushr (num_mul (num_xor h (int c)) (int 16777619)) (int 0).

Definition hashOf (str : jsstring) : num :=
  fold_left hashStep str (num_ushr (int 2166136261) (int 0)).

(** The two last lines of [hashColor], on the hash [h]: an index out of
    range would give [undefined], and reading [pal.length] of an undefined
    palette would raise. *)
Definition pickColor (h : num) : result value :=
  match index palettes (num_mod h (len palettes)) with
  | None => Throw
  | Some pal =>
      let i := num_mod (num_add (num_mod (num_ushr h (int 7)) (len pal))
                                (len pal)) (len pal) in
      match index pal i with
      | Some c => Ok (VStr c)
      | None => Ok VUndefined
      end
  end.

(** [hashColor] *)
Definition hashColor (s : value) : result value :=
  pickColor (hashOf (toString (or_else s (VStr [])))).

(** The loop of [hashColor] as the machine it is: a state is the counter
    [i] with the hash so far, a step consumes the code unit at [i], and
    the loop is left when [i] reaches the length. *)
Record loopState : Type := LoopState { loop_i : nat; loop_h : num }.

Inductive loopStep (str : jsstring) : loopState -> loopState -> Prop :=
  | loop_turn (i : nat) (h : num) (c : Z) :
      nth_error str i = Some c ->
      loopStep str (LoopState i h) (LoopState (S i) (hashStep h c)).

Inductive loopRuns (str : jsstring) : loopState -> num -> Prop :=
  | loop_exit (i : nat) (h : num) :
      (length str <= i)%nat -> loopRuns str (LoopState i h) h
  | loop_more (st st' : loopState) (h : num) :
      loopStep str st st' -> loopRuns str st' h -> loopRuns str st h.

(** A run of [hashColor(s)] that ends with the outcome [c]. *)
Definition hashColorRuns (s : value) (c : result value) : Prop :=
  exists h : num,
    loopRuns (toString (or_else s (VStr [])))
             (LoopState 0 (num_ushr (int 2166136261) (int 0))) h
    /\ c = pickColor h.

(** The pattern [/^#([0-9a-fA-F]{3}|[0-9a-fA-F]{6})$/]. *)
Definition hexPattern (t : jsstring) : bool :=
  match t with
  | 35 :: ds =>
      forallb is_hex_digit ds && ((length ds =? 3) || (length ds =? 6))%nat
  | _ => false
  end.

(** [isValidHex] *)
Definition isValidHex (hex : value) : bool :=
  match hex with
  | VStr s => hexPattern (trim s)
  | _ => false
  end.

(** *** The stored data and the environment of a redraw *)

(** A task record; a field that is absent reads as [undefined]. *)
Record task : Type := Task {
  id : value;
  title : value;
  start : value;
  end_ : value;
  color : value
}.

(** What a redraw reads besides the tasks: the day window and the label
    flag as stored, the size of the parent element and the wall clock. *)
Record settings : Type := Settings {
  gridStart : value;
  gridEnd : value;
  showLabels : value;
  clientWidth : Z;
  clientHeight : Z;
  nowHours : Z;
  nowMinutes : Z
}.

(** [a || b] on numbers. *)
Definition num_or (a b : num) : num := if truthy (VNum a) then a else b.

Definition dayMinutes : num := num_mul (int 24) (int 60).

(** [const minDay = clamp(toMinutes(gridStart), 0, 24 * 60 - 1)] *)
Definition minDay (st : settings) : result num :=
  m <- toMinutes (gridStart st) ;;
  Ok (clamp m (int 0) (num_sub dayMinutes (int 1))).

(** [const maxDay = clamp(toMinutes(gridEnd), 1, 24 * 60)] *)
Definition maxDay (st : settings) : result num :=
  m <- toMinutes (gridEnd st) ;;
  Ok (clamp m (int 1) dayMinutes).

(** [rawSpan] and [daySpan] *)
Definition daySpan (st : settings) : result num :=
  mn <- minDay st ;;
  mx <- maxDay st ;;
  let rawSpan := if num_gt mx mn then num_sub mx mn else int 60 in
  Ok (num_max (int 60) rawSpan).

(** [W] and [H] of the drawing effect. *)
Definition canvasW (st : settings) : num :=
  num_max (int 320) (floor (num_or (int (clientWidth st)) (int 640))).

Definition canvasH (st : settings) : num :=
  clamp (floor (num_or (int (clientHeight st)) (int 420))) (int 320) (int 1200).

(** [const xOf = (mins) => 48 + ((mins - minDay) * (W - 64)) / daySpan] *)
Definition xOf (mn span W mins : num) : num :=
  num_add (int 48)
          (num_div (num_mul (num_sub mins mn) (num_sub W (int 64))) span).

Definition rowHeight : num := int 24.
Definition gaps : num := int 10.

Definition usableHeight (H : num) : num :=
  num_max (int 120) (num_sub H (int 160)).

Definition maxRows (H : num) : num :=
  num_max (int 1) (floor (num_div (usableHeight H) (num_add rowHeight gaps))).

(** What the callback of [sorted.forEach] paints for one task: the
    rectangle of the band, the colour its gradient starts from, the label
    and the position of the shuttle when the clock is inside the task.
    (The hatch lines, the shades derived from the colour and the shape
    of the shuttle, which [drawShuttle] moves with [performance.now()]
    at the time of painting, are decoration and are left out: of the
    shuttle a band keeps the abscissa only.) *)
Record band : Type := Band {
  b_index : nat;
  b_task : task;
  b_start : num;
  b_end : num;
  b_x1 : num;
  b_x2 : num;
  b_row : num;
  b_y : num;
  b_width : num;
  b_color : value;
  b_label : option jsstring;
  b_shuttle : option num
}.

(** The callback of [sorted.forEach((task, idx) => ...)]; [None] is the
    early [return] of a task that is skipped. *)
Definition paintTask (st : settings) (mn span : num)
    (tk : task) (idx : nat) : result (option band) :=
  let W := canvasW st in
  let H := canvasH st in
  ts <- toMinutes (start tk) ;;
  let s := clamp ts mn (num_add mn span) in
  te <- toMinutes (end_ tk) ;;
  let e := clamp te mn (num_add mn span) in
  if num_le e s then Ok None
  else
    let x1 := clamp (xOf mn span W s) (int 48) (num_sub W (int 16)) in
    let x2 := clamp (xOf mn span W e) (int 48) (num_sub W (int 16)) in
    let row := num_mod (int (Z.of_nat idx)) (maxRows H) in
    let y := num_add (int 64) (num_mul row (num_add rowHeight gaps)) in
    safeColor <- (if isValidHex (color tk) then Ok (color tk)
                  else hashColor (title tk)) ;;
    let label :=
      if truthy (showLabels st)
      then Some (toString (or_else (title tk) (VStr (lit "Untitled"))))
      else None in
    nowMin <- toMinutes (VStr (pad2 (int (nowHours st)) ++ [colon]
                               ++ pad2 (int (nowMinutes st)))) ;;
    let shuttle :=
      if num_ge nowMin s && num_le nowMin e
      then Some (clamp (xOf mn span W nowMin) (int 48) (num_sub W (int 16)))
      else None in
    Ok (Some {| b_index := idx; b_task := tk; b_start := s; b_end := e;
                b_x1 := x1; b_x2 := x2; b_row := row; b_y := y;
                b_width := num_max (int 4) (num_sub x2 x1);
                b_color := safeColor; b_label := label;
                b_shuttle := shuttle |}).

(** The comparator of [sorted]:
    [(a, b) => toMinutes(a.start) - toMinutes(b.start)] *)
Definition byStart (a b : task) : result num :=
  x <- toMinutes (start a) ;;
  y <- toMinutes (start b) ;;
  Ok (num_sub x y).

(** *** The store

    Task records and arrays are objects: an array holds references to
    records, and [[...tasks]] makes a new array that shares the records of
    the old one.  The canvas is the list of bands painted since it was
    last cleared. *)
Record world : Type := World {
  objects : list task;
  arrays : list (list nat);
  canvas : list band
}.

Definition M (A : Type) : Type := world -> result (A * world).

Definition ret {A : Type} (a : A) : M A := fun w => Ok (a, w).

Definition mbind {A B : Type} (m : M A) (f : A -> M B) : M B :=
  fun w => match m w with
           | Ok (a, w') => f a w'
           | Throw => Throw
           end.

Definition lift {A : Type} (r : result A) : M A :=
  fun w => match r with
           | Ok a => Ok (a, w)
           | Throw => Throw
           end.

Declare Scope world_scope.
Delimit Scope world_scope with world.
Notation "x <~ m ;; k" := (mbind m (fun x => k))
  (at level 61, m at next level, right associativity) : world_scope.
Notation "m ;;; k" := (mbind m (fun _ => k))
  (at level 61, right associativity) : world_scope.
Local Open Scope world_scope.

Definition readArray (a : nat) : M (list nat) :=
  fun w => match nth_error (arrays w) a with
           | Some l => Ok (l, w)
           | None => Throw
           end.

Fixpoint update {A : Type} (l : list A) (i : nat) (x : A) : list A :=
  match l, i with
  | [], _ => []
  | _ :: r, O => x :: r
  | y :: r, S i' => y :: update r i' x
  end.

Definition writeArray (a : nat) (l : list nat) : M unit :=
  fun w => Ok (tt, {| objects := objects w;
                      arrays := update (arrays w) a l;
                      canvas := canvas w |}).

Definition newArray (l : list nat) : M nat :=
  fun w => Ok (length (arrays w),
               {| objects := objects w;
                  arrays := arrays w ++ [l];
                  canvas := canvas w |}).

Definition deref (r : nat) : M task :=
  fun w => match nth_error (objects w) r with
           | Some t => Ok (t, w)
           | None => Throw
           end.

Definition clearCanvas : M unit :=
  fun w => Ok (tt, {| objects := objects w; arrays := arrays w; canvas := [] |}).

Definition paint (b : band) : M unit :=
  fun w => Ok (tt, {| objects := objects w; arrays := arrays w;
                      canvas := canvas w ++ [b] |}).

(** [[...arr]] *)
Definition spread (a : nat) : M nat :=
  l <~ readArray a ;; newArray l.

(** A comparator of records, applied to two elements of an array, that
    is, to two references. *)
Definition viaRefs (objs : list task) (cmp : task -> task -> result num)
    (r1 r2 : nat) : result num :=
  match nth_error objs r1, nth_error objs r2 with
  | Some t1, Some t2 => cmp t1 t2
  | _, _ => Throw
  end.

(** [arr.sort(cmp)]: in place, on the array [a]. *)
Definition sortInPlace (a : nat) (cmp : task -> task -> result num) : M unit :=
  l <~ readArray a ;;
  fun w => (l' <~ lift (sort (viaRefs (objects w) cmp) l) ;; writeArray a l') w.

(** [arr.forEach(f)] *)
Fixpoint forEachFrom (f : task -> nat -> M unit) (refs : list nat)
    (idx : nat) : M unit :=
  match refs with
  | [] => ret tt
  | r :: rs => t <~ deref r ;; f t idx ;;; forEachFrom f rs (S idx)
  end.

Definition forEach (a : nat) (f : task -> nat -> M unit) : M unit :=
  l <~ readArray a ;; forEachFrom f l 0.

(** [const sorted = useMemo(() => [...tasks].sort(...), [tasks])] *)
Definition sorted (tasks : nat) : M nat :=
  a <~ spread tasks ;; sortInPlace a byStart ;;; ret a.

(** The callback of [sorted.forEach], with its effect on the canvas. *)
Definition paintBand (st : settings) (mn span : num) (tk : task)
    (idx : nat) : M unit :=
  ob <~ lift (paintTask st mn span tk idx) ;;
  match ob with
  | Some b => paint b
  | None => ret tt
  end.

(** The drawing effect, from the cleared background to the bands. *)
Definition draw (st : settings) (mn span : num) (sortedArr : nat) : M unit :=
  clearCanvas ;;;
  forEach sortedArr (paintBand st mn span).

(** One render of the component: the day window and [sorted] are
    computed in the body, then the effect runs. *)
Definition redraw (st : settings) (tasks : nat) : M unit :=
  mn <~ lift (minDay st) ;;
  span <~ lift (daySpan st) ;;
  a <~ sorted tasks ;;
  draw st mn span a.

(** *** Colour arithmetic *)

Record rgb : Type := Rgb { r : num; g : num; b : num }.

Definition white : rgb := Rgb (int 255) (int 255) (int 255).

(** [hexToRgb].  Nothing in the body of the [try] can raise on a
    primitive value, so the [catch] is never entered. *)
Definition hexToRgb (hex : value) : rgb :=
  let h := trim (removeFirst 35 (toString (or_else hex (VStr [])))) in
  let full := if (length h =? 3)%nat then doubleEach h else h in
  let bigint := parseInt16 full in
  if isNaN bigint then white
  else Rgb (num_and (num_shr bigint (int 16)) (int 255))
           (num_and (num_shr bigint (int 8)) (int 255))
           (num_and bigint (int 255)).

(** [toHex] of [rgbToHex] *)
Definition toHex (v : num) : jsstring :=
  padStart (numberToString16 (clamp (round v) (int 0) (int 255))) 2 (lit "0").

(** [rgbToHex] *)
Definition rgbToHex (r g b : num) : jsstring :=
  [35] ++ toHex r ++ toHex g ++ toHex b.

(** [f] of [shade] *)
Definition shadeChannel (amt v : num) : num :=
  clamp (round (num_add v (num_mul (num_div amt (int 100)) (int 255))))
        (int 0) (int 255).

(** [shade] *)
Definition shade (hex : value) (amt : num) : jsstring :=
  let c := hexToRgb hex in
  rgbToHex (shadeChannel amt (r c)) (shadeChannel amt (g c))
           (shadeChannel amt (b c)).

(** [yiq] of [contrastColor] *)
Definition yiq (c : rgb) : num :=
  num_div (num_add (num_add (num_mul (r c) (int 299))
                            (num_mul (g c) (int 587)))
                   (num_mul (b c) (int 114)))
          (int 1000).

(** [contrastColor] *)
Definition contrastColor (hex : value) : jsstring :=
  if num_ge (yiq (hexToRgb hex)) (int 140) then lit "#0b1020"
  else lit "#f8fafc".

(** The colours that the callback of [sorted.forEach] derives from
    [safeColor]: the end of the gradient, the hatch and the label. *)
Record style : Type := Style {
  gradientEnd : jsstring;
  hatch : jsstring;
  labelColor : jsstring
}.

Definition styleOf (safeColor : value) : style :=
  {| gradientEnd := shade safeColor (int (-20));
     hatch := shade safeColor (int (-35));
     labelColor := contrastColor safeColor |}.

(** [safeColor] of [drawShuttle] *)
Definition shuttleColor (color : value) : value :=
  if isValidHex color then color else VStr (lit "#ffffff").

(** [rr] of [roundRect] *)
Definition cornerRadius (w h r : num) : num :=
  num_max (int 0)
          (num_min (num_min r (num_div (num_abs h) (int 2)))
                   (num_div (num_abs w) (int 2))).

(** *** The theme, the grid and the weave of the drawing effect *)

(** [Math.abs(Number(paletteIndex) % palettes.length)] *)
Definition paletteSlot (paletteIndex : value) : num :=
  num_abs (num_mod (toNumber paletteIndex) (len palettes)).

(** [col] of the drawing effect: [pal ? pal[0] : "#ffffff"] *)
Definition gridColor (paletteIndex : value) : value :=
  match index palettes (paletteSlot paletteIndex) with
  | Some pal =>
      match nth_error pal 0 with
      | Some c => VStr c
      | None => VUndefined
      end
  | None => VStr (lit "#ffffff")
  end.

(** [currentPalette.map(...)] of the rendering: the swatches, or the
    [TypeError] of [map] on [undefined]. *)
Definition currentPalette (paletteIndex : value) : result (list jsstring) :=
  match index palettes (num_or (paletteSlot paletteIndex) (int 0)) with
  | Some pal => Ok pal
  | None => Throw
  end.

(** [const hours = Math.ceil(daySpan / 60)] *)
Definition hours (span : num) : num := ceil (num_div span (int 60)).

(** [x] of the grid line [i] *)
Definition gridX (span W i : num) : num :=
  num_add (floor (num_div (num_mul (num_mul i (int 60)) (num_sub W (int 64)))
                          span))
          (int 48).

(** [label] of the grid line [i] *)
Definition gridLabel (mn i : num) : jsstring :=
  fromMinutes (num_mod (num_add mn (num_mul i (int 60)))
                       (num_mul (int 24) (int 60))).

(** [const weaveStep = Math.max(2, Number(weaveDensity) || 6)] *)
Definition weaveStep (weaveDensity : value) : num :=
  num_max (int 2) (num_or (toNumber weaveDensity) (int 6)).

(** The step of the hatch loop: [Math.max(4, warpSpacing)] *)
Definition hatchStep (warpSpacing : value) : num :=
  num_max (int 4) (toNumber warpSpacing).

(** A loop [for (let v = from; v < bound; v += step) ...]: the values
    that [v] takes in the body, or [None] when the loop is still running
    after [fuel] turns. *)
Fixpoint countLoop (fuel : nat) (v bound step : num) : option (list num) :=
  if num_lt v bound then
    match fuel with
    | O => None
    | S fuel' =>
        match countLoop fuel' (num_add v step) bound step with
        | Some vs => Some (v :: vs)
        | None => None
        end
    end
  else Some [].

(** The loop of the weave: [for (let y = 32; y < H - 32; y += weaveStep)] *)
Definition weaveLines (fuel : nat) (st : settings) (weaveDensity : value)
    : option (list num) :=
  countLoop fuel (int 32) (num_sub (canvasH st) (int 32))
            (weaveStep weaveDensity).

(** The loop of the hatch of a band:
    [for (let i = Math.floor(x1); i < x2; i += Math.max(4, warpSpacing))] *)
Definition hatchLines (fuel : nat) (x1 x2 : num) (warpSpacing : value)
    : option (list num) :=
  countLoop fuel (floor x1) x2 (hatchStep warpSpacing).

(** *** The handlers that replace the list of tasks

    [setTasks(f)] applies [f] to the current array and stores the array
    that [f] returns: a handler is modelled by the computation of the new
    array, whose address it returns. *)

Definition newObject (t : task) : M nat :=
  fun w => Ok (length (objects w),
               {| objects := objects w ++ [t];
                  arrays := arrays w;
                  canvas := canvas w |}).

(** [arr.map(f)] *)
Fixpoint mapFrom (f : nat -> M nat) (refs : list nat) : M (list nat) :=
  match refs with
  | [] => ret []
  | x :: rs => y <~ f x ;; ys <~ mapFrom f rs ;; ret (y :: ys)
  end.

Definition mapArray (a : nat) (f : nat -> M nat) : M nat :=
  l <~ readArray a ;; l' <~ mapFrom f l ;; newArray l'.

(** [arr.filter(p)] *)
Fixpoint filterFrom (p : nat -> M bool) (refs : list nat) : M (list nat) :=
  match refs with
  | [] => ret []
  | x :: rs =>
      keep <~ p x ;;
      rest <~ filterFrom p rs ;;
      ret (if keep then x :: rest else rest)
  end.

Definition filterArray (a : nat) (p : nat -> M bool) : M nat :=
  l <~ readArray a ;; l' <~ filterFrom p l ;; newArray l'.

(** The [patch] of [updateTask]: the fields it has. *)
Record patch : Type := Patch {
  p_id : option value;
  p_title : option value;
  p_start : option value;
  p_end : option value;
  p_color : option value
}.

Definition override (old : value) (new : option value) : value :=
  match new with
  | Some v => v
  | None => old
  end.

(** [{ ...x, ...patch }] *)
Definition spreadPatch (x : task) (p : patch) : task :=
  {| id := override (id x) (p_id p);
     title := override (title x) (p_title p);
     start := override (start x) (p_start p);
     end_ := override (end_ x) (p_end p);
     color := override (color x) (p_color p) |}.

(** [updateTask]:
    [t.map((x) => (x.id === id ? { ...x, ...patch } : x))] *)
Definition updateTask (tasks : nat) (id' : value) (p : patch) : M nat :=
  mapArray tasks (fun ref =>
    x <~ deref ref ;;
    if strict_eq (id x) id' then newObject (spreadPatch x p) else ret ref).

(** [removeTask]: [t.filter((x) => x.id !== id)] *)
Definition removeTask (tasks : nat) (id' : value) : M nat :=
  filterArray tasks (fun ref =>
    x <~ deref ref ;; ret (negb (strict_eq (id x) id'))).

(** The button "Re-harmonize Colors":
    [t.map((x) => ({ ...x, color: hashColor(x.title) }))] *)
Definition reharmonize (tasks : nat) : M nat :=
  mapArray tasks (fun ref =>
    x <~ deref ref ;;
    c <~ lift (hashColor (title x)) ;;
    newObject {| id := id x; title := title x; start := start x;
                 end_ := end_ x; color := c |}).

(** [addTask], given the identifier that [uuid()] draws: the new array
    and the new [selectedId]. *)
Definition addTask (st : settings) (tasks : nat) (fresh : jsstring)
    : M (nat * value) :=
  mn <~ lift (minDay st) ;;
  span <~ lift (daySpan st) ;;
  let title' := VStr (lit "New Thread") in
  nine <~ lift (toMinutes (VStr (lit "09:00"))) ;;
  let start' := fromMinutes (num_max mn nine) in
  ten <~ lift (toMinutes (VStr (lit "10:00"))) ;;
  let end' := fromMinutes (num_min (num_add mn span) ten) in
  l <~ readArray tasks ;;
  c <~ lift (hashColor title') ;;
  o <~ newObject {| id := VStr fresh; title := title'; start := VStr start';
                    end_ := VStr end'; color := c |} ;;
  a <~ newArray (l ++ [o]) ;;
  ret (a, VStr fresh).

(** [stamp] and the file name of [exportPNG], given the text of
    [new Date().toISOString()]. *)
Definition stamp (iso : jsstring) : jsstring :=
  dashColonsAndT (slice0 19 iso).

Definition downloadName (iso : jsstring) : jsstring :=
  lit "ThreadFate-" ++ stamp iso ++ lit ".png".

(** The right side of the rectangle of a band as [roundRect] draws it:
    [x + w], for the [x] and the [w] that the callback passes, which are
    [x1] and [Math.max(4, x2 - x1)]. *)
Definition bandRight (b : band) : num := num_add (b_x1 b) (b_width b).

End App.

(** ** [src/app.jsx], the draft *)

Module Draft.

Import JS.
Local Open Scope Z_scope.
Local Open Scope result_scope.

(** An element of an array of numbers read by destructuring, then used
    as an operand: a missing element is [undefined], which arithmetic
    turns into [NaN]. *)
Definition operand (parts : list num) (i : nat) : num :=
  match nth_error parts i with
  | Some n => n
  | None => NaN
  end.

(** [toMinutes]: no guard, so the call of [split] raises on a value that
    is not a string. *)
Definition toMinutes (timeStr : value) : result num :=
  ss <- call_split timeStr App.colon ;;
  let parts := List.map stringToNumber ss in
  let h := operand parts 0 in
  let m := operand parts 1 in
  Ok (num_add (num_mul h (int 60)) m).

Definition pad2 (n : num) : jsstring :=
  padStart (numberToString n) 2 (lit "0").

(** [fromMinutes]: a single remainder, taken after the division. *)
Definition fromMinutes (mins : num) : jsstring :=
  let h := num_mod (floor (num_div mins (int 60))) (int 24) in
  let m := num_mod mins (int 60) in
  pad2 h ++ [App.colon] ++ pad2 m.

(** One turn of the loop of the draft's [hashColor]:
    [h = (h * 31 + s.charCodeAt(i)) >>> 0]. *)
Definition hashStep (h : num) (c : Z) : num :=
  num_ushr (num_add (num_mul h (int 31)) (int c)) (int 0).

Definition pickColor (h : num) : result value :=
  match index App.palettes (num_mod h (App.len App.palettes)) with
  | None => Throw
  | Some pal =>
      match index pal (num_mod (num_ushr h (int 3)) (App.len pal)) with
      | Some c => Ok (VStr c)
      | None => Ok VUndefined
      end
  end.

(** [hashColor]: no conversion of the label, so [s.length] raises on
    [undefined] and [null]; a number or a boolean has no [length] and the
    loop does not run. *)
Definition hashColor (s : value) : result value :=
  match s with
  | VUndefined | VNull => Throw
  | VStr str => pickColor (fold_left hashStep str (int 0))
  | VBool _ | VNum _ => pickColor (int 0)
  end.

(** [hexToRgb]: no guard, so the call of [replace] raises on a value
    that is not a string, and a text with no hexadecimal digit, which
    [parseInt] maps to [NaN], gives the channels of [NaN], all 0. *)
Definition hexToRgb (hex : value) : result App.rgb :=
  match hex with
  | VStr s =>
      let h := removeFirst 35 s in
      let bigint :=
        parseInt16 (if (length h =? 3)%nat then doubleEach h else h) in
      Ok (App.Rgb (num_and (num_shr bigint (int 16)) (int 255))
                  (num_and (num_shr bigint (int 8)) (int 255))
                  (num_and bigint (int 255)))
  | _ => Throw
  end.

End Draft.

(** ** Vocabulary of the statements *)

Module Spec.

Import JS.
Local Open Scope Z_scope.

(** The text [HH:MM] of an hour and a minute, two digits each. *)
Definition hhmm (h m : Z) : jsstring :=
  [48 + h / 10; 48 + h mod 10; App.colon; 48 + m / 10; 48 + m mod 10].

(** A non-empty run of decimal digits. *)
Definition digits (s : jsstring) : bool := nonempty s && forallb is_digit s.

(** A text of the shape [HH:MM]: two digits, a colon, two digits. *)
Definition timeText (s : jsstring) : bool :=
  match s with
  | [a; b; c; d; e] =>
      is_digit a && is_digit b && (c =? App.colon) && is_digit d && is_digit e
  | _ => false
  end.

(** The hour and the minute written in a text of that shape. *)
Definition hourOf (s : jsstring) : Z := digits_val (firstn 2 s).
Definition minuteOf (s : jsstring) : Z := digits_val (skipn 3 s).

(** [formatTime(parseTime(x))] with the functions of [src/src/App.jsx]. *)
Definition normalize (x : jsstring) : result jsstring :=
  rbind (App.toMinutes (VStr x)) (fun n => Ok (App.fromMinutes n)).

(** The references of an array all point to a record of the store. *)
Definition validRefs (objs : list App.task) (refs : list nat) : Prop :=
  Forall (fun r => exists t, nth_error objs r = Some t) refs.

(** The inputs that the guards of [toMinutes] answer with 0: a value
    that is not a string, the empty string, a text with no [:], and a
    text whose hour part (before the first [:]) or minute part (between
    the first [:] and the second, or the end) [Number] maps to [NaN]. *)
Inductive unreadable : value -> Prop :=
  | unr_not_string (v : value) :
      App.is_string v = false -> unreadable v
  | unr_empty :
      unreadable (VStr [])
  | unr_no_colon (s : jsstring) :
      ~ In App.colon s -> unreadable (VStr s)
  | unr_hour (hh rest : jsstring) :
      ~ In App.colon hh -> stringToNumber hh = NaN ->
      unreadable (VStr (hh ++ App.colon :: rest))
  | unr_minute (hh mm rest : jsstring) :
      ~ In App.colon hh -> ~ In App.colon mm -> stringToNumber mm = NaN ->
      (rest = [] \/ exists r, rest = App.colon :: r) ->
      unreadable (VStr (hh ++ App.colon :: mm ++ rest)).

(** The wording of the specification for a malformed time, a string
    missing the minute part: no text follows the hour, because there is
    no [:], as in 9, or because nothing stands after it, as in 12:. *)
Definition missingMinute (s : jsstring) : bool :=
  match nth_error (split App.colon s) 1 with
  | None | Some [] => true
  | Some (_ :: _) => false
  end.

(** The wording of the specification for [isValidHexColor]: three or six
    hexadecimal digits after an optional leading [#]. *)
Definition hexAfterOptionalHash (s : jsstring) : bool :=
  let ds := match s with 35 :: r => r | _ => s end in
  forallb is_hex_digit ds && ((length ds =? 3) || (length ds =? 6))%nat.

(** The exponent of the last place of a positive real and the nearest
    multiple of that place, as [round_nearest] computes them. *)
Definition scale (a : Q) : Z := Z.max (binade a - 52) (-1074).

Definition nearest (a : Q) : Q :=
  (inject_Z (round_half_even (a / pow2 (scale a))) * pow2 (scale a))%Q.

(** The value of two hexadecimal digits. *)
Definition pairVal (a b : Z) : Z := 16 * hex_val a + hex_val b.

(** The channels that three or six hexadecimal digits denote: a digit of
    the short form stands for itself twice. *)
Definition hexChannels (ds : jsstring) : option (Z * Z * Z) :=
  match ds with
  | [a; b; c] => Some (pairVal a a, pairVal b b, pairVal c c)
  | [a1; a2; b1; b2; c1; c2] =>
      Some (pairVal a1 a2, pairVal b1 b2, pairVal c1 c2)
  | _ => None
  end.

(** The colour with the given channels. *)
Definition rgbOf (r g b : Z) : App.rgb := App.Rgb (int r) (int g) (int b).

(** A channel as [rgbToHex] prints it: rounded, then clamped to a byte. *)
Definition byteOf (v : num) : num := App.clamp (round v) (int 0) (int 255).

(** The weighted sum of the channels that [contrastColor] divides by
    1000. *)
Definition luminance (r g b : Z) : Z := r * 299 + g * 587 + b * 114.

(** The records that the references of an array point to, in order. *)
Fixpoint derefAll (objs : list App.task) (refs : list nat)
    : option (list App.task) :=
  match refs with
  | [] => Some []
  | r :: rs =>
      match nth_error objs r, derefAll objs rs with
      | Some t, Some ts => Some (t :: ts)
      | _, _ => None
      end
  end.

(** The list of tasks that the array at an address holds. *)
Definition tasksOf (w : App.world) (a : nat) : option (list App.task) :=
  match nth_error (App.arrays w) a with
  | Some refs => derefAll (App.objects w) refs
  | None => None
  end.

(** The bands of the tasks that [refs] lists, the first of them taken
    at the index [idx]: the band of each task that is not skipped. *)
Fixpoint bandsFrom (st : App.settings) (mn span : num)
    (objs : list App.task) (refs : list nat) (idx : nat) : list App.band :=
  match refs with
  | [] => []
  | r :: rs =>
      match nth_error objs r with
      | Some tk =>
          match App.paintTask st mn span tk idx with
          | Ok (Some b) => b :: bandsFrom st mn span objs rs (S idx)
          | _ => bandsFrom st mn span objs rs (S idx)
          end
      | None => []
      end
  end.

(** A list of tasks with the patch applied to those of a given [id]. *)
Definition patched (id' : value) (p : App.patch) (ts : list App.task)
    : list App.task :=
  List.map (fun x => if strict_eq (App.id x) id' then App.spreadPatch x p
                     else x) ts.

(** A list of tasks less those of a given [id]. *)
Definition without (id' : value) (ts : list App.task) : list App.task :=
  filter (fun x => negb (strict_eq (App.id x) id')) ts.

(** The colour of a label, and a task with the colour of its title. *)
Definition colourOf (label : value) : value :=
  match App.hashColor label with
  | Ok c => c
  | Throw => VUndefined
  end.

Definition recoloured (x : App.task) : App.task :=
  {| App.id := App.id x; App.title := App.title x;
     App.start := App.start x; App.end_ := App.end_ x;
     App.color := colourOf (App.title x) |}.

(** The record that [addTask] makes in a day window that starts at [mn]
    and spans [span], with the identifier [fresh]. *)
Definition newThread (mn span : num) (fresh : jsstring) : App.task :=
  {| App.id := VStr fresh;
     App.title := VStr (lit "New Thread");
     App.start := VStr (App.fromMinutes (num_max mn (int 540)));
     App.end_ := VStr (App.fromMinutes
                         (num_min (num_add mn span) (int 600)));
     App.color := colourOf (VStr (lit "New Thread")) |}.

End Spec.

(** ** Boolean tests used to check finite ranges by evaluation *)

Module Decide.

Import JS.
Local Open Scope Z_scope.

(** A property checked on every integer below a bound. *)
Definition all_below (N : nat) (P : Z -> bool) : bool :=
  forallb (fun i => P (Z.of_nat i)) (seq 0 N).

Definition num_eqb (a b : num) : bool :=
  match a, b with
  | NaN, NaN => true
  | Inf s, Inf t => Bool.eqb s t
  | Fin x, Fin y => (Qnum x =? Qnum y) && (Qden x =? Qden y)%positive
  | _, _ => false
  end.

Definition rnum_eqb (a b : result num) : bool :=
  match a, b with
  | Ok x, Ok y => num_eqb x y
  | Throw, Throw => true
  | _, _ => false
  end.

(** The rendering of the minute [n] by the last lines of [fromMinutes]
    is the text of its hour and minute. *)
Definition render_ok (n : Z) : bool :=
  str_eqb (App.pad2 (floor (num_div (int n) (int 60))) ++ [App.colon]
           ++ App.pad2 (num_mod (int n) (int 60)))
          (Spec.hhmm (n / 60) (n mod 60)).

(** For a canvas height [H] from 320 on, [maxRows] is the quotient of
    the usable height by 34. *)
Definition rows_ok (H : Z) : bool :=
  (H <? 320)
  || num_eqb (App.maxRows (int H)) (int (Z.max 120 (H - 160) / 34)).

(** The draft and the application on the minute [n] of the day. *)
Definition draft_parse_ok (n : Z) : bool :=
  rnum_eqb (Draft.toMinutes (VStr (Spec.hhmm (n / 60) (n mod 60))))
           (App.toMinutes (VStr (Spec.hhmm (n / 60) (n mod 60)))).

Definition draft_render_ok (n : Z) : bool :=
  str_eqb (Draft.fromMinutes (int n)) (App.fromMinutes (int n)).

(** [toHex] prints the byte [c] as two hexadecimal digits that denote
    [c]. *)
Definition toHex_ok (c : Z) : bool :=
  match App.toHex (int c) with
  | [d1; d2] =>
      is_hex_digit d1 && is_hex_digit d2 && (Spec.pairVal d1 d2 =? c)
  | _ => false
  end.

(** The text that the drawing effect makes of the wall clock at the
    minute [n] of the day parses back to [n]. *)
Definition clock_ok (n : Z) : bool :=
  rnum_eqb (App.toMinutes (VStr (App.pad2 (int (n / 60)) ++ [App.colon]
                                 ++ App.pad2 (int (n mod 60)))))
           (Ok (int n)).

(** For a span [d] from 60 on, [hours] is [d / 60] rounded up. *)
Definition hours_ok (d : Z) : bool :=
  (d <? 60) || num_eqb (App.hours (int d)) (int ((d + 59) / 60)).

End Decide.

(** ** Stored scenes used as examples *)

Module Examples.

Import JS.
Local Open Scope Z_scope.

(** The day window 06:00-22:00, labels on, a parent of 800 by 420, the
    clock at 12:45. *)
Definition window_6_22 : App.settings :=
  App.Settings (VStr (lit "06:00")) (VStr (lit "22:00")) (VBool true)
               800 420 12 45.

(** The day window 10:00-09:00: the end before the start. *)
Definition window_10_9 : App.settings :=
  App.Settings (VStr (lit "10:00")) (VStr (lit "09:00")) (VBool true)
               800 420 12 45.

(** One task from 10:00 to 09:00. *)
Definition backwards_task : App.task :=
  App.Task (VStr (lit "t1")) (VStr (lit "Backwards"))
           (VStr (lit "10:00")) (VStr (lit "09:00")) VUndefined.

Definition backwards_world : App.world :=
  App.World [backwards_task] [[0%nat]] [].

(** The task from 10:00 to 09:00 stored before a task from 11:00 to
    12:00. *)
Definition later_task : App.task :=
  App.Task (VStr (lit "t3")) (VStr (lit "Lunch"))
           (VStr (lit "11:00")) (VStr (lit "12:00")) VUndefined.

Definition gap_world : App.world :=
  App.World [backwards_task; later_task] [[0%nat; 1%nat]] [].

(** One task whose stored colour is not a hex colour. *)
Definition plain_task : App.task :=
  App.Task (VStr (lit "t2")) (VStr (lit "Deep Work"))
           (VStr (lit "09:00")) (VStr (lit "11:00")) (VStr (lit "red")).

Definition plain_world : App.world :=
  App.World [plain_task] [[0%nat]] [].

(** Three tasks, stored late first, then the two that start at 09:00. *)
Definition early_task : App.task :=
  App.Task (VStr (lit "a")) (VStr (lit "Workout"))
           (VStr (lit "09:00")) (VStr (lit "09:30")) VUndefined.

Definition late_task : App.task :=
  App.Task (VStr (lit "b")) (VStr (lit "Study"))
           (VStr (lit "18:00")) (VStr (lit "19:30")) VUndefined.

Definition tie_task : App.task :=
  App.Task (VStr (lit "c")) (VStr (lit "Walk"))
           (VStr (lit "09:00")) (VStr (lit "10:00")) VUndefined.

Definition three_world : App.world :=
  App.World [late_task; early_task; tie_task] [[0%nat; 1%nat; 2%nat]] [].

Definition three_key (r : nat) : Z :=
  match r with
  | O => 1080
  | _ => 540
  end.


(** A patch that renames a task. *)
Definition rename_patch : App.patch :=
  App.Patch None (Some (VStr (lit "Run"))) None None None.


(** One task of a single minute, the last of the window 06:00-22:00. *)
Definition brief_task : App.task :=
  App.Task (VStr (lit "t4")) (VStr (lit "Lights out"))
           (VStr (lit "21:59")) (VStr (lit "22:00")) VUndefined.

Definition brief_world : App.world :=
  App.World [brief_task] [[0%nat]] [].

End Examples.

(** * Facts about the built-ins *)

Module NumFacts.

Import JS Decide.
Local Open Scope Z_scope.

Lemma Qred_int (z : Z) : Qred (inject_Z z) = inject_Z z.
Proof.
  apply Qred_identity. simpl. apply Z.gcd_1_r.
Qed.

Lemma fin_int (q : Q) (z : Z) : (q == inject_Z z)%Q -> fin q = int z.
Proof.
  intros H. unfold fin, int. f_equal.
  rewrite (Qred_complete _ _ H). apply Qred_int.
Qed.

Lemma round64_int (q : Q) (z : Z) :
  (q == inject_Z z)%Q -> Z.abs z <= two53 -> round64 q = int z.
Proof.
  intros H Hz. unfold round64.
  rewrite (Qred_complete _ _ H), Qred_int. simpl Qden. simpl Qnum.
  replace (Z.abs z <=? two53) with true by (symmetry; apply Z.leb_le; exact Hz).
  reflexivity.
Qed.

Lemma num_neg_int (a : Z) : num_neg (int a) = int (- a).
Proof.
  unfold num_neg, int. apply fin_int. rewrite inject_Z_opp. reflexivity.
Qed.

Lemma num_add_int (a b : Z) :
  Z.abs (a + b) <= two53 -> num_add (int a) (int b) = int (a + b).
Proof.
  intros H. unfold num_add, int. apply round64_int; [|exact H].
  rewrite inject_Z_plus. reflexivity.
Qed.

Lemma num_sub_int (a b : Z) :
  Z.abs (a - b) <= two53 -> num_sub (int a) (int b) = int (a - b).
Proof.
  intros H. unfold num_sub. rewrite num_neg_int. apply num_add_int. exact H.
Qed.

Lemma num_mul_int (a b : Z) :
  Z.abs (a * b) <= two53 -> num_mul (int a) (int b) = int (a * b).
Proof.
  intros H. unfold num_mul, int. apply round64_int; [|exact H].
  rewrite inject_Z_mult. reflexivity.
Qed.

Lemma Qeq_bool_int_0 (b : Z) : b <> 0 -> Qeq_bool (inject_Z b) 0 = false.
Proof.
  intros Hb. destruct (Qeq_bool (inject_Z b) 0) eqn:E; [|reflexivity].
  apply Qeq_bool_eq in E. unfold Qeq in E. simpl in E. lia.
Qed.

Lemma Qtrunc_int_div (a b : Z) :
  b <> 0 -> Qtrunc (inject_Z a / inject_Z b) = Z.quot a b.
Proof.
  intros Hb. unfold Qtrunc, Qdiv, Qinv, Qmult, inject_Z. simpl Qnum.
  destruct b as [|p|p]; [congruence| |]; simpl.
  - rewrite Z.mul_1_r. reflexivity.
  - replace (a * -1) with (- a) by lia.
    rewrite Z.quot_opp_l by discriminate.
    change (Z.neg p) with (- Z.pos p).
    rewrite Z.quot_opp_r by discriminate. reflexivity.
Qed.

Lemma num_mod_int (a b : Z) :
  b <> 0 -> num_mod (int a) (int b) = int (Z.rem a b).
Proof.
  intros Hb. unfold num_mod, int.
  rewrite (Qeq_bool_int_0 b Hb). apply fin_int.
  rewrite (Qtrunc_int_div a b Hb).
  unfold Qminus. rewrite <- inject_Z_mult, <- inject_Z_opp, <- inject_Z_plus.
  rewrite (Z.quot_rem' a b) at 1.
  replace (b * Z.quot a b + Z.rem a b + - (b * Z.quot a b)) with (Z.rem a b) by lia.
  reflexivity.
Qed.

Lemma floor_int (z : Z) : floor (int z) = int z.
Proof.
  unfold floor, int. rewrite Qfloor_Z. reflexivity.
Qed.

Lemma floor_Fin (q : Q) : floor (Fin q) = int (Qfloor q).
Proof. reflexivity. Qed.

Lemma num_le_int (a b : Z) : num_le (int a) (int b) = (a <=? b).
Proof.
  unfold num_le, int, Qle_bool, inject_Z. simpl. rewrite !Z.mul_1_r. reflexivity.
Qed.

Lemma num_lt_int (a b : Z) : num_lt (int a) (int b) = (a <? b).
Proof.
  transitivity (negb (num_le (int b) (int a))); [reflexivity|].
  rewrite num_le_int, Z.leb_antisym, negb_involutive. reflexivity.
Qed.

Lemma num_max_int (a b : Z) : num_max (int a) (int b) = int (Z.max a b).
Proof.
  transitivity (if num_le (int a) (int b) then int b else int a);
    [reflexivity|].
  rewrite num_le_int.
  destruct (Z.leb_spec a b); [rewrite Z.max_r by lia | rewrite Z.max_l by lia];
    reflexivity.
Qed.

Lemma num_min_int (a b : Z) : num_min (int a) (int b) = int (Z.min a b).
Proof.
  transitivity (if num_le (int a) (int b) then int a else int b);
    [reflexivity|].
  rewrite num_le_int.
  destruct (Z.leb_spec a b); [rewrite Z.min_l by lia | rewrite Z.min_r by lia];
    reflexivity.
Qed.

Lemma int_inj (a b : Z) : int a = int b -> a = b.
Proof.
  unfold int, inject_Z. intros H. injection H. auto.
Qed.

Lemma toUint32_range (a : num) : 0 <= toUint32 a < two32.
Proof.
  destruct a; simpl; try (unfold two32; lia).
  apply Z.mod_pos_bound. reflexivity.
Qed.

Lemma all_below_spec (N : nat) (P : Z -> bool) :
  all_below N P = true -> forall n, 0 <= n < Z.of_nat N -> P n = true.
Proof.
  unfold all_below. intros H n Hn. rewrite forallb_forall in H.
  specialize (H (Z.to_nat n)). rewrite Z2Nat.id in H by lia.
  apply H. apply in_seq. lia.
Qed.

Lemma num_eqb_eq (a b : num) : num_eqb a b = true -> a = b.
Proof.
  destruct a as [|s|[n d]], b as [|t|[n' d']]; simpl; try discriminate; auto.
  - intros H. apply Bool.eqb_prop in H. congruence.
  - intros H. apply andb_true_iff in H. destruct H as [H1 H2].
    apply Z.eqb_eq in H1. apply Pos.eqb_eq in H2. congruence.
Qed.

Lemma rnum_eqb_eq (a b : result num) : rnum_eqb a b = true -> a = b.
Proof.
  destruct a, b; simpl; try discriminate; auto.
  intros H. apply num_eqb_eq in H. congruence.
Qed.

Lemma str_eqb_eq (a b : jsstring) : str_eqb a b = true -> a = b.
Proof.
  unfold str_eqb. destruct (list_eq_dec Z.eq_dec a b); [auto|discriminate].
Qed.

End NumFacts.

(** * [trim] and the pattern of [isValidHex] *)

Module HexFacts.

Import JS Spec.
Local Open Scope Z_scope.

Lemma dropWhile_app_all (p : Z -> bool) (pre t : jsstring) :
  forallb p pre = true -> dropWhile p (pre ++ t) = dropWhile p t.
Proof.
  induction pre as [|c r IH]; simpl; intros H; [reflexivity|].
  apply andb_true_iff in H. destruct H as [Hc Hr].
  rewrite Hc. apply IH. exact Hr.
Qed.

Lemma dropWhile_none (p : Z -> bool) (t : jsstring) :
  Forall (fun c => p c = false) t -> dropWhile p t = t.
Proof.
  intros H. destruct H as [|c r Hc Hr]; simpl; [reflexivity|].
  rewrite Hc. reflexivity.
Qed.

Lemma dropWhile_split (p : Z -> bool) (s : jsstring) :
  exists pre, s = pre ++ dropWhile p s /\ forallb p pre = true.
Proof.
  induction s as [|c r IH]; simpl.
  - exists []. auto.
  - destruct (p c) eqn:E.
    + destruct IH as (pre & E1 & E2). exists (c :: pre). simpl.
      rewrite E, E2. split; [f_equal; exact E1|reflexivity].
    + exists []. auto.
Qed.

Lemma forallb_rev (p : Z -> bool) (l : jsstring) :
  forallb p (rev l) = forallb p l.
Proof.
  induction l as [|c r IH]; simpl; [reflexivity|].
  rewrite forallb_app, IH. simpl. rewrite andb_true_r. apply andb_comm.
Qed.

(** [trim] removes a run of white space at each end, and nothing else. *)
Lemma trim_split (s : jsstring) :
  exists pre post, s = pre ++ trim s ++ post
                   /\ forallb is_ws pre = true /\ forallb is_ws post = true.
Proof.
  unfold trim.
  destruct (dropWhile_split is_ws s) as (pre & E1 & H1).
  destruct (dropWhile_split is_ws (rev (dropWhile is_ws s))) as (q & E2 & H2).
  exists pre, (rev q). split; [|split; [exact H1|]].
  - rewrite <- rev_app_distr, <- E2, rev_involutive. exact E1.
  - rewrite forallb_rev. exact H2.
Qed.

Lemma dropWhile_all (p : Z -> bool) (l : jsstring) :
  forallb p l = true -> dropWhile p l = [].
Proof.
  induction l as [|x r IH]; simpl; intros H; [reflexivity|].
  apply andb_true_iff in H. destruct H as [Hx Hr].
  rewrite Hx. apply IH. exact Hr.
Qed.

Lemma trim_exact (pre t post : jsstring) :
  forallb is_ws pre = true -> forallb is_ws post = true ->
  Forall (fun c => is_ws c = false) t ->
  trim (pre ++ t ++ post) = t.
Proof.
  intros Hpre Hpost Ht. unfold trim.
  rewrite dropWhile_app_all by exact Hpre.
  destruct t as [|c r].
  - simpl. rewrite (dropWhile_all is_ws post Hpost). reflexivity.
  - assert (Hc : is_ws c = false) by (inversion Ht; assumption).
    simpl app. simpl dropWhile. rewrite Hc.
    change (c :: r ++ post) with ((c :: r) ++ post).
    rewrite rev_app_distr.
    rewrite dropWhile_app_all by (rewrite forallb_rev; exact Hpost).
    rewrite dropWhile_none by (apply Forall_rev; exact Ht).
    apply rev_involutive.
Qed.

Lemma hex_digit_not_ws (c : Z) : is_hex_digit c = true -> is_ws c = false.
Proof.
  unfold is_hex_digit, is_digit, is_ws. intros H.
  assert (R : 48 <= c <= 102).
  { repeat (apply orb_true_iff in H; destruct H as [H|H]);
      apply andb_true_iff in H; destruct H as [H1 H2];
      apply Z.leb_le in H1; apply Z.leb_le in H2; lia. }
  repeat (apply orb_false_intro);
    try (apply Z.eqb_neq; lia);
    apply andb_false_iff; first [left; apply Z.leb_gt; lia | right; apply Z.leb_gt; lia].
Qed.

(** What [isValidHex] accepts: a string that is, between white space,
    a [#] and then three or six hexadecimal digits. *)
Lemma isValidHex_iff (v : value) :
  App.isValidHex v = true <->
  exists s pre ds post : jsstring,
    v = VStr s /\ s = pre ++ (35 :: ds) ++ post
    /\ forallb is_ws pre = true /\ forallb is_ws post = true
    /\ forallb is_hex_digit ds = true
    /\ (length ds = 3 \/ length ds = 6)%nat.
Proof.
  split.
  - destruct v as [| |b|n|s]; simpl; try discriminate.
    intros H. destruct (trim_split s) as (pre & post & E & Hpre & Hpost).
    unfold App.hexPattern in H.
    destruct (trim s) as [|c ds] eqn:Et; [discriminate|].
    destruct (Z.eqb_spec c 35) as [->|Hc].
    + apply andb_true_iff in H. destruct H as [Hd Hl].
      exists s, pre, ds, post. repeat split; try assumption.
      apply orb_true_iff in Hl. destruct Hl as [Hl|Hl];
        apply Nat.eqb_eq in Hl; [left|right]; exact Hl.
    + exfalso. destruct c as [|p|p]; try discriminate H.
      do 6 (destruct p as [p|p|]; try discriminate H); congruence.
  - intros (s & pre & ds & post & -> & -> & Hpre & Hpost & Hd & Hl).
    unfold App.isValidHex. rewrite trim_exact; try assumption.
    + simpl. rewrite Hd. simpl.
      destruct Hl as [->| ->]; reflexivity.
    + constructor; [reflexivity|].
      apply Forall_forall. intros x Hx. apply hex_digit_not_ws.
      rewrite forallb_forall in Hd. apply Hd. exact Hx.
Qed.

End HexFacts.

(** * The time codec of [src/src/App.jsx] *)

Module CodecFacts.

Import JS Decide NumFacts Spec HexFacts.
Local Open Scope Z_scope.

Lemma dayMinutes_eq : App.dayMinutes = int 1440.
Proof. vm_compute. reflexivity. Qed.

(** The double remainder of [fromMinutes] is the mathematical modulo. *)
Lemma rem_1440_bound (z : Z) : -1440 < Z.rem z 1440 < 1440.
Proof.
  pose proof (Z.rem_bound_abs z 1440 ltac:(lia)). lia.
Qed.

Lemma rem_rem_mod (z : Z) : Z.rem (Z.rem z 1440 + 1440) 1440 = z mod 1440.
Proof.
  pose proof (Z.quot_rem' z 1440) as Hq.
  pose proof (rem_1440_bound z) as Hb.
  rewrite Z.rem_mod_nonneg by lia.
  replace (Z.rem z 1440 + 1440) with (z + (1 - Z.quot z 1440) * 1440) by lia.
  apply Z.mod_add. lia.
Qed.

Lemma safe_minutes (z : Z) :
  floor (num_mod (num_add (num_mod (int z) (int 1440)) (int 1440)) (int 1440))
  = int (z mod 1440).
Proof.
  pose proof (rem_1440_bound z) as Hb.
  rewrite num_mod_int by discriminate.
  rewrite num_add_int by (unfold two53; lia).
  rewrite num_mod_int by discriminate.
  rewrite floor_int, rem_rem_mod. reflexivity.
Qed.

Lemma render_all : all_below (Z.to_nat 1440) render_ok = true.
Proof. vm_compute. reflexivity. Qed.

Lemma fromMinutes_int (z : Z) :
  App.fromMinutes (int z) = hhmm (z mod 1440 / 60) ((z mod 1440) mod 60).
Proof.
  unfold App.fromMinutes.
  replace (num_mul (int 24) (int 60)) with (int 1440) by (symmetry; apply dayMinutes_eq).
  rewrite safe_minutes.
  apply str_eqb_eq. apply (all_below_spec _ _ render_all).
  pose proof (Z.mod_pos_bound z 1440 ltac:(lia)). lia.
Qed.

(** *** [split] *)

Lemma split_no_sep (sep : Z) (s : jsstring) :
  ~ In sep s -> split sep s = [s].
Proof.
  induction s as [|c r IH]; intros Hn; simpl; [reflexivity|].
  destruct (Z.eqb_spec c sep) as [E|E].
  - exfalso. apply Hn. left. exact E.
  - rewrite IH; [reflexivity|]. intros Hi. apply Hn. right. exact Hi.
Qed.

Lemma split_nonempty (sep : Z) (s : jsstring) :
  exists p ps, split sep s = p :: ps.
Proof.
  destruct s as [|c r]; simpl; [eauto|].
  destruct (c =? sep); [eauto|].
  destruct (split sep r); eauto.
Qed.

Lemma split_app (sep : Z) (a b : jsstring) :
  ~ In sep a -> split sep (a ++ sep :: b) = a :: split sep b.
Proof.
  induction a as [|c r IH]; intros Hn; simpl.
  - rewrite Z.eqb_refl. reflexivity.
  - destruct (Z.eqb_spec c sep) as [E|E].
    + exfalso. apply Hn. left. exact E.
    + rewrite IH; [reflexivity|]. intros Hi. apply Hn. right. exact Hi.
Qed.

(** *** [toMinutes] *)

Lemma toMinutes_total (v : value) : exists n, App.toMinutes v = Ok n.
Proof.
  unfold App.toMinutes.
  destruct (negb (truthy v) || negb (App.is_string v)) eqn:G; [eauto|].
  destruct v as [| |b|n|s];
    try (simpl in G; discriminate G);
    try (simpl in G; rewrite orb_true_r in G; discriminate G). simpl.
  destruct (map stringToNumber (split App.colon s)) as [|h [|m ps]]; eauto.
  destruct (isNaN h || isNaN m); eauto.
Qed.

Lemma toMinutes_unreadable (v : value) :
  unreadable v -> App.toMinutes v = Ok (int 0).
Proof.
  intros H. unfold App.toMinutes. destruct H as [v Hv| |s Hs|hh rest Hh Hn|hh mm rest Hh Hm Hn Hr].
  - rewrite Hv. rewrite orb_true_r. reflexivity.
  - reflexivity.
  - destruct (negb (truthy (VStr s)) || negb (App.is_string (VStr s))); [reflexivity|].
    simpl. rewrite (split_no_sep _ _ Hs). reflexivity.
  - destruct (negb _ || negb _); [reflexivity|].
    simpl. rewrite (split_app _ _ rest Hh).
    destruct (split_nonempty App.colon rest) as (p & ps & E). rewrite E.
    simpl. rewrite Hn. reflexivity.
  - destruct (negb _ || negb _); [reflexivity|].
    simpl. rewrite (split_app _ _ (mm ++ rest) Hh).
    assert (E : exists ps, split App.colon (mm ++ rest) = mm :: ps).
    { destruct Hr as [->|[r ->]].
      - rewrite app_nil_r, (split_no_sep _ _ Hm). eauto.
      - rewrite (split_app _ _ r Hm). eauto. }
    destruct E as [ps E]. rewrite E. simpl. rewrite Hn.
    rewrite orb_true_r. reflexivity.
Qed.

Lemma is_digit_range (c : Z) : is_digit c = true -> 48 <= c <= 57.
Proof.
  unfold is_digit. intros H. apply andb_true_iff in H. destruct H as [H1 H2].
  apply Z.leb_le in H1. apply Z.leb_le in H2. lia.
Qed.

Lemma hex_val_digit (c : Z) : is_digit c = true -> hex_val c = c - 48.
Proof. unfold hex_val. intros ->. reflexivity. Qed.

Lemma timeText_hhmm (s : jsstring) :
  timeText s = true ->
  0 <= hourOf s < 100 /\ 0 <= minuteOf s < 100 /\
  s = hhmm (hourOf s) (minuteOf s).
Proof.
  unfold timeText.
  destruct s as [|a [|b [|c [|d [|e [|f r]]]]]]; try discriminate.
  intros H.
  apply andb_true_iff in H; destruct H as [H De].
  apply andb_true_iff in H; destruct H as [H Dd].
  apply andb_true_iff in H; destruct H as [H Ec].
  apply andb_true_iff in H; destruct H as [Da Db].
  apply Z.eqb_eq in Ec. subst c.
  pose proof (is_digit_range _ Da) as Ra. pose proof (is_digit_range _ Db) as Rb.
  pose proof (is_digit_range _ Dd) as Rd. pose proof (is_digit_range _ De) as Re.
  unfold hourOf, minuteOf, digits_val, radix_val. simpl.
  rewrite !hex_val_digit by assumption.
  unfold hhmm.
  replace (((a - 48) * 10 + (b - 48)) / 10) with (a - 48)
    by (apply Z.div_unique with (r := b - 48); lia).
  replace (((a - 48) * 10 + (b - 48)) mod 10) with (b - 48)
    by (apply Z.mod_unique with (q := a - 48); lia).
  replace (((d - 48) * 10 + (e - 48)) / 10) with (d - 48)
    by (apply Z.div_unique with (r := e - 48); lia).
  replace (((d - 48) * 10 + (e - 48)) mod 10) with (e - 48)
    by (apply Z.mod_unique with (q := d - 48); lia).
  repeat split; try lia.
  repeat f_equal; lia.
Qed.

(** *** The range of [toMinutes] and of the day window *)

Lemma clamp_int (z lo hi : Z) :
  App.clamp (int z) (int lo) (int hi) = int (Z.max lo (Z.min hi z)).
Proof.
  unfold App.clamp. rewrite num_min_int, num_max_int. reflexivity.
Qed.

Lemma clamp_NaN (lo hi : num) : App.clamp NaN lo hi = NaN.
Proof.
  unfold App.clamp. destruct hi, lo; reflexivity.
Qed.

Lemma minute_part_range (m : num) :
  m <> NaN ->
  exists c, App.clamp (floor m) (int 0) (int 59) = int c /\ 0 <= c <= 59.
Proof.
  intros Hm. destruct m as [|[|]|q].
  - congruence.
  - exists 0. split; [reflexivity|lia].
  - exists 59. split; [reflexivity|lia].
  - rewrite floor_Fin, clamp_int. eexists. split; [reflexivity|lia].
Qed.

Lemma hour_part_range (h : num) :
  let a := num_mul (num_mod (floor h) (int 24)) (int 60) in
  a = NaN \/ exists z, a = int z /\ -1380 <= z <= 1380.
Proof.
  destruct h as [|s|q]; cbv zeta; try (left; reflexivity).
  right. rewrite floor_Fin.
  rewrite num_mod_int by discriminate.
  pose proof (Z.rem_bound_abs (Qfloor q) 24 ltac:(lia)) as Hb.
  rewrite num_mul_int by (unfold two53; lia).
  eexists. split; [reflexivity|lia].
Qed.

(** [toMinutes] returns [NaN] or an integer between -1380 and 1439. *)
Lemma toMinutes_range (v : value) :
  exists n, App.toMinutes v = Ok n
            /\ (n = NaN \/ exists z, n = int z /\ -1380 <= z <= 1439).
Proof.
  assert (Zero : exists n, Ok (int 0) = Ok n
            /\ (n = NaN \/ exists z, n = int z /\ -1380 <= z <= 1439)).
  { exists (int 0). split; [reflexivity|]. right. exists 0. split; [reflexivity|lia]. }
  unfold App.toMinutes.
  destruct (negb (truthy v) || negb (App.is_string v)) eqn:G; [exact Zero|].
  destruct v as [| |b|n|s];
    try (simpl in G; discriminate G);
    try (simpl in G; rewrite orb_true_r in G; discriminate G).
  cbn [call_split rbind].
  destruct (map stringToNumber (split App.colon s)) as [|h [|m ps]];
    try exact Zero.
  destruct (isNaN h || isNaN m) eqn:N; [exact Zero|].
  apply orb_false_iff in N. destruct N as [_ Nm].
  assert (Hm : m <> NaN) by (intros ->; discriminate Nm).
  destruct (minute_part_range m Hm) as (c & Ec & Hc). rewrite Ec.
  eexists. split; [reflexivity|].
  destruct (hour_part_range h) as [Ea|(a & Ea & Ha)]; rewrite Ea.
  - left. reflexivity.
  - right. rewrite num_add_int by (unfold two53; lia).
    eexists. split; [reflexivity|lia].
Qed.

Lemma minDay_range (st : App.settings) :
  exists mn, App.minDay st = Ok mn
             /\ (mn = NaN \/ exists z, mn = int z /\ 0 <= z <= 1439).
Proof.
  unfold App.minDay.
  destruct (toMinutes_range (App.gridStart st)) as (n & E & [->|(z & -> & Hz)]);
    rewrite E; cbn [rbind]; eexists; (split; [reflexivity|]).
  - left. apply clamp_NaN.
  - right. rewrite dayMinutes_eq, num_sub_int by (unfold two53; lia).
    rewrite clamp_int. eexists. split; [reflexivity|lia].
Qed.

Lemma maxDay_range (st : App.settings) :
  exists mx, App.maxDay st = Ok mx
             /\ (mx = NaN \/ exists z, mx = int z /\ 1 <= z <= 1440).
Proof.
  unfold App.maxDay.
  destruct (toMinutes_range (App.gridEnd st)) as (n & E & [->|(z & -> & Hz)]);
    rewrite E; cbn [rbind]; eexists; (split; [reflexivity|]).
  - left. apply clamp_NaN.
  - right. rewrite dayMinutes_eq. rewrite clamp_int.
    eexists. split; [reflexivity|lia].
Qed.

Lemma num_gt_NaN_l (b : num) : num_gt NaN b = false.
Proof. destruct b; reflexivity. Qed.

Lemma num_gt_NaN_r (a : num) : num_gt a NaN = false.
Proof. destruct a; reflexivity. Qed.

Lemma daySpan_range (st : App.settings) :
  exists mn mx d,
    App.minDay st = Ok mn /\ App.maxDay st = Ok mx
    /\ App.daySpan st = Ok (int d) /\ 60 <= d <= 1440
    /\ (num_gt mx mn = false -> d = 60).
Proof.
  destruct (minDay_range st) as (mn & Emn & Hmn).
  destruct (maxDay_range st) as (mx & Emx & Hmx).
  exists mn, mx. unfold App.daySpan. rewrite Emn, Emx. cbn [rbind].
  destruct Hmn as [->|(a & -> & Ha)].
  { rewrite num_gt_NaN_r. exists 60. repeat split; try reflexivity; lia. }
  destruct Hmx as [->|(b & -> & Hb)].
  { rewrite num_gt_NaN_l. exists 60. repeat split; try reflexivity; lia. }
  unfold num_gt. rewrite num_lt_int.
  destruct (Z.ltb_spec a b) as [L|L].
  - rewrite num_sub_int by (unfold two53; lia). rewrite num_max_int.
    exists (Z.max 60 (b - a)). repeat split; try reflexivity; lia.
  - rewrite num_max_int. exists 60. repeat split; try reflexivity; lia.
Qed.

(** *** [toMinutes] on digits *)

Lemma digit_is_hex (c : Z) : is_digit c = true -> is_hex_digit c = true.
Proof. unfold is_hex_digit. intros ->. reflexivity. Qed.

Lemma span_all (p : Z -> bool) (s : jsstring) :
  forallb p s = true -> span p s = (s, []).
Proof.
  induction s as [|c r IH]; simpl; intros H; [reflexivity|].
  apply andb_true_iff in H. destruct H as [Hc Hr].
  rewrite Hc, (IH Hr). reflexivity.
Qed.

Lemma digits_inv (s : jsstring) :
  digits s = true ->
  exists c r, s = c :: r /\ is_digit c = true /\ forallb is_digit s = true.
Proof.
  unfold digits. destruct s as [|c r]; [discriminate|]. simpl.
  intros H. apply andb_true_iff in H. destruct H as [Hc Hr].
  exists c, r. rewrite Hc, Hr. auto.
Qed.

Lemma trim_digits (s : jsstring) :
  forallb is_digit s = true -> trim s = s.
Proof.
  intros Hall.
  assert (Hw : Forall (fun c => is_ws c = false) s).
  { apply Forall_forall. intros x Hx. apply hex_digit_not_ws, digit_is_hex.
    rewrite forallb_forall in Hall. apply Hall. exact Hx. }
  pose proof (trim_exact [] s [] eq_refl eq_refl Hw) as T.
  simpl in T. rewrite app_nil_r in T. exact T.
Qed.

Lemma nonDecimal_digits (c : Z) (r : jsstring) :
  forallb is_digit (c :: r) = true -> nonDecimalLiteral (c :: r) = None.
Proof.
  intros Hall. unfold nonDecimalLiteral.
  destruct (Z.eqb_spec c 48) as [->|Hc].
  - destruct r as [|x r']; [reflexivity|].
    simpl in Hall. apply andb_true_iff in Hall. destruct Hall as [Hx _].
    apply is_digit_range in Hx.
    replace (x =? 120) with false by (symmetry; apply Z.eqb_neq; lia).
    replace (x =? 88) with false by (symmetry; apply Z.eqb_neq; lia).
    replace (x =? 111) with false by (symmetry; apply Z.eqb_neq; lia).
    replace (x =? 79) with false by (symmetry; apply Z.eqb_neq; lia).
    replace (x =? 98) with false by (symmetry; apply Z.eqb_neq; lia).
    replace (x =? 66) with false by (symmetry; apply Z.eqb_neq; lia).
    reflexivity.
  - destruct c as [|p|p]; try reflexivity.
    do 6 (destruct p as [p|p|]; try reflexivity). congruence.
Qed.

Lemma decimalMV_digits (s : jsstring) :
  digits s = true ->
  decimalMV s = Some (inject_Z (digits_val s) * pow10 0)%Q.
Proof.
  intros Hd. destruct (digits_inv s Hd) as (c & r & -> & Hc & Hall).
  unfold decimalMV. rewrite (span_all is_digit (c :: r) Hall).
  cbn [nonempty orb exponentPart length Z.of_nat].
  rewrite app_nil_r. reflexivity.
Qed.

(** [Number] on a run of digits is the number they write, as long as it
    is small enough to be a double exactly. *)
Lemma stringToNumber_digits (s : jsstring) :
  digits s = true -> Z.abs (digits_val s) <= two53 ->
  stringToNumber s = int (digits_val s).
Proof.
  intros Hd Hv. destruct (digits_inv s Hd) as (c & r & -> & Hc & Hall).
  pose proof (is_digit_range c Hc) as Rc.
  unfold stringToNumber. rewrite (trim_digits (c :: r) Hall). cbv iota beta.
  rewrite (nonDecimal_digits c r Hall).
  unfold strDecimalLiteral.
  replace (c =? 45) with false by (symmetry; apply Z.eqb_neq; lia).
  replace (c =? 43) with false by (symmetry; apply Z.eqb_neq; lia).
  assert (Ei : str_eqb (c :: r) (lit "Infinity") = false).
  { unfold str_eqb.
    destruct (list_eq_dec Z.eq_dec (c :: r) (lit "Infinity")) as [Eq|];
      [|reflexivity].
    exfalso. vm_compute in Eq. injection Eq as Eq _. lia. }
  rewrite Ei. rewrite (decimalMV_digits (c :: r) Hd).
  apply round64_int; [|exact Hv].
  change (pow10 0) with (inject_Z 1). rewrite <- inject_Z_mult.
  rewrite Z.mul_1_r. reflexivity.
Qed.

Lemma digit_not_colon (s : jsstring) :
  forallb is_digit s = true -> ~ In App.colon s.
Proof.
  intros Hall Hin. rewrite forallb_forall in Hall.
  apply Hall in Hin. apply is_digit_range in Hin. unfold App.colon in Hin. lia.
Qed.

(** The hour modulo 24, the minute clamped: on every text made of a run
    of digits, a colon and a run of digits. *)
Lemma radix_val_nonneg (s : jsstring) (acc : Z) :
  forallb is_digit s = true -> 0 <= acc ->
  0 <= fold_left (fun a c => a * 10 + hex_val c) s acc.
Proof.
  revert acc. induction s as [|c r IH]; intros acc Hall Hacc; simpl;
    [exact Hacc|].
  simpl in Hall. apply andb_true_iff in Hall. destruct Hall as [Hc Hr].
  apply IH; [exact Hr|].
  rewrite (hex_val_digit c Hc). apply is_digit_range in Hc. lia.
Qed.

Lemma digits_val_nonneg (s : jsstring) :
  forallb is_digit s = true -> 0 <= digits_val s.
Proof.
  intros Hall. unfold digits_val, radix_val.
  apply radix_val_nonneg; [exact Hall|lia].
Qed.

Lemma toMinutes_digits (hh mm : jsstring) :
  digits hh = true -> digits mm = true ->
  digits_val hh <= two53 -> digits_val mm <= two53 ->
  App.toMinutes (VStr (hh ++ App.colon :: mm))
  = Ok (int (digits_val hh mod 24 * 60 + Z.max 0 (Z.min 59 (digits_val mm)))).
Proof.
  intros Hh Hm Bh Bm.
  destruct (digits_inv hh Hh) as (c & r & Eh & Hc & Hallh).
  destruct (digits_inv mm Hm) as (c' & r' & Em & Hc' & Hallm).
  pose proof (digits_val_nonneg hh Hallh) as Nh.
  pose proof (digits_val_nonneg mm Hallm) as Nm.
  unfold App.toMinutes.
  assert (G : negb (truthy (VStr (hh ++ App.colon :: mm)))
              || negb (App.is_string (VStr (hh ++ App.colon :: mm))) = false).
  { rewrite Eh. reflexivity. }
  rewrite G. cbn [call_split rbind].
  rewrite (split_app App.colon hh mm (digit_not_colon hh Hallh)).
  rewrite (split_no_sep App.colon mm (digit_not_colon mm Hallm)).
  cbn [map].
  rewrite (stringToNumber_digits hh Hh) by lia.
  rewrite (stringToNumber_digits mm Hm) by lia.
  cbn [isNaN int orb].
  rewrite !floor_int. rewrite num_mod_int by discriminate.
  rewrite Z.rem_mod_nonneg by lia.
  pose proof (Z.mod_pos_bound (digits_val hh) 24 ltac:(lia)) as Hb.
  rewrite num_mul_int by (unfold two53; lia).
  rewrite clamp_int.
  rewrite num_add_int by (unfold two53; lia).
  reflexivity.
Qed.

Lemma toMinutes_hhmm (h m : Z) :
  0 <= h < 100 -> 0 <= m < 100 ->
  App.toMinutes (VStr (hhmm h m)) = Ok (int (h mod 24 * 60 + Z.min m 59)).
Proof.
  intros Hh Hm.
  assert (D : forall n, 0 <= n < 100 ->
            digits [48 + n / 10; 48 + n mod 10] = true
            /\ digits_val [48 + n / 10; 48 + n mod 10] = n).
  { intros n Hn.
    pose proof (Z.mod_pos_bound n 10 ltac:(lia)) as Hr.
    assert (Hq : 0 <= n / 10 <= 9).
    { split; [apply Z.div_pos; lia|].
      apply Z.lt_succ_r. apply Z.div_lt_upper_bound; lia. }
    assert (D1 : is_digit (48 + n / 10) = true).
    { unfold is_digit. apply andb_true_iff. split; apply Z.leb_le; lia. }
    assert (D2 : is_digit (48 + n mod 10) = true).
    { unfold is_digit. apply andb_true_iff. split; apply Z.leb_le; lia. }
    split.
    - unfold digits. cbn [nonempty forallb andb]. rewrite D1, D2. reflexivity.
    - unfold digits_val, radix_val. cbn [fold_left].
      rewrite !hex_val_digit by assumption.
      pose proof (Z.div_mod n 10 ltac:(lia)). lia. }
  destruct (D h Hh) as [Dh Vh]. destruct (D m Hm) as [Dm Vm].
  change (hhmm h m)
    with ([48 + h / 10; 48 + h mod 10] ++ App.colon :: [48 + m / 10; 48 + m mod 10]).
  rewrite toMinutes_digits; try assumption;
    try (rewrite ?Vh, ?Vm; unfold two53; lia).
  rewrite Vh, Vm. do 3 f_equal. lia.
Qed.

Lemma toMinutes_timeText (s : jsstring) :
  timeText s = true ->
  App.toMinutes (VStr s)
  = Ok (int (hourOf s mod 24 * 60 + Z.min (minuteOf s) 59)).
Proof.
  intros H. destruct (timeText_hhmm s H) as (Hh & Hm & E).
  rewrite E at 1. apply toMinutes_hhmm; assumption.
Qed.

Lemma roundtrip_minutes (n : Z) :
  0 <= n < 1440 ->
  App.toMinutes (VStr (App.fromMinutes (int n))) = Ok (int n).
Proof.
  intros Hn. rewrite fromMinutes_int. rewrite Z.mod_small by lia.
  pose proof (Z.mod_pos_bound n 60 ltac:(lia)) as Hm.
  assert (Hq : 0 <= n / 60 < 24).
  { split; [apply Z.div_pos; lia | apply Z.div_lt_upper_bound; lia]. }
  rewrite toMinutes_hhmm by lia.
  rewrite Z.mod_small by lia. rewrite Z.min_l by lia.
  f_equal. f_equal. pose proof (Z.div_mod n 60 ltac:(lia)). lia.
Qed.

(** Texts that are neither in the classes of [unreadable] nor digits,
    a colon and digits: an empty part counts as 0, a sign and a fraction
    are read, and an infinite hour gives [NaN]. *)
Lemma toMinutes_lenient :
  App.toMinutes (VStr (lit "12:")) = Ok (int 720)
  /\ App.toMinutes (VStr (lit ":30")) = Ok (int 30)
  /\ App.toMinutes (VStr (lit "-5:30")) = Ok (int (-270))
  /\ App.toMinutes (VStr (lit "1.5:30")) = Ok (int 90)
  /\ App.toMinutes (VStr (lit "9:30:45")) = Ok (int 570)
  /\ App.toMinutes (VStr (lit "Infinity:00")) = Ok NaN.
Proof. repeat split; vm_compute; reflexivity. Qed.

End CodecFacts.

(** * Colour derivation of [src/src/App.jsx] *)

Module ColorFacts.

Import JS Decide NumFacts Spec.
Local Open Scope Z_scope.

Lemma num_ushr_uint32 (a b : num) :
  exists u : Z, num_ushr a b = int u /\ 0 <= u < two32.
Proof.
  unfold num_ushr. eexists. split; [reflexivity|].
  pose proof (toUint32_range a) as Ha.
  pose proof (Z.mod_pos_bound (toUint32 b) 32 ltac:(lia)) as Hk.
  rewrite Z.shiftr_div_pow2 by lia.
  assert (Hp : 0 < 2 ^ (toUint32 b mod 32)) by (apply Z.pow_pos_nonneg; lia).
  split.
  - apply Z.div_pos; lia.
  - apply Z.div_lt_upper_bound; [lia|]. nia.
Qed.

Lemma fold_hashStep_uint32 (str : jsstring) (h : num) :
  (exists u, h = int u /\ 0 <= u < two32) ->
  exists u, fold_left App.hashStep str h = int u /\ 0 <= u < two32.
Proof.
  revert h. induction str as [|c r IH]; intros h Hh; simpl; [exact Hh|].
  apply IH. unfold App.hashStep. apply num_ushr_uint32.
Qed.

Lemma hashOf_uint32 (str : jsstring) :
  exists u, App.hashOf str = int u /\ 0 <= u < two32.
Proof.
  unfold App.hashOf. apply fold_hashStep_uint32. apply num_ushr_uint32.
Qed.

Lemma index_int {A : Type} (l : list A) (k : Z) :
  0 <= k -> index l (int k) = nth_error l (Z.to_nat k).
Proof.
  intros Hk. unfold index, int, inject_Z. simpl.
  replace (0 <=? k) with true by (symmetry; apply Z.leb_le; exact Hk).
  reflexivity.
Qed.

Lemma index_in_range {A : Type} (l : list A) (k : Z) :
  0 <= k < Z.of_nat (length l) -> exists x, index l (int k) = Some x /\ In x l.
Proof.
  intros Hk. rewrite index_int by lia.
  destruct (nth_error l (Z.to_nat k)) as [x|] eqn:E.
  - exists x. split; [reflexivity|]. eapply nth_error_In. exact E.
  - apply nth_error_None in E. lia.
Qed.

Lemma rem_nonneg_bound (a b : Z) : 0 <= a -> 0 < b -> 0 <= Z.rem a b < b.
Proof.
  intros Ha Hb. apply Z.rem_bound_pos; lia.
Qed.

Lemma palettes_six : Forall (fun pal => length pal = 6%nat) App.palettes.
Proof. repeat constructor. Qed.

(** The choice of the colour on an unsigned hash: both indices are in
    range. *)
Lemma pickColor_uint32 (u : Z) :
  0 <= u < two32 ->
  exists pal c, In pal App.palettes /\ In c pal
                /\ App.pickColor (int u) = Ok (VStr c).
Proof.
  intros Hu. unfold App.pickColor, App.len.
  rewrite num_mod_int by discriminate.
  destruct (index_in_range App.palettes (Z.rem u 4)) as (pal & Ep & Ip).
  { change (Z.of_nat (length App.palettes)) with 4.
    apply rem_nonneg_bound; lia. }
  change (Z.of_nat (length App.palettes)) with 4. rewrite Ep.
  pose proof palettes_six as H6. rewrite Forall_forall in H6.
  rewrite (H6 pal Ip). change (Z.of_nat 6) with 6.
  destruct (num_ushr_uint32 (int u) (int 7)) as (v & Ev & Hv). rewrite Ev.
  rewrite num_mod_int by discriminate.
  pose proof (rem_nonneg_bound v 6 ltac:(lia) ltac:(lia)) as Hr.
  rewrite num_add_int by (unfold two53; lia).
  rewrite num_mod_int by discriminate.
  pose proof (rem_nonneg_bound (Z.rem v 6 + 6) 6 ltac:(lia) ltac:(lia)) as Hi.
  destruct (index_in_range pal (Z.rem (Z.rem v 6 + 6) 6)) as (c & Ec & Ic).
  { rewrite (H6 pal Ip). exact Hi. }
  rewrite Ec. exists pal, c. auto.
Qed.

Lemma hashColor_color (s : value) :
  exists pal c, In pal App.palettes /\ In c pal
                /\ App.hashColor s = Ok (VStr c).
Proof.
  unfold App.hashColor.
  destruct (hashOf_uint32 (toString (or_else s (VStr [])))) as (u & Eu & Hu).
  rewrite Eu. apply pickColor_uint32. exact Hu.
Qed.

(** *** The loop *)

Lemma skipn_nth_error (str : jsstring) (i : nat) (c : Z) :
  nth_error str i = Some c -> skipn i str = c :: skipn (S i) str.
Proof.
  revert i. induction str as [|x r IH]; intros [|i] E; simpl in *;
    try discriminate.
  - congruence.
  - apply IH. exact E.
Qed.

Lemma loopRuns_fold (str : jsstring) (n i : nat) (h : num) :
  (length str - i = n)%nat ->
  App.loopRuns str (App.LoopState i h) (fold_left App.hashStep (skipn i str) h).
Proof.
  revert i h. induction n as [|n IH]; intros i h Hn.
  - rewrite skipn_all2 by lia. simpl. apply App.loop_exit. lia.
  - destruct (nth_error str i) as [c|] eqn:E.
    + eapply App.loop_more; [apply App.loop_turn; exact E|].
      rewrite (skipn_nth_error str i c E). simpl. apply IH. lia.
    + apply nth_error_None in E. lia.
Qed.

(** Every run ends with the fold of the steps over the rest of the
    text: induction on the run. *)
Lemma loopRuns_is_fold (str : jsstring) (st : App.loopState) (r : num) :
  App.loopRuns str st r ->
  r = fold_left App.hashStep (skipn (App.loop_i st) str) (App.loop_h st).
Proof.
  intros R. induction R as [i h Hi|st st' r Hs R IH].
  - simpl. rewrite skipn_all2 by lia. reflexivity.
  - destruct Hs as [i h c Hc]. simpl in *.
    rewrite (skipn_nth_error str i c Hc). simpl. exact IH.
Qed.

Lemma loopRuns_deterministic (str : jsstring) (st : App.loopState) (h1 h2 : num) :
  App.loopRuns str st h1 -> App.loopRuns str st h2 -> h1 = h2.
Proof.
  intros R1 R2.
  rewrite (loopRuns_is_fold _ _ _ R1), (loopRuns_is_fold _ _ _ R2). reflexivity.
Qed.

Lemma hashColorRuns_hashColor (s : value) :
  App.hashColorRuns s (App.hashColor s).
Proof.
  exists (App.hashOf (toString (or_else s (VStr [])))). split; [|reflexivity].
  unfold App.hashOf.
  apply (loopRuns_fold (toString (or_else s (VStr []))) (length (toString (or_else s (VStr [])))) 0).
  lia.
Qed.

End ColorFacts.

(** * Sorting *)

Module SortFacts.

Import JS NumFacts.
Local Open Scope Z_scope.

Section Total.

Context {A : Type} (cmp : A -> A -> result num) (P : A -> Prop).
Hypothesis cmp_total : forall x y, P x -> P y -> exists v, cmp x y = Ok v.

Lemma insert_total (x : A) (l : list A) :
  P x -> Forall P l ->
  exists l', insert cmp x l = Ok l' /\ Permutation (x :: l) l' /\ Forall P l'.
Proof.
  intros Hx Hl. induction Hl as [|y ys Hy Hys IH]; cbn [insert].
  - exists [x]. auto.
  - destruct (cmp_total x y Hx Hy) as [v Ev]. rewrite Ev. cbn [rbind].
    destruct (num_gt v (int 0)).
    + destruct IH as (r & Er & Pr & Fr). rewrite Er. cbn [rbind].
      exists (y :: r). split; [reflexivity|]. split.
      * rewrite perm_swap. apply perm_skip. exact Pr.
      * constructor; assumption.
    + exists (x :: y :: ys). split; [reflexivity|]. split; [reflexivity|].
      constructor; [assumption|]. constructor; assumption.
Qed.

Lemma sort_total (l : list A) :
  Forall P l ->
  exists l', sort cmp l = Ok l' /\ Permutation l l' /\ Forall P l'.
Proof.
  intros Hl. induction Hl as [|x xs Hx Hxs IH]; cbn [sort].
  - exists []. auto.
  - destruct IH as (r & Er & Pr & Fr). rewrite Er. cbn [rbind].
    destruct (insert_total x r Hx Fr) as (l' & El & Pl & Fl).
    exists l'. split; [exact El|]. split; [|exact Fl].
    rewrite <- Pl. apply perm_skip. exact Pr.
Qed.

End Total.

Section Keyed.

Context {A : Type} (cmp : A -> A -> result num) (P : A -> Prop) (key : A -> Z).
Hypothesis cmp_key :
  forall x y, P x -> P y -> cmp x y = Ok (int (key x - key y)).

Local Abbreviation ordered := (fun x y : A => key x <= key y).
Local Abbreviation keyed := (fun (k : Z) (x : A) => key x =? k).

Lemma cmp_key_total : forall x y, P x -> P y -> exists v, cmp x y = Ok v.
Proof.
  intros x y Hx Hy. rewrite (cmp_key x y Hx Hy). eauto.
Qed.

Lemma insert_keyed (x : A) (l l' : list A) :
  P x -> Forall P l -> insert cmp x l = Ok l' ->
  (StronglySorted ordered l -> StronglySorted ordered l')
  /\ (forall k, filter (keyed k) l' = filter (keyed k) (x :: l)).
Proof.
  intros Hx Hl. revert l'. induction Hl as [|y ys Hy Hys IH]; intros l' E.
  - cbn [insert] in E. injection E as <-. split; [|reflexivity].
    intros _. repeat constructor.
  - cbn [insert] in E. rewrite (cmp_key x y Hx Hy) in E. cbn [rbind] in E.
    unfold num_gt in E. rewrite num_lt_int in E.
    destruct (Z.ltb_spec 0 (key x - key y)) as [L|L].
    + destruct (insert_total cmp P cmp_key_total x ys Hx Hys) as (r & Er & Pr & Fr).
      rewrite Er in E. cbn [rbind] in E. injection E as <-.
      destruct (IH r Er) as [Hs Hf]. split.
      * intros S. inversion S as [|? ? Sys Fy]; subst.
        constructor; [apply Hs; exact Sys|].
        rewrite <- Pr. constructor; [lia|exact Fy].
      * intros k. simpl. rewrite (Hf k). simpl.
        destruct (Z.eqb_spec (key x) k), (Z.eqb_spec (key y) k);
          try reflexivity. lia.
    + injection E as <-. split; [|reflexivity].
      intros S. inversion S as [|? ? Sys Fy]; subst.
      constructor; [exact S|].
      constructor; [lia|].
      eapply Forall_impl; [|exact Fy]. intros z Hz. simpl in Hz. lia.
Qed.

Lemma sort_keyed (l l' : list A) :
  Forall P l -> sort cmp l = Ok l' ->
  StronglySorted ordered l'
  /\ (forall k, filter (keyed k) l' = filter (keyed k) l).
Proof.
  intros Hl. revert l'. induction Hl as [|x xs Hx Hxs IH]; intros l' E.
  - cbn [sort] in E. injection E as <-. split; [constructor|reflexivity].
  - cbn [sort] in E.
    destruct (sort_total cmp P cmp_key_total xs Hxs) as (r & Er & Pr & Fr).
    rewrite Er in E. cbn [rbind] in E.
    destruct (IH r Er) as [Sr Hf].
    destruct (insert_keyed x r l' Hx Fr E) as [Hs Hk]. split.
    + apply Hs. exact Sr.
    + intros k. rewrite (Hk k). simpl. rewrite (Hf k). reflexivity.
Qed.

End Keyed.

End SortFacts.

(** * Layout and redraw of [src/src/App.jsx] *)

Module LayoutFacts.

Import JS Decide NumFacts Spec CodecFacts ColorFacts SortFacts.
Local Open Scope Z_scope.

(** *** The callback *)

Lemma paintTask_total (st : App.settings) (mn span : num) (tk : App.task)
    (idx : nat) :
  exists ob, App.paintTask st mn span tk idx = Ok ob.
Proof.
  unfold App.paintTask.
  destruct (toMinutes_total (App.start tk)) as [ts ->]. cbn [rbind].
  destruct (toMinutes_total (App.end_ tk)) as [te ->]. cbn [rbind].
  destruct (num_le _ _); [eauto|].
  assert (Hc : exists c, (if App.isValidHex (App.color tk) then Ok (App.color tk)
                          else App.hashColor (App.title tk)) = Ok c).
  { destruct (App.isValidHex (App.color tk)); [eauto|].
    destruct (hashColor_color (App.title tk)) as (pal & c & _ & _ & E).
    rewrite E. eauto. }
  destruct Hc as [c ->]. cbn [rbind].
  match goal with
  | |- context [App.toMinutes ?v] => destruct (toMinutes_total v) as [nw ->]
  end.
  cbn [rbind]. eauto.
Qed.

(** What a painted band says of its task. *)
Lemma paintTask_band (st : App.settings) (mn span : num) (tk : App.task)
    (idx : nat) (b : App.band) :
  App.paintTask st mn span tk idx = Ok (Some b) ->
  exists ts te,
    App.toMinutes (App.start tk) = Ok ts
    /\ App.toMinutes (App.end_ tk) = Ok te
    /\ App.b_start b = App.clamp ts mn (num_add mn span)
    /\ App.b_end b = App.clamp te mn (num_add mn span)
    /\ num_le (App.b_end b) (App.b_start b) = false
    /\ App.b_index b = idx /\ App.b_task b = tk
    /\ App.b_row b = num_mod (int (Z.of_nat idx)) (App.maxRows (App.canvasH st))
    /\ App.b_y b = num_add (int 64)
                     (num_mul (App.b_row b) (num_add App.rowHeight App.gaps))
    /\ (if App.isValidHex (App.color tk) then Ok (App.color tk)
        else App.hashColor (App.title tk)) = Ok (App.b_color b).
Proof.
  unfold App.paintTask.
  destruct (App.toMinutes (App.start tk)) as [ts|]; [|discriminate].
  destruct (App.toMinutes (App.end_ tk)) as [te|]; [|discriminate].
  cbn [rbind].
  destruct (num_le _ _) eqn:Le; [discriminate|].
  destruct (if App.isValidHex (App.color tk) then Ok (App.color tk)
            else App.hashColor (App.title tk)) as [c|]; [|discriminate].
  cbn [rbind].
  match goal with
  | |- context [App.toMinutes ?v] => destruct (App.toMinutes v) as [nw|]
  end; [|discriminate].
  cbn [rbind]. intros E. injection E as <-. cbn.
  exists ts, te. repeat split; try reflexivity. exact Le.
Qed.

(** The skip rule, both ways. *)
Lemma paintTask_skips (st : App.settings) (mn span : num) (tk : App.task)
    (idx : nat) (ts te : num) :
  App.toMinutes (App.start tk) = Ok ts ->
  App.toMinutes (App.end_ tk) = Ok te ->
  num_le (App.clamp te mn (num_add mn span))
         (App.clamp ts mn (num_add mn span)) = true ->
  App.paintTask st mn span tk idx = Ok None.
Proof.
  intros Es Ee Le. unfold App.paintTask. rewrite Es, Ee. cbn [rbind].
  rewrite Le. reflexivity.
Qed.

Lemma paintTask_paints (st : App.settings) (mn span : num) (tk : App.task)
    (idx : nat) (ts te : num) :
  App.toMinutes (App.start tk) = Ok ts ->
  App.toMinutes (App.end_ tk) = Ok te ->
  num_le (App.clamp te mn (num_add mn span))
         (App.clamp ts mn (num_add mn span)) = false ->
  exists b, App.paintTask st mn span tk idx = Ok (Some b).
Proof.
  intros Es Ee Le.
  destruct (paintTask_total st mn span tk idx) as [[b|] E]; [eauto|].
  exfalso. revert E. unfold App.paintTask. rewrite Es, Ee. cbn [rbind].
  rewrite Le.
  destruct (if App.isValidHex (App.color tk) then Ok (App.color tk)
            else App.hashColor (App.title tk)) as [c|]; [|discriminate].
  cbn [rbind].
  match goal with
  | |- context [App.toMinutes ?v] => destruct (App.toMinutes v) as [nw|]
  end; discriminate.
Qed.

(** *** The rows *)

Lemma rows_all : all_below (Z.to_nat 1201) rows_ok = true.
Proof. vm_compute. reflexivity. Qed.

Lemma canvasH_range (st : App.settings) :
  exists H, App.canvasH st = int H /\ 320 <= H <= 1200.
Proof.
  unfold App.canvasH, App.num_or.
  assert (E : exists z, (if truthy (VNum (int (App.clientHeight st)))
                         then int (App.clientHeight st) else int 420) = int z).
  { destruct (truthy _); eauto. }
  destruct E as [z ->]. rewrite floor_int, clamp_int.
  eexists. split; [reflexivity|lia].
Qed.

Lemma maxRows_value (H : Z) :
  320 <= H <= 1200 ->
  App.maxRows (int H) = int (Z.max 120 (H - 160) / 34)
  /\ 1 <= Z.max 120 (H - 160) / 34.
Proof.
  intros HH. split.
  - pose proof (all_below_spec _ _ rows_all H ltac:(lia)) as R.
    unfold rows_ok in R. apply orb_true_iff in R. destruct R as [R|R].
    + apply Z.ltb_lt in R. lia.
    + apply num_eqb_eq. exact R.
  - apply Z.div_le_lower_bound; lia.
Qed.

(** *** The store *)

Lemma update_app_last {A : Type} (l : list A) (x y : A) :
  App.update (l ++ [x]) (length l) y = l ++ [y].
Proof.
  induction l as [|z r IH]; simpl; [reflexivity|]. f_equal. exact IH.
Qed.

Lemma nth_error_app_last {A : Type} (l : list A) (x : A) :
  nth_error (l ++ [x]) (length l) = Some x.
Proof.
  induction l as [|z r IH]; simpl; [reflexivity|exact IH].
Qed.

Lemma byStart_total (a b : App.task) : exists v, App.byStart a b = Ok v.
Proof.
  unfold App.byStart.
  destruct (toMinutes_total (App.start a)) as [x ->].
  destruct (toMinutes_total (App.start b)) as [y ->].
  cbn [rbind]. eauto.
Qed.

Lemma viaRefs_total (objs : list App.task) (r1 r2 : nat) :
  (exists t, nth_error objs r1 = Some t) ->
  (exists t, nth_error objs r2 = Some t) ->
  exists v, App.viaRefs objs App.byStart r1 r2 = Ok v.
Proof.
  intros [t1 E1] [t2 E2]. unfold App.viaRefs. rewrite E1, E2.
  apply byStart_total.
Qed.

Lemma paintBand_some (st : App.settings) (mn span : num) (tk : App.task)
    (idx : nat) (b : App.band) (w : App.world) :
  App.paintTask st mn span tk idx = Ok (Some b) ->
  App.paintBand st mn span tk idx w
  = Ok (tt, App.World (App.objects w) (App.arrays w) (App.canvas w ++ [b])).
Proof.
  intros E. unfold App.paintBand, App.mbind, App.lift. rewrite E. reflexivity.
Qed.

Lemma paintBand_none (st : App.settings) (mn span : num) (tk : App.task)
    (idx : nat) (w : App.world) :
  App.paintTask st mn span tk idx = Ok None ->
  App.paintBand st mn span tk idx w = Ok (tt, w).
Proof.
  intros E. unfold App.paintBand, App.mbind, App.lift. rewrite E. reflexivity.
Qed.

Lemma forEachFrom_cons (f : App.task -> nat -> App.M unit) (r : nat)
    (rs : list nat) (idx : nat) (w : App.world) (tk : App.task) :
  nth_error (App.objects w) r = Some tk ->
  App.forEachFrom f (r :: rs) idx w
  = match f tk idx w with
    | Ok (_, w') => App.forEachFrom f rs (S idx) w'
    | Throw => Throw
    end.
Proof.
  intros E. cbn [App.forEachFrom]. unfold App.mbind, App.deref. rewrite E.
  reflexivity.
Qed.

(** [forEach] paints, in the order of the array, the band of every task
    that is not skipped, and touches nothing but the canvas. *)
Lemma forEachFrom_spec (st : App.settings) (mn span : num) (refs : list nat) :
  forall (idx : nat) (w : App.world),
    validRefs (App.objects w) refs ->
    exists bs,
      App.forEachFrom (App.paintBand st mn span) refs idx w
      = Ok (tt, App.World (App.objects w) (App.arrays w) (App.canvas w ++ bs))
      /\ forall b, In b bs <->
           exists i r tk,
             nth_error refs i = Some r
             /\ nth_error (App.objects w) r = Some tk
             /\ App.paintTask st mn span tk (idx + i) = Ok (Some b).
Proof.
  induction refs as [|r rs IH]; intros idx w Hv.
  - exists []. split.
    + cbn. rewrite app_nil_r. destruct w; reflexivity.
    + intros b. split; [intros []|].
      intros (i & r & tk & E & _). destruct i; discriminate E.
  - inversion Hv as [|? ? [tk Etk] Hrs]; subst.
    rewrite (forEachFrom_cons _ r rs idx w tk Etk).
    destruct (paintTask_total st mn span tk idx) as [ob Eob].
    destruct ob as [b|].
    + rewrite (paintBand_some st mn span tk idx b w Eob).
      destruct (IH (S idx) (App.World (App.objects w) (App.arrays w)
                                      (App.canvas w ++ [b])) Hrs)
        as (bs & E & Hin).
      rewrite E. cbn [App.objects App.arrays App.canvas].
      exists (b :: bs). split.
      * rewrite <- app_assoc. reflexivity.
      * intros b0. cbn [App.objects] in Hin. split.
        -- intros [<-|Hb].
           ++ exists 0%nat, r, tk. rewrite Nat.add_0_r. auto.
           ++ apply Hin in Hb. destruct Hb as (i & r' & tk' & E1 & E2 & E3).
              exists (S i), r', tk'. rewrite Nat.add_succ_r. auto.
        -- intros (i & r' & tk' & E1 & E2 & E3). destruct i as [|i].
           ++ cbn in E1. injection E1 as <-. rewrite Etk in E2.
              injection E2 as <-. rewrite Nat.add_0_r, Eob in E3.
              injection E3 as <-. left. reflexivity.
           ++ right. apply Hin. exists i, r', tk'.
              rewrite Nat.add_succ_r in E3. auto.
    + rewrite (paintBand_none st mn span tk idx w Eob).
      destruct (IH (S idx) w Hrs) as (bs & E & Hin).
      rewrite E. exists bs. split; [reflexivity|].
      intros b0. split.
      * intros Hb. apply Hin in Hb. destruct Hb as (i & r' & tk' & E1 & E2 & E3).
        exists (S i), r', tk'. rewrite Nat.add_succ_r. auto.
      * intros (i & r' & tk' & E1 & E2 & E3). destruct i as [|i].
        -- cbn in E1. injection E1 as <-. rewrite Etk in E2.
           injection E2 as <-. rewrite Nat.add_0_r, Eob in E3. discriminate E3.
        -- apply Hin. exists i, r', tk'.
           rewrite Nat.add_succ_r in E3. auto.
Qed.

(** [sorted]: a new array, sorted; the array it copies is left as it
    was. *)
Lemma sorted_spec (tasks : nat) (w : App.world) (l : list nat) :
  nth_error (App.arrays w) tasks = Some l ->
  validRefs (App.objects w) l ->
  exists l',
    sort (App.viaRefs (App.objects w) App.byStart) l = Ok l'
    /\ Permutation l l'
    /\ validRefs (App.objects w) l'
    /\ App.sorted tasks w
       = Ok (length (App.arrays w),
             App.World (App.objects w) (App.arrays w ++ [l']) (App.canvas w)).
Proof.
  intros El Hv.
  destruct (sort_total (App.viaRefs (App.objects w) App.byStart)
              (fun r => exists t, nth_error (App.objects w) r = Some t)
              (viaRefs_total (App.objects w)) l Hv) as (l' & Es & Pl & Vl).
  exists l'. split; [exact Es|]. split; [exact Pl|]. split; [exact Vl|].
  unfold App.sorted, App.spread, App.sortInPlace, App.mbind, App.readArray,
    App.newArray, App.lift, App.writeArray, App.ret.
  rewrite El. cbn [App.arrays App.objects App.canvas].
  rewrite nth_error_app_last. cbn [App.arrays App.objects App.canvas].
  rewrite Es. cbn [App.arrays App.objects App.canvas].
  rewrite update_app_last. reflexivity.
Qed.

(** One redraw, in full. *)
Lemma redraw_spec (st : App.settings) (tasks : nat) (w : App.world)
    (l : list nat) :
  nth_error (App.arrays w) tasks = Some l ->
  validRefs (App.objects w) l ->
  exists mn span l' bs,
    App.minDay st = Ok mn /\ App.daySpan st = Ok span
    /\ sort (App.viaRefs (App.objects w) App.byStart) l = Ok l'
    /\ Permutation l l'
    /\ App.redraw st tasks w
       = Ok (tt, App.World (App.objects w) (App.arrays w ++ [l']) bs)
    /\ forall b, In b bs <->
         exists i r tk,
           nth_error l' i = Some r
           /\ nth_error (App.objects w) r = Some tk
           /\ App.paintTask st mn span tk i = Ok (Some b).
Proof.
  intros El Hv.
  destruct (daySpan_range st) as (mn & mx & d & Emn & _ & Ed & _).
  destruct (sorted_spec tasks w l El Hv) as (l' & Es & Pl & Vl & Esorted).
  destruct (forEachFrom_spec st mn (int d) l' 0
              (App.World (App.objects w) (App.arrays w ++ [l']) []) Vl)
    as (bs & Ef & Hin).
  exists mn, (int d), l', bs.
  split; [exact Emn|]. split; [exact Ed|]. split; [exact Es|].
  split; [exact Pl|]. split; [|exact Hin].
  unfold App.redraw. unfold App.mbind at 1. unfold App.lift at 1. rewrite Emn.
  unfold App.mbind at 1. unfold App.lift at 1. rewrite Ed.
  unfold App.mbind at 1. rewrite Esorted.
  unfold App.draw, App.mbind at 1, App.clearCanvas.
  cbn [App.objects App.arrays App.canvas].
  unfold App.forEach, App.mbind at 1, App.readArray.
  cbn [App.arrays]. rewrite nth_error_app_last.
  rewrite Ef. reflexivity.
Qed.

(** The index of the callback counts the tasks that are skipped: after
    a skipped task the next band is on the second row. *)
Lemma skipped_task_keeps_its_index :
  exists w', App.redraw Examples.window_6_22 0 Examples.gap_world = Ok (tt, w')
             /\ map App.b_index (App.canvas w') = [1%nat]
             /\ map App.b_row (App.canvas w') = [int 1].
Proof.
  eexists. split; [vm_compute; reflexivity|]. split; reflexivity.
Qed.

End LayoutFacts.

(** * The draft against the application *)

Module DraftFacts.

Import JS Decide NumFacts Spec CodecFacts.
Local Open Scope Z_scope.

Lemma draft_parse_all : all_below (Z.to_nat 1440) draft_parse_ok = true.
Proof. vm_compute. reflexivity. Qed.

Lemma draft_render_all : all_below (Z.to_nat 1440) draft_render_ok = true.
Proof. vm_compute. reflexivity. Qed.

Lemma hour_minute_index (h m : Z) :
  0 <= h <= 23 -> 0 <= m <= 59 ->
  0 <= h * 60 + m < 1440 /\ (h * 60 + m) / 60 = h /\ (h * 60 + m) mod 60 = m.
Proof.
  intros Hh Hm. split; [lia|]. split.
  - symmetry. apply Z.div_unique with (r := m); lia.
  - symmetry. apply Z.mod_unique with (q := h); lia.
Qed.

(** Where the draft parts from the application. *)

Lemma draft_toMinutes_raises : Draft.toMinutes VUndefined = Throw.
Proof. reflexivity. Qed.

Lemma draft_toMinutes_not_a_number :
  Draft.toMinutes (VStr (lit "abc")) = Ok NaN
  /\ Draft.toMinutes (VStr (lit "9")) = Ok NaN.
Proof. split; vm_compute; reflexivity. Qed.

Lemma draft_fromMinutes_negative :
  Draft.fromMinutes (int (-30)) = lit "-1:-30".
Proof. vm_compute. reflexivity. Qed.

Lemma draft_hashColor_raises : Draft.hashColor VUndefined = Throw.
Proof. reflexivity. Qed.

End DraftFacts.

(** * Rounding to a double *)

Module RoundFacts.

Import JS NumFacts Spec.
Local Open Scope Q_scope.

Lemma pow2_pos (e : Z) : 0 < pow2 e.
Proof.
  unfold pow2. destruct (Z.leb_spec 0 e).
  - change 0 with (inject_Z 0). rewrite <- Zlt_Qlt. apply Z.pow_pos_nonneg; lia.
  - reflexivity.
Qed.

Lemma pow2_nonneg (e : Z) : (0 <= e)%Z -> pow2 e = inject_Z (2 ^ e).
Proof. intros H. unfold pow2. apply Z.leb_le in H. now rewrite H. Qed.

Lemma pow2_inv_nonpos (p : Z) :
  (p <= 0)%Z -> / pow2 p == inject_Z (2 ^ (- p)).
Proof.
  intros H. unfold pow2. destruct (Z.leb_spec 0 p).
  - assert (p = 0%Z) by lia. subst. reflexivity.
  - assert (0 < 2 ^ (- p))%Z by (apply Z.pow_pos_nonneg; lia).
    unfold Qinv, inject_Z. simpl. rewrite Z2Pos.id by lia. reflexivity.
Qed.

Lemma rhe_ge_int (x : Q) (m : Z) :
  inject_Z m <= x -> (m <= round_half_even x)%Z.
Proof.
  intros H. apply Qfloor_resp_le in H. rewrite Qfloor_Z in H.
  unfold round_half_even.
  destruct (Qcompare (x - inject_Z (Qfloor x)) (1 # 2));
    [destruct (Z.even (Qfloor x))| |]; lia.
Qed.

Lemma rhe_le_int (x : Q) (m : Z) :
  x <= inject_Z m -> (round_half_even x <= m)%Z.
Proof.
  intros H. pose proof (Qfloor_resp_le _ _ H) as Hf. rewrite Qfloor_Z in Hf.
  assert (Hup : 0 < x - inject_Z (Qfloor x) -> (Qfloor x + 1 <= m)%Z).
  { intros Hp.
    assert (inject_Z (Qfloor x) < inject_Z m) as Hlt.
    { apply Qlt_le_trans with x; [|exact H].
      apply Qlt_minus_iff. exact Hp. }
    rewrite <- Zlt_Qlt in Hlt. lia. }
  unfold round_half_even.
  destruct (Qcompare (x - inject_Z (Qfloor x)) (1 # 2)) eqn:E.
  - apply Qeq_alt in E.
    destruct (Z.even (Qfloor x)); [lia|]. apply Hup. rewrite E. reflexivity.
  - lia.
  - apply Qgt_alt in E. apply Hup.
    apply Qlt_trans with (1 # 2); [reflexivity | exact E].
Qed.

Lemma binade_le (a : Q) : 0 < a -> pow2 (binade a) <= a.
Proof.
  intros Ha. unfold binade.
  destruct (Qle_bool (pow2 (Z.log2 (Qnum a) - Z.log2 (Z.pos (Qden a)))) a) eqn:E.
  - now apply Qle_bool_iff.
  - clear E. destruct a as [n d]. cbn [Qnum Qden].
    assert (Hn : (0 < n)%Z).
    { unfold Qlt in Ha. simpl in Ha. lia. }
    pose proof (Z.log2_spec n Hn) as [Hn1 Hn2].
    pose proof (Z.log2_spec (Z.pos d) (Pos2Z.is_pos d)) as [Hd1 Hd2].
    pose proof (Z.log2_nonneg n) as Hln.
    pose proof (Z.log2_nonneg (Z.pos d)) as Hld.
    set (ln := Z.log2 n) in *. set (ld := Z.log2 (Z.pos d)) in *.
    unfold pow2. destruct (Z.leb_spec 0 (ln - ld - 1)).
    + unfold Qle, inject_Z. cbn [Qnum Qden]. rewrite Z.mul_1_r.
      apply Z.le_trans with (2 ^ (ln - ld - 1) * 2 ^ (Z.succ ld))%Z.
      * apply Z.mul_le_mono_nonneg_l; [apply Z.pow_nonneg; lia | lia].
      * rewrite <- Z.pow_add_r by lia.
        replace (ln - ld - 1 + Z.succ ld)%Z with ln by lia. exact Hn1.
    + assert (0 < 2 ^ (- (ln - ld - 1)))%Z by (apply Z.pow_pos_nonneg; lia).
      unfold Qle. cbn [Qnum Qden]. rewrite Z2Pos.id by lia. rewrite Z.mul_1_l.
      apply Z.le_trans with (2 ^ ln * 2 ^ (- (ln - ld - 1)))%Z.
      * rewrite <- Z.pow_add_r by lia.
        replace (ln + - (ln - ld - 1))%Z with (Z.succ ld) by lia. lia.
      * apply Z.mul_le_mono_nonneg_r; lia.
Qed.


Lemma nearest_ge (a : Q) (k : Z) :
  0 < a -> (0 <= k <= two53)%Z -> inject_Z k <= a -> inject_Z k <= nearest a.
Proof.
  intros Ha Hk Hka. unfold nearest.
  pose proof (pow2_pos (scale a)) as Hp.
  destruct (Z.leb_spec (scale a) 0) as [Hs | Hs].
  - assert (E : inject_Z (k * 2 ^ (- scale a)) <= a / pow2 (scale a)).
    { rewrite inject_Z_mult, <- (pow2_inv_nonpos _ Hs).
      unfold Qdiv. apply Qmult_le_compat_r; [exact Hka|].
      apply Qlt_le_weak, Qinv_lt_0_compat, Hp. }
    apply rhe_ge_int in E. rewrite Zle_Qle in E.
    apply (Qmult_le_compat_r _ _ (pow2 (scale a))) in E;
      [|apply Qlt_le_weak, Hp].
    eapply Qle_trans; [|exact E].
    rewrite inject_Z_mult, <- (pow2_inv_nonpos _ Hs).
    rewrite <- Qmult_assoc, (Qmult_comm (/ _)), Qmult_inv_r, Qmult_1_r.
    + apply Qle_refl.
    + intros H0. rewrite H0 in Hp. discriminate.
  - assert (Hb : binade a = (scale a + 52)%Z) by (unfold scale in *; lia).
    pose proof (binade_le a Ha) as Hl. rewrite Hb in Hl.
    rewrite pow2_nonneg in Hl by lia.
    assert (E : inject_Z (2 ^ 52) <= a / pow2 (scale a)).
    { apply Qle_shift_div_l; [exact Hp|].
      rewrite pow2_nonneg by lia. rewrite <- inject_Z_mult.
      rewrite <- Z.pow_add_r by lia.
      replace (52 + scale a)%Z with (scale a + 52)%Z by lia. exact Hl. }
    apply rhe_ge_int in E. rewrite Zle_Qle in E.
    apply (Qmult_le_compat_r _ _ (pow2 (scale a))) in E;
      [|apply Qlt_le_weak, Hp].
    eapply Qle_trans; [|exact E].
    rewrite pow2_nonneg by lia. rewrite <- inject_Z_mult, <- Zle_Qle.
    assert (2 ^ 1 <= 2 ^ scale a)%Z by (apply Z.pow_le_mono_r; lia).
    unfold two53 in Hk. lia.
Qed.

Lemma nearest_le (a : Q) (k : Z) :
  0 < a -> (scale a <= 0)%Z -> a <= inject_Z k -> nearest a <= inject_Z k.
Proof.
  intros Ha Hs Hka. unfold nearest.
  pose proof (pow2_pos (scale a)) as Hp.
  assert (E : a / pow2 (scale a) <= inject_Z (k * 2 ^ (- scale a))).
  { rewrite inject_Z_mult, <- (pow2_inv_nonpos _ Hs).
    unfold Qdiv. apply Qmult_le_compat_r; [exact Hka|].
    apply Qlt_le_weak, Qinv_lt_0_compat, Hp. }
  apply rhe_le_int in E. rewrite Zle_Qle in E.
  apply (Qmult_le_compat_r _ _ (pow2 (scale a))) in E;
    [|apply Qlt_le_weak, Hp].
  eapply Qle_trans; [exact E|].
  rewrite inject_Z_mult, <- (pow2_inv_nonpos _ Hs).
  rewrite <- Qmult_assoc, (Qmult_comm (/ _)), Qmult_inv_r, Qmult_1_r.
  - apply Qle_refl.
  - intros H0. rewrite H0 in Hp. discriminate.
Qed.

(** Above 2^53 the scale is positive only from 2^53 on. *)
Lemma scale_pos (a : Q) : 0 < a -> (0 < scale a)%Z -> inject_Z two53 <= a.
Proof.
  intros Ha Hs.
  assert (Hb : (53 <= binade a)%Z) by (unfold scale in *; lia).
  eapply Qle_trans; [|apply (binade_le a Ha)].
  rewrite pow2_nonneg by lia. rewrite <- Zle_Qle.
  change two53 with (2 ^ 53)%Z. apply Z.pow_le_mono_r; lia.
Qed.

Lemma nearest_nonneg (a : Q) : 0 < a -> 0 <= nearest a.
Proof.
  intros Ha. unfold nearest.
  apply Qmult_le_0_compat; [|apply Qlt_le_weak, pow2_pos].
  change 0 with (inject_Z 0). rewrite <- Zle_Qle. apply rhe_ge_int.
  apply Qle_shift_div_l; [apply pow2_pos|].
  rewrite Qmult_0_l. now apply Qlt_le_weak.
Qed.

Lemma round_nearest_eq (r : Q) :
  round_nearest r =
  if Qeq_bool (Qabs r) 0 then Fin 0
  else if Qle_bool (pow2 1024) (nearest (Qabs r))
       then Inf (negb (Qle_bool 0 r))
       else fin (if Qle_bool 0 r then nearest (Qabs r)
                 else - nearest (Qabs r)).
Proof. reflexivity. Qed.

Lemma two53_lt_pow2_1024 : inject_Z two53 < pow2 1024.
Proof. vm_compute. reflexivity. Qed.

Lemma Qabs_pos_of_nonzero (r : Q) : Qeq_bool (Qabs r) 0 = false -> 0 < Qabs r.
Proof.
  intros H. apply Qeq_bool_neq in H.
  destruct (Qle_lt_or_eq _ _ (Qabs_nonneg r)) as [Hlt | Heq]; [exact Hlt|].
  exfalso. apply H. symmetry. exact Heq.
Qed.

(** Rounding does not cross a representable integer upwards... *)
Lemma round64_ge_int (k : Z) (q : Q) :
  (Z.abs k <= two53)%Z -> inject_Z k <= q ->
  num_le (int k) (round64 q) = true.
Proof.
  intros Hk Hq.
  pose proof (Qred_correct q) as Hr.
  assert (Hspecial : q < 0 -> (0 < scale (Qabs (Qred q)))%Z ->
                     q == inject_Z (- two53)).
  { intros Hneg Hs.
    assert (Ha : Qabs (Qred q) == - q).
    { rewrite Hr. apply Qabs_neg. now apply Qlt_le_weak. }
    assert (Hpos : 0 < Qabs (Qred q)).
    { rewrite Ha. apply (Qopp_lt_compat q 0) in Hneg. exact Hneg. }
    pose proof (scale_pos _ Hpos Hs) as Hbig. rewrite Ha in Hbig.
    assert (Hk2 : inject_Z (- two53) <= inject_Z k).
    { rewrite <- Zle_Qle. lia. }
    apply Qle_antisym.
    - rewrite inject_Z_opp. apply Qopp_le_compat in Hbig.
      rewrite Qopp_involutive in Hbig. exact Hbig.
    - eapply Qle_trans; [exact Hk2 | exact Hq]. }
  destruct (Qlt_le_dec q 0) as [Hneg | Hpos].
  - destruct (Z_lt_le_dec 0 (scale (Qabs (Qred q)))) as [Hs | Hs].
    + pose proof (Hspecial Hneg Hs) as E.
      rewrite (round64_int q (- two53)); [|exact E|unfold two53; lia].
      rewrite num_le_int. apply Z.leb_le.
      rewrite E in Hq. rewrite <- Zle_Qle in Hq. exact Hq.
    + unfold round64.
      destruct ((Z.pos (Qden (Qred q)) =? 1)%Z
                && (Z.abs (Qnum (Qred q)) <=? two53)%Z).
      * unfold num_le, int, fin. apply Qle_bool_iff. rewrite Hr. exact Hq.
      * rewrite round_nearest_eq.
        assert (Ha : Qabs (Qred q) == - q).
        { rewrite Hr. apply Qabs_neg. now apply Qlt_le_weak. }
        assert (Hapos : 0 < Qabs (Qred q)).
        { rewrite Ha. apply (Qopp_lt_compat q 0) in Hneg. exact Hneg. }
        assert (Hkneg : (k < 0)%Z).
        { rewrite Zlt_Qlt. eapply Qle_lt_trans; [exact Hq | exact Hneg]. }
        assert (Hle : nearest (Qabs (Qred q)) <= inject_Z (- k)).
        { apply nearest_le; [exact Hapos | exact Hs |].
          rewrite Ha, inject_Z_opp. now apply Qopp_le_compat. }
        destruct (Qeq_bool (Qabs (Qred q)) 0) eqn:E0.
        { apply Qeq_bool_iff in E0. rewrite E0 in Hapos. discriminate. }
        destruct (Qle_bool (pow2 1024) (nearest (Qabs (Qred q)))) eqn:Eo.
        { exfalso. apply Qle_bool_iff in Eo.
          assert (inject_Z (- k) <= inject_Z two53)
            by (rewrite <- Zle_Qle; lia).
          pose proof two53_lt_pow2_1024 as Hlt.
          apply (Qlt_irrefl (pow2 1024)).
          eapply Qle_lt_trans; [exact Eo|].
          eapply Qle_lt_trans; [exact Hle|].
          eapply Qle_lt_trans; [eassumption | exact Hlt]. }
        destruct (Qle_bool 0 (Qred q)) eqn:Es.
        { apply Qle_bool_iff in Es. rewrite Hr in Es.
          exfalso. apply (Qlt_irrefl 0).
          eapply Qle_lt_trans; [exact Es | exact Hneg]. }
        unfold num_le, int, fin. apply Qle_bool_iff. rewrite Qred_correct.
        apply Qopp_le_compat in Hle. rewrite inject_Z_opp in Hle.
        rewrite Qopp_involutive in Hle. exact Hle.
  - unfold round64.
    destruct ((Z.pos (Qden (Qred q)) =? 1)%Z
              && (Z.abs (Qnum (Qred q)) <=? two53)%Z).
    + unfold num_le, int, fin. apply Qle_bool_iff. rewrite Hr. exact Hq.
    + rewrite round_nearest_eq.
      assert (Ha : Qabs (Qred q) == q).
      { rewrite Hr. now apply Qabs_pos. }
      destruct (Qeq_bool (Qabs (Qred q)) 0) eqn:E0.
      { apply Qeq_bool_iff in E0. unfold num_le, int, fin. apply Qle_bool_iff.
        rewrite <- E0, Ha. exact Hq. }
      pose proof (Qabs_pos_of_nonzero _ E0) as Hapos.
      assert (Hv : inject_Z k <= nearest (Qabs (Qred q))).
      { destruct (Z_le_gt_dec k 0) as [Hk0 | Hk0].
        - eapply Qle_trans; [|apply nearest_nonneg, Hapos].
          change 0 with (inject_Z 0). rewrite <- Zle_Qle. exact Hk0.
        - apply nearest_ge; [exact Hapos | lia |]. rewrite Ha. exact Hq. }
      destruct (Qle_bool (pow2 1024) (nearest (Qabs (Qred q)))) eqn:Eo.
      { assert (Es : Qle_bool 0 (Qred q) = true).
        { apply Qle_bool_iff. rewrite Hr. exact Hpos. }
        rewrite Es. reflexivity. }
      assert (Es : Qle_bool 0 (Qred q) = true).
      { apply Qle_bool_iff. rewrite Hr. exact Hpos. }
      rewrite Es. unfold num_le, int, fin. apply Qle_bool_iff. rewrite Qred_correct. exact Hv.
Qed.

(** ... nor downwards. *)
Lemma round64_le_int (k : Z) (q : Q) :
  (Z.abs k <= two53)%Z -> q <= inject_Z k ->
  num_le (round64 q) (int k) = true.
Proof.
  intros Hk Hq.
  pose proof (Qred_correct q) as Hr.
  destruct (Qlt_le_dec q 0) as [Hneg | Hpos].
  - unfold round64.
    destruct ((Z.pos (Qden (Qred q)) =? 1)%Z
              && (Z.abs (Qnum (Qred q)) <=? two53)%Z).
    + unfold num_le, int. apply Qle_bool_iff. rewrite Hr. exact Hq.
    + rewrite round_nearest_eq.
      assert (Ha : Qabs (Qred q) == - q).
      { rewrite Hr. apply Qabs_neg. now apply Qlt_le_weak. }
      assert (Hapos : 0 < Qabs (Qred q)).
      { rewrite Ha. apply (Qopp_lt_compat q 0) in Hneg. exact Hneg. }
      destruct (Qeq_bool (Qabs (Qred q)) 0) eqn:E0.
      { apply Qeq_bool_iff in E0. rewrite E0 in Hapos. discriminate. }
      assert (Es : Qle_bool 0 (Qred q) = false).
      { destruct (Qle_bool 0 (Qred q)) eqn:Es; [|reflexivity].
        apply Qle_bool_iff in Es. rewrite Hr in Es.
        exfalso. apply (Qlt_irrefl 0).
        eapply Qle_lt_trans; [exact Es | exact Hneg]. }
      rewrite Es.
      destruct (Qle_bool (pow2 1024) (nearest (Qabs (Qred q)))); [reflexivity|].
      unfold num_le, int, fin. apply Qle_bool_iff. rewrite Qred_correct.
      destruct (Z_le_gt_dec 0 k) as [Hk0 | Hk0].
      * apply Qle_trans with 0.
        -- pose proof (nearest_nonneg _ Hapos) as Hn.
           apply Qopp_le_compat in Hn. exact Hn.
        -- change 0 with (inject_Z 0). rewrite <- Zle_Qle. exact Hk0.
      * assert (Hv : inject_Z (- k) <= nearest (Qabs (Qred q))).
        { apply nearest_ge; [exact Hapos | lia |].
          rewrite Ha, inject_Z_opp. now apply Qopp_le_compat. }
        apply Qopp_le_compat in Hv. rewrite inject_Z_opp in Hv.
        rewrite Qopp_involutive in Hv. exact Hv.
  - assert (Ha : Qabs (Qred q) == q).
    { rewrite Hr. now apply Qabs_pos. }
    assert (Hk0 : (0 <= k)%Z).
    { rewrite Zle_Qle. eapply Qle_trans; [exact Hpos | exact Hq]. }
    destruct (Qeq_bool (Qabs (Qred q)) 0) eqn:E0.
    { apply Qeq_bool_iff in E0. rewrite Ha in E0.
      rewrite (round64_int q 0); [|exact E0|unfold two53; lia].
      rewrite num_le_int. apply Z.leb_le. exact Hk0. }
    pose proof (Qabs_pos_of_nonzero _ E0) as Hapos.
    destruct (Z_lt_le_dec 0 (scale (Qabs (Qred q)))) as [Hs | Hs].
    + pose proof (scale_pos _ Hapos Hs) as Hbig. rewrite Ha in Hbig.
      assert (E : q == inject_Z two53).
      { apply Qle_antisym; [|exact Hbig].
        eapply Qle_trans; [exact Hq|]. rewrite <- Zle_Qle. lia. }
      rewrite (round64_int q two53); [|exact E|unfold two53; lia].
      rewrite num_le_int. apply Z.leb_le.
      rewrite E in Hq. rewrite <- Zle_Qle in Hq. exact Hq.
    + unfold round64.
      destruct ((Z.pos (Qden (Qred q)) =? 1)%Z
                && (Z.abs (Qnum (Qred q)) <=? two53)%Z).
      * unfold num_le, int. apply Qle_bool_iff. rewrite Hr. exact Hq.
      * rewrite round_nearest_eq, E0.
        assert (Hle : nearest (Qabs (Qred q)) <= inject_Z k).
        { apply nearest_le; [exact Hapos | exact Hs |]. rewrite Ha. exact Hq. }
        destruct (Qle_bool (pow2 1024) (nearest (Qabs (Qred q)))) eqn:Eo.
        { exfalso. apply Qle_bool_iff in Eo.
          assert (inject_Z k <= inject_Z two53)
            by (rewrite <- Zle_Qle; lia).
          pose proof two53_lt_pow2_1024 as Hlt.
          apply (Qlt_irrefl (pow2 1024)).
          eapply Qle_lt_trans; [exact Eo|].
          eapply Qle_lt_trans; [exact Hle|].
          eapply Qle_lt_trans; [eassumption | exact Hlt]. }
        assert (Es : Qle_bool 0 (Qred q) = true).
        { apply Qle_bool_iff. rewrite Hr. exact Hpos. }
        rewrite Es. unfold num_le, int, fin. apply Qle_bool_iff.
        rewrite Qred_correct. exact Hle.
Qed.

(** A rounded real is a number. *)
Lemma round64_not_NaN (q : Q) : round64 q <> NaN.
Proof.
  unfold round64.
  destruct ((Z.pos (Qden (Qred q)) =? 1)%Z
            && (Z.abs (Qnum (Qred q)) <=? two53)%Z); [discriminate|].
  rewrite round_nearest_eq.
  destruct (Qeq_bool (Qabs (Qred q)) 0); [discriminate|].
  destruct (Qle_bool (pow2 1024) (nearest (Qabs (Qred q)))); discriminate.
Qed.

Lemma pow2_mono (x y : Z) : (x <= y)%Z -> pow2 x <= pow2 y.
Proof.
  intros H. unfold pow2.
  destruct (Z.leb_spec 0 x) as [Hx | Hx]; destruct (Z.leb_spec 0 y) as [Hy | Hy];
    try lia.
  - rewrite <- Zle_Qle. apply Z.pow_le_mono_r; lia.
  - assert (0 < 2 ^ (- x))%Z by (apply Z.pow_pos_nonneg; lia).
    assert (0 < 2 ^ y)%Z by (apply Z.pow_pos_nonneg; lia).
    unfold Qle, inject_Z. cbn [Qnum Qden]. rewrite Z2Pos.id by lia. nia.
  - assert (0 < 2 ^ (- x))%Z by (apply Z.pow_pos_nonneg; lia).
    assert (0 < 2 ^ (- y))%Z by (apply Z.pow_pos_nonneg; lia).
    assert (2 ^ (- y) <= 2 ^ (- x))%Z by (apply Z.pow_le_mono_r; lia).
    unfold Qle. cbn [Qnum Qden]. rewrite !Z2Pos.id by lia. lia.
Qed.

Lemma binade_lt (a : Q) (e : Z) : 0 < a -> a < pow2 e -> (binade a < e)%Z.
Proof.
  intros Ha Hlt. destruct (Z_lt_le_dec (binade a) e) as [H | H]; [exact H|].
  exfalso. apply (Qlt_irrefl a).
  eapply Qlt_le_trans; [exact Hlt|].
  eapply Qle_trans; [apply pow2_mono, H | apply binade_le, Ha].
Qed.

Lemma nearest_le_dyadic (a : Q) (k j : Z) :
  0 < a -> (0 <= j)%Z -> (scale a <= - j)%Z ->
  a <= inject_Z k / inject_Z (2 ^ j) ->
  nearest a <= inject_Z k / inject_Z (2 ^ j).
Proof.
  intros Ha Hj Hs Hka. unfold nearest.
  pose proof (pow2_pos (scale a)) as Hp.
  assert (Hs0 : (scale a <= 0)%Z) by lia.
  assert (H2j : 0 < inject_Z (2 ^ j)).
  { change 0 with (inject_Z 0). rewrite <- Zlt_Qlt.
    apply Z.pow_pos_nonneg; lia. }
  assert (Hsplit : / pow2 (scale a)
                   == inject_Z (2 ^ j) * inject_Z (2 ^ (- scale a - j))).
  { rewrite (pow2_inv_nonpos _ Hs0), <- inject_Z_mult, <- Z.pow_add_r by lia.
    replace (j + (- scale a - j))%Z with (- scale a)%Z by lia. reflexivity. }
  assert (Hne : ~ inject_Z (2 ^ j) == 0).
  { intros H0. rewrite H0 in H2j. discriminate. }
  assert (E : a / pow2 (scale a) <= inject_Z (k * 2 ^ (- scale a - j))).
  { unfold Qdiv.
    apply Qle_trans with (inject_Z k / inject_Z (2 ^ j) * / pow2 (scale a)).
    - apply Qmult_le_compat_r; [exact Hka|].
      apply Qlt_le_weak, Qinv_lt_0_compat, Hp.
    - rewrite Hsplit, inject_Z_mult. unfold Qdiv.
      rewrite <- Qmult_assoc, (Qmult_assoc (/ _)), (Qmult_comm (/ _)),
        Qmult_inv_r, Qmult_1_l by exact Hne.
      apply Qle_refl. }
  apply rhe_le_int in E. rewrite Zle_Qle in E.
  apply (Qmult_le_compat_r _ _ (pow2 (scale a))) in E;
    [|apply Qlt_le_weak, Hp].
  eapply Qle_trans; [exact E|].
  assert (Hp0 : ~ pow2 (scale a) == 0).
  { intros H0. rewrite H0 in Hp. discriminate. }
  assert (Hinv : pow2 (scale a)
                 == / (inject_Z (2 ^ j) * inject_Z (2 ^ (- scale a - j)))).
  { rewrite <- Hsplit, Qinv_involutive. reflexivity. }
  rewrite inject_Z_mult, Hinv, Qinv_mult_distr. unfold Qdiv.
  rewrite <- Qmult_assoc, (Qmult_comm (/ inject_Z (2 ^ j))),
    (Qmult_assoc (inject_Z (2 ^ (- scale a - j)))), Qmult_inv_r, Qmult_1_l.
  - apply Qle_refl.
  - intros H0.
    assert (0 < inject_Z (2 ^ (- scale a - j))) as Hq.
    { change 0 with (inject_Z 0). rewrite <- Zlt_Qlt.
      apply Z.pow_pos_nonneg; lia. }
    rewrite H0 in Hq. discriminate.
Qed.

(** Rounding does not cross a number [k / 2^j] with [k] below 2^53 and
    [j] at most 53. *)
Lemma round64_le_dyadic (k j : Z) (q bound : Q) :
  (0 <= k < two53)%Z -> (0 <= j <= 53)%Z ->
  bound == inject_Z k / inject_Z (2 ^ j) ->
  q <= bound ->
  num_le (round64 q) (Fin bound) = true.
Proof.
  intros Hk Hj Hb Hq.
  pose proof (Qred_correct q) as Hr.
  assert (H2j : 0 < inject_Z (2 ^ j)).
  { change 0 with (inject_Z 0). rewrite <- Zlt_Qlt.
    apply Z.pow_pos_nonneg; lia. }
  assert (Hb0 : 0 <= bound).
  { rewrite Hb. apply Qle_shift_div_l; [exact H2j|].
    rewrite Qmult_0_l. change 0 with (inject_Z 0). rewrite <- Zle_Qle. lia. }
  destruct (Qlt_le_dec 0 q) as [Hpos | Hneg].
  - assert (Ha : Qabs (Qred q) == q).
    { rewrite Hr. apply Qabs_pos. now apply Qlt_le_weak. }
    assert (Hapos : 0 < Qabs (Qred q)) by (rewrite Ha; exact Hpos).
    assert (Hs : (scale (Qabs (Qred q)) <= - j)%Z).
    { assert (binade (Qabs (Qred q)) < 53 - j)%Z.
      { apply binade_lt; [exact Hapos|]. rewrite Ha.
        eapply Qle_lt_trans; [exact Hq|]. rewrite Hb.
        apply Qlt_shift_div_r; [exact H2j|].
        rewrite pow2_nonneg by lia. rewrite <- inject_Z_mult, <- Zlt_Qlt.
        rewrite <- Z.pow_add_r by lia.
        replace (53 - j + j)%Z with 53%Z by lia.
        change (2 ^ 53)%Z with 9007199254740992%Z. unfold two53 in Hk. lia. }
      unfold scale. lia. }
    assert (Hle : nearest (Qabs (Qred q)) <= bound).
    { rewrite Hb. apply nearest_le_dyadic; [exact Hapos | lia | exact Hs |].
      rewrite Ha, <- Hb. exact Hq. }
    unfold round64.
    destruct ((Z.pos (Qden (Qred q)) =? 1)%Z
              && (Z.abs (Qnum (Qred q)) <=? two53)%Z).
    + unfold num_le. apply Qle_bool_iff. rewrite Hr. exact Hq.
    + rewrite round_nearest_eq.
      destruct (Qeq_bool (Qabs (Qred q)) 0) eqn:E0.
      { apply Qeq_bool_iff in E0. rewrite E0 in Hapos. discriminate. }
      destruct (Qle_bool (pow2 1024) (nearest (Qabs (Qred q)))) eqn:Eo.
      { exfalso. apply Qle_bool_iff in Eo.
        assert (bound <= inject_Z two53).
        { rewrite Hb. apply Qle_shift_div_r; [exact H2j|].
          rewrite <- inject_Z_mult, <- Zle_Qle.
          assert (0 < 2 ^ j)%Z by (apply Z.pow_pos_nonneg; lia).
          unfold two53 in *. nia. }
        pose proof two53_lt_pow2_1024 as Hlt.
        apply (Qlt_irrefl (pow2 1024)).
        eapply Qle_lt_trans; [exact Eo|].
        eapply Qle_lt_trans; [exact Hle|].
        eapply Qle_lt_trans; [eassumption | exact Hlt]. }
      assert (Es : Qle_bool 0 (Qred q) = true).
      { apply Qle_bool_iff. rewrite Hr. now apply Qlt_le_weak. }
      rewrite Es. unfold num_le, fin. apply Qle_bool_iff.
      rewrite Qred_correct. exact Hle.
  - pose proof (round64_le_int 0 q) as H0.
    assert (Hz : (Z.abs 0 <= two53)%Z) by (unfold two53; lia).
    specialize (H0 Hz Hneg).
    destruct (round64 q) as [| [|] | v]; try discriminate; [reflexivity|].
    unfold num_le, int in *. apply Qle_bool_iff in H0. apply Qle_bool_iff.
    eapply Qle_trans; [exact H0 | exact Hb0].
Qed.

End RoundFacts.

(** * The order of numbers and [clamp] *)

Module OrderFacts.

Import JS NumFacts Spec.
Local Open Scope Z_scope.

Lemma Qle_bool_false (x y : Q) : Qle_bool x y = false -> (y < x)%Q.
Proof.
  intros H. apply Qnot_le_lt. intros Hle.
  apply Qle_bool_iff in Hle. congruence.
Qed.

Lemma num_le_refl (a : num) : isNaN a = false -> num_le a a = true.
Proof.
  destruct a as [|[|]|x]; intros H; try discriminate; try reflexivity.
  apply Qle_bool_iff. apply Qle_refl.
Qed.

Lemma num_le_trans (a b c : num) :
  num_le a b = true -> num_le b c = true -> num_le a c = true.
Proof.
  destruct a as [|[|]|x], b as [|[|]|y], c as [|[|]|z];
    simpl; intros H1 H2; try discriminate; try reflexivity.
  apply Qle_bool_iff. apply Qle_bool_iff in H1. apply Qle_bool_iff in H2.
  eapply Qle_trans; eassumption.
Qed.

Lemma num_le_total (a b : num) :
  isNaN a = false -> isNaN b = false ->
  num_le a b = false -> num_le b a = true.
Proof.
  destruct a as [|[|]|x], b as [|[|]|y];
    simpl; intros Ha Hb H; try discriminate; try reflexivity.
  apply Qle_bool_iff. apply Qlt_le_weak. apply Qle_bool_false. exact H.
Qed.

Lemma num_le_not_NaN (a b : num) :
  num_le a b = true -> isNaN a = false /\ isNaN b = false.
Proof. destruct a as [|[|]|x], b as [|[|]|y]; simpl; intros H; try discriminate; split; reflexivity. Qed.

Lemma num_min_spec (a b : num) :
  isNaN a = false -> isNaN b = false ->
  num_min a b = if num_le a b then a else b.
Proof. destruct a as [|[|]|x], b as [|[|]|y]; simpl; intros Ha Hb; try discriminate; reflexivity. Qed.

Lemma num_max_spec (a b : num) :
  isNaN a = false -> isNaN b = false ->
  num_max a b = if num_le a b then b else a.
Proof. destruct a as [|[|]|x], b as [|[|]|y]; simpl; intros Ha Hb; try discriminate; reflexivity. Qed.

Lemma num_lt_le (a b : num) : num_lt a b = true -> num_le a b = true.
Proof.
  destruct a as [|[|]|x], b as [|[|]|y]; simpl; intros H; try discriminate; try reflexivity.
  apply negb_true_iff in H. apply Qle_bool_iff. apply Qlt_le_weak.
  apply Qle_bool_false. exact H.
Qed.

Lemma num_lt_not_le (a b : num) : num_lt a b = true -> num_le b a = false.
Proof.
  destruct a as [|[|]|x], b as [|[|]|y]; simpl; intros H; try discriminate; try reflexivity.
  apply negb_true_iff in H. exact H.
Qed.

Lemma clamp_between (v lo hi : num) :
  isNaN v = false -> num_le lo hi = true ->
  num_le lo (App.clamp v lo hi) = true
  /\ num_le (App.clamp v lo hi) hi = true.
Proof.
  intros Hv Hlh.
  destruct (num_le_not_NaN _ _ Hlh) as [Hlo Hhi].
  unfold App.clamp.
  rewrite (num_min_spec hi v Hhi Hv).
  destruct (num_le hi v) eqn:E1.
  - rewrite (num_max_spec lo hi Hlo Hhi), Hlh.
    split; [exact Hlh | apply num_le_refl; exact Hhi].
  - rewrite (num_max_spec lo v Hlo Hv).
    destruct (num_le lo v) eqn:E2.
    + split; [exact E2 | apply num_le_total; assumption].
    + split; [apply num_le_refl; exact Hlo | exact Hlh].
Qed.

Lemma clamp_inside (v lo hi : num) :
  num_le lo v = true -> num_lt v hi = true -> App.clamp v lo hi = v.
Proof.
  intros Hlv Hvh.
  destruct (num_le_not_NaN _ _ Hlv) as [Hlo Hv].
  pose proof (num_lt_not_le _ _ Hvh) as Hn.
  destruct (num_le_not_NaN _ _ (num_lt_le _ _ Hvh)) as [_ Hhi].
  unfold App.clamp.
  rewrite (num_min_spec hi v Hhi Hv), Hn.
  rewrite (num_max_spec lo v Hlo Hv), Hlv. reflexivity.
Qed.

Lemma clamp_inverted (v lo hi : num) :
  isNaN v = false -> num_lt hi lo = true -> App.clamp v lo hi = lo.
Proof.
  intros Hv Hlt.
  pose proof (num_lt_not_le _ _ Hlt) as Hn.
  destruct (num_le_not_NaN _ _ (num_lt_le _ _ Hlt)) as [Hhi Hlo].
  unfold App.clamp.
  rewrite (num_min_spec hi v Hhi Hv).
  assert (Hm : num_le (if num_le hi v then hi else v) hi = true).
  { destruct (num_le hi v) eqn:E; [apply num_le_refl; exact Hhi|].
    apply num_le_total; assumption. }
  assert (Hmn : isNaN (if num_le hi v then hi else v) = false).
  { destruct (num_le hi v); assumption. }
  rewrite (num_max_spec lo _ Hlo Hmn).
  destruct (num_le lo (if num_le hi v then hi else v)) eqn:E; [|reflexivity].
  rewrite (num_le_trans _ _ _ E Hm) in Hn. discriminate.
Qed.

End OrderFacts.

(** * Colour arithmetic of [src/src/App.jsx] *)

Module ShadeFacts.

Import JS Decide NumFacts Spec HexFacts CodecFacts ColorFacts RoundFacts OrderFacts.
Local Open Scope Z_scope.

(** *** Bit operators on small integers *)

Lemma toUint32_int (n : Z) : toUint32 (int n) = n mod two32.
Proof.
  unfold toUint32, int, Qtrunc, inject_Z. cbn [Qnum Qden].
  rewrite Z.quot_1_r. reflexivity.
Qed.

Lemma toInt32_small (n : Z) : 0 <= n < two31 -> toInt32 (int n) = n.
Proof.
  intros H. unfold toInt32. rewrite toUint32_int.
  rewrite Z.mod_small by (unfold two31, two32 in *; lia).
  destruct (Z.leb_spec two31 n); [lia | reflexivity].
Qed.

Lemma land_255 (z : Z) : Z.land z 255 = z mod 256.
Proof. change 255 with (Z.ones 8). rewrite Z.land_ones by lia. reflexivity. Qed.

Lemma num_and_255 (a : num) :
  num_and a (int 255) = int (toInt32 a mod 256).
Proof.
  unfold num_and. rewrite (toInt32_small 255) by (unfold two31; lia).
  rewrite land_255. reflexivity.
Qed.

Lemma num_shr_small (n k : Z) :
  0 <= n < two31 -> 0 <= k < 32 ->
  num_shr (int n) (int k) = int (n / 2 ^ k).
Proof.
  intros Hn Hk. unfold num_shr.
  rewrite (toInt32_small n Hn), toUint32_int.
  rewrite (Z.mod_small k two32) by (unfold two32; lia).
  rewrite (Z.mod_small k 32) by lia.
  rewrite Z.shiftr_div_pow2 by lia. reflexivity.
Qed.

(** The three channels of a number below 2^31. *)
Lemma channels_of_int (n : Z) :
  0 <= n < two31 ->
  App.Rgb (num_and (num_shr (int n) (int 16)) (int 255))
          (num_and (num_shr (int n) (int 8)) (int 255))
          (num_and (int n) (int 255))
  = rgbOf (n / 65536 mod 256) (n / 256 mod 256) (n mod 256).
Proof.
  intros Hn. unfold rgbOf.
  rewrite !num_shr_small by (unfold two31 in *; lia).
  rewrite !num_and_255.
  change (2 ^ 16) with 65536. change (2 ^ 8) with 256.
  assert (0 <= n / 65536 < two31).
  { unfold two31 in *. split; [apply Z.div_pos; lia|].
    apply Z.div_lt_upper_bound; lia. }
  assert (0 <= n / 256 < two31).
  { unfold two31 in *. split; [apply Z.div_pos; lia|].
    apply Z.div_lt_upper_bound; lia. }
  rewrite !toInt32_small by assumption. reflexivity.
Qed.

(** Every channel that [hexToRgb] returns is a byte. *)
Lemma channel_byte (a : num) :
  exists c, num_and a (int 255) = int c /\ 0 <= c <= 255.
Proof.
  rewrite num_and_255. eexists. split; [reflexivity|].
  pose proof (Z.mod_pos_bound (toInt32 a) 256 ltac:(lia)). lia.
Qed.

Lemma hexToRgb_bytes (hex : value) :
  exists r g b, App.hexToRgb hex = rgbOf r g b
                /\ 0 <= r <= 255 /\ 0 <= g <= 255 /\ 0 <= b <= 255.
Proof.
  unfold App.hexToRgb.
  destruct (isNaN _).
  - exists 255, 255, 255. repeat split; lia.
  - destruct (channel_byte (num_shr (parseInt16
        (if (length (trim (removeFirst 35 (toString (or_else hex (VStr [])))))
             =? 3)%nat
         then doubleEach (trim (removeFirst 35 (toString (or_else hex (VStr [])))))
         else trim (removeFirst 35 (toString (or_else hex (VStr [])))))) (int 16)))
      as (r & Er & Hr).
    destruct (channel_byte (num_shr (parseInt16
        (if (length (trim (removeFirst 35 (toString (or_else hex (VStr [])))))
             =? 3)%nat
         then doubleEach (trim (removeFirst 35 (toString (or_else hex (VStr [])))))
         else trim (removeFirst 35 (toString (or_else hex (VStr [])))))) (int 8)))
      as (g & Eg & Hg).
    destruct (channel_byte (parseInt16
        (if (length (trim (removeFirst 35 (toString (or_else hex (VStr [])))))
             =? 3)%nat
         then doubleEach (trim (removeFirst 35 (toString (or_else hex (VStr [])))))
         else trim (removeFirst 35 (toString (or_else hex (VStr [])))))))
      as (b & Eb & Hb).
    exists r, g, b. cbv zeta. rewrite Er, Eg, Eb. repeat split; lia.
Qed.

Lemma rgbOf_inj (r g b r' g' b' : Z) :
  rgbOf r g b = rgbOf r' g' b' -> r = r' /\ g = g' /\ b = b'.
Proof.
  unfold rgbOf. intros H. injection H as H1 H2 H3.
  repeat split; apply int_inj; unfold int; congruence.
Qed.

(** *** Hexadecimal digits *)

Lemma hex_digit_range (c : Z) :
  is_hex_digit c = true ->
  48 <= c <= 57 \/ 65 <= c <= 70 \/ 97 <= c <= 102.
Proof.
  unfold is_hex_digit, is_digit. intros H.
  repeat (apply orb_true_iff in H; destruct H as [H|H]);
    apply andb_true_iff in H; destruct H as [H1 H2];
    apply Z.leb_le in H1; apply Z.leb_le in H2; lia.
Qed.

Lemma hex_val_range (c : Z) : is_hex_digit c = true -> 0 <= hex_val c <= 15.
Proof.
  intros H. pose proof (hex_digit_range c H) as R.
  unfold hex_val, is_digit.
  destruct (Z.leb_spec 48 c); destruct (Z.leb_spec c 57); cbn [andb];
    try lia; destruct (Z.leb_spec 97 c); lia.
Qed.

Lemma radix16_fold (l : jsstring) (acc : Z) :
  fold_left (fun a c => a * 16 + hex_val c) l acc
  = acc * 16 ^ Z.of_nat (length l) + radix_val 16 l.
Proof.
  unfold radix_val. revert acc.
  induction l as [|c r IH]; intros acc.
  - simpl. lia.
  - cbn [fold_left length]. rewrite IH, (IH (0 * 16 + hex_val c)).
    rewrite Nat2Z.inj_succ, Z.pow_succ_r by lia. ring.
Qed.

Lemma radix16_bound (l : jsstring) :
  forallb is_hex_digit l = true ->
  0 <= radix_val 16 l < 16 ^ Z.of_nat (length l).
Proof.
  induction l as [|c r IH]; intros H.
  - cbn. lia.
  - cbn [forallb] in H. apply andb_true_iff in H. destruct H as [Hc Hr].
    specialize (IH Hr). pose proof (hex_val_range c Hc).
    unfold radix_val in *. cbn [fold_left length].
    rewrite radix16_fold. unfold radix_val.
    rewrite Nat2Z.inj_succ, Z.pow_succ_r by lia.
    assert (0 < 16 ^ Z.of_nat (length r)) by (apply Z.pow_pos_nonneg; lia).
    nia.
Qed.

(** [parseInt(s, 16)] on a text that is hexadecimal digits only. *)
Lemma parseInt16_hex (ds : jsstring) :
  ds <> [] -> forallb is_hex_digit ds = true ->
  radix_val 16 ds <= two53 ->
  parseInt16 ds = int (radix_val 16 ds).
Proof.
  intros Hne Hall Hb.
  pose proof (radix16_bound ds Hall) as [H0 _].
  unfold parseInt16.
  destruct ds as [|c r]; [congruence|].
  pose proof Hall as Hall'.
  cbn [forallb] in Hall'. apply andb_true_iff in Hall'. destruct Hall' as [Hc Hr].
  pose proof (hex_digit_range c Hc) as Rc.
  cbn [dropWhile]. rewrite (hex_digit_not_ws c Hc).
  destruct (Z.eqb_spec c 45); [lia|]. destruct (Z.eqb_spec c 43); [lia|].
  assert (Hv : match c :: r with
               | 48 :: x :: r0 => if (x =? 120) || (x =? 88) then r0 else c :: r
               | _ => c :: r
               end = c :: r).
  { destruct c as [|p|p]; try reflexivity.
    destruct r as [|x r0]; [destruct p as [p|p|]; try reflexivity;
                            repeat (destruct p as [p|p|]; try reflexivity)|].
    cbn [forallb] in Hr. apply andb_true_iff in Hr. destruct Hr as [Hx _].
    pose proof (hex_digit_range x Hx) as Rx.
    destruct (Z.eqb_spec x 120); [lia|]. destruct (Z.eqb_spec x 88); [lia|].
    cbn [orb].
    repeat (destruct p as [p|p|]; try reflexivity). }
  rewrite Hv. rewrite (span_all is_hex_digit (c :: r) Hall). cbn [fst].
  apply round64_int; [reflexivity | lia].
Qed.

(** *** [hexToRgb] on a hex colour *)

Lemma removeFirst_prefix (pre t : jsstring) :
  forallb is_ws pre = true -> removeFirst 35 (pre ++ 35 :: t) = pre ++ t.
Proof.
  induction pre as [|c r IH]; intros H.
  - reflexivity.
  - cbn [forallb] in H. apply andb_true_iff in H. destruct H as [Hc Hr].
    cbn [app removeFirst]. destruct (Z.eqb_spec c 35) as [E|E].
    + subst c. discriminate Hc.
    + rewrite (IH Hr). reflexivity.
Qed.

Lemma hex_not_terminator (c : Z) :
  is_hex_digit c = true -> is_line_terminator c = false.
Proof.
  intros H. pose proof (hex_digit_range c H) as R. unfold is_line_terminator.
  destruct (Z.eqb_spec c 10); [lia|]. destruct (Z.eqb_spec c 13); [lia|].
  destruct (Z.eqb_spec c 8232); [lia|]. destruct (Z.eqb_spec c 8233); [lia|].
  reflexivity.
Qed.

Lemma hex_digits_not_ws (ds : jsstring) :
  forallb is_hex_digit ds = true -> Forall (fun c => is_ws c = false) ds.
Proof.
  intros H. apply Forall_forall. intros c Hc.
  rewrite forallb_forall in H. apply hex_digit_not_ws. apply H. exact Hc.
Qed.

(** Six hexadecimal digits, read by [parseInt] and cut by the shifts. *)
Lemma six_digits (a1 a2 b1 b2 c1 c2 : Z) :
  forallb is_hex_digit [a1; a2; b1; b2; c1; c2] = true ->
  let bigint := parseInt16 [a1; a2; b1; b2; c1; c2] in
  isNaN bigint = false
  /\ App.Rgb (num_and (num_shr bigint (int 16)) (int 255))
             (num_and (num_shr bigint (int 8)) (int 255))
             (num_and bigint (int 255))
     = rgbOf (pairVal a1 a2) (pairVal b1 b2) (pairVal c1 c2).
Proof.
  intros H. cbv zeta.
  pose proof (radix16_bound _ H) as B. cbn [length] in B.
  change (16 ^ Z.of_nat 6) with 16777216 in B.
  rewrite parseInt16_hex; [|discriminate|exact H|unfold two53; lia].
  split; [reflexivity|].
  rewrite channels_of_int by (unfold two31; lia).
  cbn [forallb] in H.
  repeat (apply andb_true_iff in H; destruct H as [? H]).
  repeat match goal with
         | Hd : is_hex_digit ?c = true |- _ =>
             pose proof (hex_val_range c Hd); clear Hd
         end.
  unfold radix_val, pairVal. cbn [fold_left].
  unfold rgbOf. f_equal; f_equal; Z.div_mod_to_equations; lia.
Qed.

Lemma hexToRgb_valid (s : jsstring) :
  App.isValidHex (VStr s) = true ->
  exists ds r g b,
    trim s = 35 :: ds /\ hexChannels ds = Some (r, g, b)
    /\ App.hexToRgb (VStr s) = rgbOf r g b.
Proof.
  intros H. apply isValidHex_iff in H.
  destruct H as (s' & pre & ds & post & Ev & Es & Hpre & Hpost & Hds & Hlen).
  injection Ev as <-.
  pose proof (hex_digits_not_ws ds Hds) as Hnw.
  assert (Et : trim s = 35 :: ds).
  { rewrite Es. apply trim_exact; try assumption.
    constructor; [reflexivity | exact Hnw]. }
  assert (Eh : trim (removeFirst 35 (toString (or_else (VStr s) (VStr [])))) = ds).
  { assert (Ene : or_else (VStr s) (VStr []) = VStr s).
    { unfold or_else. cbn [truthy]. rewrite Es.
      destruct pre; reflexivity. }
    rewrite Ene. cbn [toString]. rewrite Es.
    cbn [app]. rewrite (removeFirst_prefix pre (ds ++ post) Hpre).
    apply trim_exact; assumption. }
  exists ds. unfold App.hexToRgb. rewrite Eh.
  destruct Hlen as [L | L].
  - destruct ds as [|a [|b [|c [|d r]]]]; try discriminate L.
    cbn [length Nat.eqb].
    pose proof Hds as Hds'. cbn [forallb] in Hds'.
    apply andb_true_iff in Hds'; destruct Hds' as [Ha Hds'].
    apply andb_true_iff in Hds'; destruct Hds' as [Hb Hds'].
    apply andb_true_iff in Hds'; destruct Hds' as [Hc _].
    assert (Ed : doubleEach [a; b; c] = [a; a; b; b; c; c]).
    { unfold doubleEach. cbn [flat_map app].
      rewrite !hex_not_terminator by assumption. reflexivity. }
    rewrite Ed.
    assert (H6 : forallb is_hex_digit [a; a; b; b; c; c] = true).
    { cbn [forallb]. rewrite Ha, Hb, Hc. reflexivity. }
    destruct (six_digits a a b b c c H6) as [N E].
    cbv zeta in *. rewrite N, E.
    exists (pairVal a a), (pairVal b b), (pairVal c c).
    split; [exact Et|]. split; reflexivity.
  - destruct ds as [|a1 [|a2 [|b1 [|b2 [|c1 [|c2 [|d r]]]]]]];
      try discriminate L.
    cbn [length Nat.eqb].
    destruct (six_digits a1 a2 b1 b2 c1 c2 Hds) as [N E].
    cbv zeta in *. rewrite N, E.
    exists (pairVal a1 a2), (pairVal b1 b2), (pairVal c1 c2).
    split; [exact Et|]. split; reflexivity.
Qed.

(** A value that counts as false is read as white. *)
Lemma hexToRgb_falsy (hex : value) :
  truthy hex = false -> App.hexToRgb hex = App.white.
Proof.
  intros H. unfold App.hexToRgb, or_else. rewrite H. reflexivity.
Qed.

(** *** [toHex] and [rgbToHex] *)

Lemma toHex_all : all_below 256 toHex_ok = true.
Proof. vm_compute. reflexivity. Qed.

Lemma round_int (c : Z) : round (int c) = int c.
Proof.
  unfold round, int. f_equal. f_equal.
  unfold Qfloor, Qplus, inject_Z. cbn [Qnum Qden].
  change (Z.pos (1 * 2)) with 2.
  Z.div_mod_to_equations. lia.
Qed.

Lemma byteOf_int (c : Z) : byteOf (int c) = int (Z.max 0 (Z.min 255 c)).
Proof. unfold byteOf. rewrite round_int. apply clamp_int. Qed.

Lemma byteOf_byte (v : num) :
  isNaN v = false -> exists c, byteOf v = int c /\ 0 <= c <= 255.
Proof.
  destruct v as [|[|]|q]; intros H; try discriminate.
  - exists 0. split; [reflexivity | lia].
  - exists 255. split; [reflexivity | lia].
  - unfold byteOf, round. rewrite clamp_int.
    eexists. split; [reflexivity | lia].
Qed.

Lemma toHex_byteOf (v : num) (c : Z) :
  byteOf v = int c -> 0 <= c <= 255 ->
  exists d1 d2, App.toHex v = [d1; d2]
                /\ is_hex_digit d1 = true /\ is_hex_digit d2 = true
                /\ pairVal d1 d2 = c.
Proof.
  intros E Hc.
  assert (Ev : App.toHex v = App.toHex (int c)).
  { unfold App.toHex. fold (byteOf v). fold (byteOf (int c)).
    rewrite E, byteOf_int. f_equal. f_equal. f_equal. lia. }
  pose proof (all_below_spec _ _ toHex_all c ltac:(lia)) as T.
  unfold toHex_ok in T. rewrite Ev.
  destruct (App.toHex (int c)) as [|d1 [|d2 [|d3 r]]]; try discriminate T.
  apply andb_true_iff in T. destruct T as [T T3].
  apply andb_true_iff in T. destruct T as [T1 T2].
  apply Z.eqb_eq in T3. exists d1, d2. repeat split; assumption.
Qed.

Lemma toHex_NaN : App.toHex NaN = lit "NaN".
Proof. reflexivity. Qed.

(** [rgbToHex] on numbers: a hex colour, whose channels read back are
    the arguments rounded and clamped. *)
Lemma rgbToHex_decode (r g b : num) :
  isNaN r = false -> isNaN g = false -> isNaN b = false ->
  App.isValidHex (VStr (App.rgbToHex r g b)) = true
  /\ trim (App.rgbToHex r g b) = App.rgbToHex r g b
  /\ length (App.rgbToHex r g b) = 7%nat
  /\ App.hexToRgb (VStr (App.rgbToHex r g b))
     = App.Rgb (byteOf r) (byteOf g) (byteOf b).
Proof.
  intros Hr Hg Hb.
  destruct (byteOf_byte r Hr) as (cr & Er & Rr).
  destruct (byteOf_byte g Hg) as (cg & Eg & Rg).
  destruct (byteOf_byte b Hb) as (cb & Eb & Rb).
  destruct (toHex_byteOf r cr Er Rr) as (a1 & a2 & Ta & Ha1 & Ha2 & Pa).
  destruct (toHex_byteOf g cg Eg Rg) as (b1 & b2 & Tb & Hb1 & Hb2 & Pb).
  destruct (toHex_byteOf b cb Eb Rb) as (c1 & c2 & Tc & Hc1 & Hc2 & Pc).
  unfold App.rgbToHex. rewrite Ta, Tb, Tc. cbn [app].
  assert (Hds : forallb is_hex_digit [a1; a2; b1; b2; c1; c2] = true).
  { cbn [forallb]. rewrite Ha1, Ha2, Hb1, Hb2, Hc1, Hc2. reflexivity. }
  assert (Et : trim (35 :: [a1; a2; b1; b2; c1; c2])
               = 35 :: [a1; a2; b1; b2; c1; c2]).
  { apply (trim_exact [] (35 :: [a1; a2; b1; b2; c1; c2]) []);
      try reflexivity.
    constructor; [reflexivity | apply hex_digits_not_ws, Hds]. }
  assert (Hv : App.isValidHex (VStr (35 :: [a1; a2; b1; b2; c1; c2])) = true).
  { cbn [App.isValidHex]. rewrite Et. unfold App.hexPattern.
    rewrite Hds. reflexivity. }
  split; [exact Hv|]. split; [exact Et|]. split; [reflexivity|].
  destruct (hexToRgb_valid _ Hv) as (ds & x & y & z & Et' & Ec & Eh).
  rewrite Et in Et'. injection Et' as <-.
  cbn [hexChannels] in Ec. injection Ec as <- <- <-.
  rewrite Eh, Er, Eg, Eb, Pa, Pb, Pc. reflexivity.
Qed.

(** *** Arithmetic that keeps a bound *)

Lemma isNaN_round64 (q : Q) : isNaN (round64 q) = false.
Proof.
  pose proof (round64_not_NaN q) as H.
  destruct (round64 q); [congruence | reflexivity | reflexivity].
Qed.

Lemma Qneg_bool_pos (c : Z) : 0 < c -> Qneg_bool (inject_Z c) = false.
Proof.
  intros H. unfold Qneg_bool. apply negb_false_iff. apply Qle_bool_iff.
  change 0%Q with (inject_Z 0). rewrite <- Zle_Qle. lia.
Qed.

Lemma inject_Z_pos (c : Z) : 0 < c -> (0 < inject_Z c)%Q.
Proof. intros H. change 0%Q with (inject_Z 0). rewrite <- Zlt_Qlt. exact H. Qed.

Lemma num_div_not_NaN (a : num) (c : Z) :
  isNaN a = false -> 0 < c -> isNaN (num_div a (int c)) = false.
Proof.
  intros Ha Hc. destruct a as [|s|q]; [discriminate|reflexivity|].
  unfold num_div, int. rewrite (Qeq_bool_int_0 c) by lia.
  apply isNaN_round64.
Qed.

Lemma num_mul_not_NaN (a : num) (c : Z) :
  isNaN a = false -> 0 < c -> isNaN (num_mul a (int c)) = false.
Proof.
  intros Ha Hc. destruct a as [|s|q]; [discriminate| |].
  - unfold num_mul, int. rewrite (Qeq_bool_int_0 c) by lia. reflexivity.
  - apply isNaN_round64.
Qed.

Lemma num_add_not_NaN (c : Z) (a : num) :
  isNaN a = false -> isNaN (num_add (int c) a) = false.
Proof.
  intros Ha. destruct a as [|s|q]; [discriminate|reflexivity|].
  apply isNaN_round64.
Qed.

Lemma num_div_ge (k c : Z) (a : num) :
  0 < c -> Z.abs k <= two53 ->
  num_le (int (k * c)) a = true -> num_le (int k) (num_div a (int c)) = true.
Proof.
  intros Hc Hk H. destruct a as [|[|]|q]; try discriminate H.
  - unfold num_div, int. rewrite (Qneg_bool_pos c Hc). reflexivity.
  - unfold num_div, int. rewrite (Qeq_bool_int_0 c) by lia.
    apply round64_ge_int; [exact Hk|].
    unfold num_le, int in H. apply Qle_bool_iff in H.
    apply Qle_shift_div_l; [apply inject_Z_pos, Hc|].
    rewrite <- inject_Z_mult. exact H.
Qed.

Lemma num_div_le (k c : Z) (a : num) :
  0 < c -> Z.abs k <= two53 ->
  num_le a (int (k * c)) = true -> num_le (num_div a (int c)) (int k) = true.
Proof.
  intros Hc Hk H. destruct a as [|[|]|q]; try discriminate H.
  - unfold num_div, int. rewrite (Qneg_bool_pos c Hc). reflexivity.
  - unfold num_div, int. rewrite (Qeq_bool_int_0 c) by lia.
    apply round64_le_int; [exact Hk|].
    unfold num_le, int in H. apply Qle_bool_iff in H.
    apply Qle_shift_div_r; [apply inject_Z_pos, Hc|].
    rewrite <- inject_Z_mult. exact H.
Qed.

Lemma num_mul_ge (k c : Z) (a : num) :
  0 < c -> Z.abs (k * c) <= two53 ->
  num_le (int k) a = true -> num_le (int (k * c)) (num_mul a (int c)) = true.
Proof.
  intros Hc Hk H. destruct a as [|[|]|q]; try discriminate H.
  - unfold num_mul, int. rewrite (Qeq_bool_int_0 c) by lia.
    rewrite (Qneg_bool_pos c Hc). reflexivity.
  - unfold num_mul, int. apply round64_ge_int; [exact Hk|].
    unfold num_le, int in H. apply Qle_bool_iff in H.
    rewrite inject_Z_mult. apply Qmult_le_compat_r; [exact H|].
    apply Qlt_le_weak, inject_Z_pos, Hc.
Qed.

Lemma num_mul_le (k c : Z) (a : num) :
  0 < c -> Z.abs (k * c) <= two53 ->
  num_le a (int k) = true -> num_le (num_mul a (int c)) (int (k * c)) = true.
Proof.
  intros Hc Hk H. destruct a as [|[|]|q]; try discriminate H.
  - unfold num_mul, int. rewrite (Qeq_bool_int_0 c) by lia.
    rewrite (Qneg_bool_pos c Hc). reflexivity.
  - unfold num_mul, int. apply round64_le_int; [exact Hk|].
    unfold num_le, int in H. apply Qle_bool_iff in H.
    rewrite inject_Z_mult. apply Qmult_le_compat_r; [exact H|].
    apply Qlt_le_weak, inject_Z_pos, Hc.
Qed.

Lemma num_add_ge (c k : Z) (a : num) :
  Z.abs (c + k) <= two53 ->
  num_le (int k) a = true -> num_le (int (c + k)) (num_add (int c) a) = true.
Proof.
  intros Hk H. destruct a as [|[|]|q]; try discriminate H.
  - reflexivity.
  - unfold num_add, int. apply round64_ge_int; [exact Hk|].
    unfold num_le, int in H. apply Qle_bool_iff in H.
    rewrite inject_Z_plus. apply Qplus_le_r. exact H.
Qed.

Lemma num_add_le (c k : Z) (a : num) :
  Z.abs (c + k) <= two53 ->
  num_le a (int k) = true -> num_le (num_add (int c) a) (int (c + k)) = true.
Proof.
  intros Hk H. destruct a as [|[|]|q]; try discriminate H.
  - reflexivity.
  - unfold num_add, int. apply round64_le_int; [exact Hk|].
    unfold num_le, int in H. apply Qle_bool_iff in H.
    rewrite inject_Z_plus. apply Qplus_le_r. exact H.
Qed.

(** [Math.round] then [clamp] to a byte, from a bound on the argument. *)
Lemma byteOf_ge (k : Z) (x : num) :
  num_le (int k) x = true ->
  exists c, byteOf x = int c /\ Z.max 0 (Z.min 255 k) <= c <= 255.
Proof.
  intros H. destruct x as [|[|]|q]; try discriminate H.
  - exists 255. split; [reflexivity | lia].
  - unfold byteOf, round. rewrite clamp_int. eexists. split; [reflexivity|].
    unfold num_le, int in H. apply Qle_bool_iff in H.
    assert (k <= Qfloor (q + (1 # 2)))%Z.
    { rewrite <- (Qfloor_Z k). apply Qfloor_resp_le.
      eapply Qle_trans; [exact H|].
      rewrite <- (Qplus_0_r q) at 1. apply Qplus_le_r. discriminate. }
    lia.
Qed.

Lemma byteOf_le (k : Z) (x : num) :
  num_le x (int k) = true ->
  exists c, byteOf x = int c /\ 0 <= c <= Z.max 0 (Z.min 255 k).
Proof.
  intros H. destruct x as [|[|]|q]; try discriminate H.
  - exists 0. split; [reflexivity | lia].
  - unfold byteOf, round. rewrite clamp_int. eexists. split; [reflexivity|].
    unfold num_le, int in H. apply Qle_bool_iff in H.
    assert (Qfloor (q + (1 # 2)) <= k)%Z.
    { assert (E : Qfloor (inject_Z k + (1 # 2)) = k).
      { unfold Qfloor, Qplus, inject_Z. cbn [Qnum Qden].
        change (Z.pos (1 * 2)) with 2. Z.div_mod_to_equations. lia. }
      rewrite <- E. apply Qfloor_resp_le. apply Qplus_le_l. exact H. }
    lia.
Qed.

(** *** [shade] *)

Lemma shadeChannel_byteOf (amt v : num) :
  App.shadeChannel amt v
  = byteOf (num_add v (num_mul (num_div amt (int 100)) (int 255))).
Proof. reflexivity. Qed.

Lemma shadeChannel_byte (amt : num) (c : Z) :
  isNaN amt = false ->
  exists c', App.shadeChannel amt (int c) = int c' /\ 0 <= c' <= 255.
Proof.
  intros H. rewrite shadeChannel_byteOf. apply byteOf_byte.
  apply num_add_not_NaN, num_mul_not_NaN; [|lia].
  apply num_div_not_NaN; [exact H | lia].
Qed.

Lemma shadeChannel_up (amt : num) (c : Z) :
  num_le (int 0) amt = true -> 0 <= c <= 255 ->
  exists c', App.shadeChannel amt (int c) = int c' /\ c <= c' <= 255.
Proof.
  intros H Hc. rewrite shadeChannel_byteOf.
  pose proof (num_div_ge 0 100 amt ltac:(lia) ltac:(unfold two53; lia) H) as H1.
  pose proof (num_mul_ge 0 255 _ ltac:(lia) ltac:(unfold two53; lia) H1) as H2.
  pose proof (num_add_ge c (0 * 255) _ ltac:(unfold two53; lia) H2) as H3.
  destruct (byteOf_ge _ _ H3) as (c' & E & R).
  exists c'. split; [exact E | lia].
Qed.

Lemma shadeChannel_down (amt : num) (c : Z) :
  num_le amt (int 0) = true -> 0 <= c <= 255 ->
  exists c', App.shadeChannel amt (int c) = int c' /\ 0 <= c' <= c.
Proof.
  intros H Hc. rewrite shadeChannel_byteOf.
  pose proof (num_div_le 0 100 amt ltac:(lia) ltac:(unfold two53; lia) H) as H1.
  pose proof (num_mul_le 0 255 _ ltac:(lia) ltac:(unfold two53; lia) H1) as H2.
  pose proof (num_add_le c (0 * 255) _ ltac:(unfold two53; lia) H2) as H3.
  destruct (byteOf_le _ _ H3) as (c' & E & R).
  exists c'. split; [exact E | lia].
Qed.

Lemma shadeChannel_full_up (amt : num) (c : Z) :
  num_le (int 100) amt = true -> 0 <= c <= 255 ->
  App.shadeChannel amt (int c) = int 255.
Proof.
  intros H Hc. rewrite shadeChannel_byteOf.
  pose proof (num_div_ge 1 100 amt ltac:(lia) ltac:(unfold two53; lia) H) as H1.
  pose proof (num_mul_ge 1 255 _ ltac:(lia) ltac:(unfold two53; lia) H1) as H2.
  pose proof (num_add_ge c (1 * 255) _ ltac:(unfold two53; lia) H2) as H3.
  destruct (byteOf_ge _ _ H3) as (c' & E & R).
  rewrite E. f_equal. lia.
Qed.

Lemma shadeChannel_full_down (amt : num) (c : Z) :
  num_le amt (int (-100)) = true -> 0 <= c <= 255 ->
  App.shadeChannel amt (int c) = int 0.
Proof.
  intros H Hc. rewrite shadeChannel_byteOf.
  pose proof (num_div_le (-1) 100 amt ltac:(lia) ltac:(unfold two53; lia) H)
    as H1.
  pose proof (num_mul_le (-1) 255 _ ltac:(lia) ltac:(unfold two53; lia) H1)
    as H2.
  pose proof (num_add_le c (-1 * 255) _ ltac:(unfold two53; lia) H2) as H3.
  destruct (byteOf_le _ _ H3) as (c' & E & R).
  rewrite E. f_equal. lia.
Qed.

Lemma shadeChannel_zero (c : Z) :
  0 <= c <= 255 -> App.shadeChannel (int 0) (int c) = int c.
Proof.
  intros Hc.
  destruct (shadeChannel_up (int 0) c eq_refl Hc) as (c1 & E1 & R1).
  destruct (shadeChannel_down (int 0) c eq_refl Hc) as (c2 & E2 & R2).
  rewrite E1 in E2. apply int_inj in E2. rewrite E1. f_equal. lia.
Qed.

(** [shade] prints the shifted channels: the result is a hex colour that
    reads back as them. *)
Lemma shade_decode (hex : value) (amt : num) :
  isNaN amt = false ->
  App.isValidHex (VStr (App.shade hex amt)) = true
  /\ App.hexToRgb (VStr (App.shade hex amt))
     = App.Rgb (App.shadeChannel amt (App.r (App.hexToRgb hex)))
               (App.shadeChannel amt (App.g (App.hexToRgb hex)))
               (App.shadeChannel amt (App.b (App.hexToRgb hex))).
Proof.
  intros H.
  destruct (hexToRgb_bytes hex) as (r & g & b & E & Hr & Hg & Hb).
  unfold App.shade. rewrite E. unfold rgbOf. cbn [App.r App.g App.b].
  destruct (shadeChannel_byte amt r H) as (r' & Er & Rr).
  destruct (shadeChannel_byte amt g H) as (g' & Eg & Rg).
  destruct (shadeChannel_byte amt b H) as (b' & Eb & Rb).
  rewrite Er, Eg, Eb.
  destruct (rgbToHex_decode (int r') (int g') (int b') eq_refl eq_refl eq_refl)
    as (V & _ & _ & D).
  split; [exact V|]. rewrite D, !byteOf_int.
  f_equal; f_equal; lia.
Qed.

Lemma shade_NaN (hex : value) :
  App.shade hex NaN = lit "#NaNNaNNaN".
Proof.
  destruct (hexToRgb_bytes hex) as (r & g & b & E & _).
  unfold App.shade. rewrite E. reflexivity.
Qed.

(** *** [contrastColor] *)

(** The division by 1000 is rounded, and the rounding does not move the
    quotient across 140. *)
Lemma yiq_threshold (L : Z) :
  0 <= L <= 255000 ->
  num_ge (num_div (int L) (int 1000)) (int 140) = (140000 <=? L).
Proof.
  intros HL. unfold num_ge.
  destruct (Z.leb_spec 140000 L) as [H | H].
  - apply (num_div_ge 140 1000 (int L)); [lia | unfold two53; lia |].
    rewrite num_le_int. apply Z.leb_le. lia.
  - destruct (num_le (int 140) (num_div (int L) (int 1000))) eqn:E;
      [|reflexivity].
    exfalso.
    assert (B : num_le (num_div (int L) (int 1000)) (Fin (143359 # 1024))
                = true).
    { unfold num_div, int. rewrite (Qeq_bool_int_0 1000) by lia.
      apply (round64_le_dyadic 143359 10); [unfold two53; lia | lia | |].
      - reflexivity.
      - apply Qle_shift_div_r; [reflexivity|].
        unfold Qle, Qmult, inject_Z. cbn [Qnum Qden]. lia. }
    pose proof (num_le_trans _ _ _ E B) as C. discriminate C.
Qed.

Lemma yiq_bytes (r g b : Z) :
  0 <= r <= 255 -> 0 <= g <= 255 -> 0 <= b <= 255 ->
  App.yiq (rgbOf r g b) = num_div (int (luminance r g b)) (int 1000).
Proof.
  intros Hr Hg Hb. unfold App.yiq, rgbOf, luminance. cbn [App.r App.g App.b].
  rewrite !num_mul_int by (unfold two53; lia).
  rewrite !num_add_int by (unfold two53; lia).
  reflexivity.
Qed.

Lemma contrastColor_bytes (hex : value) (r g b : Z) :
  App.hexToRgb hex = rgbOf r g b ->
  0 <= r <= 255 -> 0 <= g <= 255 -> 0 <= b <= 255 ->
  App.contrastColor hex
  = if 140000 <=? luminance r g b then lit "#0b1020" else lit "#f8fafc".
Proof.
  intros E Hr Hg Hb. unfold App.contrastColor.
  rewrite E, (yiq_bytes r g b Hr Hg Hb), yiq_threshold; [reflexivity|].
  unfold luminance. lia.
Qed.

(** *** The palettes *)

Lemma palettes_valid :
  forall pal c, In pal App.palettes -> In c pal ->
                App.isValidHex (VStr c) = true.
Proof.
  assert (H : forallb (forallb (fun c => App.isValidHex (VStr c)))
                      App.palettes = true) by (vm_compute; reflexivity).
  intros pal c Hp Hc. rewrite forallb_forall in H.
  specialize (H pal Hp). rewrite forallb_forall in H. exact (H c Hc).
Qed.

Lemma hashColor_valid (s : value) :
  exists c, App.hashColor s = Ok (VStr c) /\ App.isValidHex (VStr c) = true.
Proof.
  destruct (hashColor_color s) as (pal & c & Hp & Hc & E).
  exists c. split; [exact E | exact (palettes_valid pal c Hp Hc)].
Qed.

End ShadeFacts.

(** * The frame of the canvas *)

Module FrameFacts.

Import JS Decide NumFacts Spec CodecFacts ColorFacts SortFacts LayoutFacts.
Import RoundFacts OrderFacts ShadeFacts.
Local Open Scope Z_scope.

(** *** The geometry of a band *)

Lemma paintTask_geometry (st : App.settings) (mn span : num) (tk : App.task)
    (idx : nat) (b : App.band) :
  App.paintTask st mn span tk idx = Ok (Some b) ->
  let W := App.canvasW st in
  App.b_x1 b = App.clamp (App.xOf mn span W (App.b_start b))
                         (int 48) (num_sub W (int 16))
  /\ App.b_x2 b = App.clamp (App.xOf mn span W (App.b_end b))
                            (int 48) (num_sub W (int 16))
  /\ App.b_width b = num_max (int 4) (num_sub (App.b_x2 b) (App.b_x1 b))
  /\ forall x, App.b_shuttle b = Some x ->
       exists nowMin,
         num_ge nowMin (App.b_start b) = true
         /\ num_le nowMin (App.b_end b) = true
         /\ x = App.clamp (App.xOf mn span W nowMin)
                          (int 48) (num_sub W (int 16)).
Proof.
  unfold App.paintTask.
  destruct (App.toMinutes (App.start tk)) as [ts|]; [|discriminate].
  destruct (App.toMinutes (App.end_ tk)) as [te|]; [|discriminate].
  cbn [rbind].
  destruct (num_le _ _) eqn:Le; [discriminate|].
  destruct (if App.isValidHex (App.color tk) then Ok (App.color tk)
            else App.hashColor (App.title tk)) as [c|]; [|discriminate].
  cbn [rbind].
  match goal with
  | |- context [App.toMinutes ?v] => destruct (App.toMinutes v) as [nw|]
  end; [|discriminate].
  cbn [rbind]. intros E. injection E as <-.
  cbn [App.b_x1 App.b_x2 App.b_width App.b_shuttle App.b_start App.b_end].
  cbv zeta. split; [reflexivity|]. split; [reflexivity|].
  split; [reflexivity|].
  intros x Hx.
  destruct (num_ge nw _ && num_le nw _) eqn:G; [|discriminate Hx].
  apply andb_true_iff in G. destruct G as [G1 G2].
  injection Hx as <-. exists nw. split; [exact G1|]. split; [exact G2|].
  reflexivity.
Qed.

Lemma clock_all : all_below 1440 clock_ok = true.
Proof. vm_compute. reflexivity. Qed.

Lemma clock_minutes (h m : Z) :
  0 <= h <= 23 -> 0 <= m <= 59 ->
  App.toMinutes (VStr (App.pad2 (int h) ++ [App.colon] ++ App.pad2 (int m)))
  = Ok (int (h * 60 + m)).
Proof.
  intros Hh Hm.
  pose proof (all_below_spec _ _ clock_all (h * 60 + m) ltac:(lia)) as R.
  unfold clock_ok in R. apply rnum_eqb_eq in R.
  replace ((h * 60 + m) / 60) with h in R
    by (Z.div_mod_to_equations; lia).
  replace ((h * 60 + m) mod 60) with m in R
    by (Z.div_mod_to_equations; lia).
  exact R.
Qed.

Lemma paintTask_shuttle (st : App.settings) (mn span : num) (tk : App.task)
    (idx : nat) (b : App.band) (nowMin : num) :
  App.paintTask st mn span tk idx = Ok (Some b) ->
  App.toMinutes (VStr (App.pad2 (int (App.nowHours st)) ++ [App.colon]
                       ++ App.pad2 (int (App.nowMinutes st)))) = Ok nowMin ->
  App.b_shuttle b
  = if num_ge nowMin (App.b_start b) && num_le nowMin (App.b_end b)
    then Some (App.clamp (App.xOf mn span (App.canvasW st) nowMin)
                         (int 48) (num_sub (App.canvasW st) (int 16)))
    else None.
Proof.
  unfold App.paintTask. intros E En. revert E.
  destruct (App.toMinutes (App.start tk)) as [ts|]; [|discriminate].
  destruct (App.toMinutes (App.end_ tk)) as [te|]; [|discriminate].
  cbn [rbind].
  destruct (num_le _ _) eqn:Le; [discriminate|].
  destruct (if App.isValidHex (App.color tk) then Ok (App.color tk)
            else App.hashColor (App.title tk)) as [c|]; [|discriminate].
  cbn [rbind]. rewrite En. cbn [rbind].
  intros E. injection E as <-. reflexivity.
Qed.

Lemma canvasW_value (st : App.settings) :
  exists W, App.canvasW st = int W /\ 320 <= W
            /\ (W <= 640 \/ W = App.clientWidth st).
Proof.
  unfold App.canvasW, App.num_or.
  destruct (truthy (VNum (int (App.clientWidth st)))).
  - rewrite floor_int, num_max_int. eexists. split; [reflexivity|]. lia.
  - rewrite floor_int, num_max_int. eexists. split; [reflexivity|]. lia.
Qed.

Lemma isNaN_clamp (v lo hi : num) :
  isNaN (App.clamp v lo hi) = false ->
  isNaN v = false /\ isNaN lo = false /\ isNaN hi = false.
Proof.
  unfold App.clamp.
  destruct v as [|[|]|x], lo as [|[|]|y], hi as [|[|]|z]; cbn;
    intros H; try discriminate H; repeat split; reflexivity.
Qed.

Lemma not_NaN_int (n : num) :
  (n = NaN \/ exists z, n = int z /\ -1380 <= z <= 1439) ->
  isNaN n = false -> exists z, n = int z /\ -1380 <= z <= 1439.
Proof. intros [->|H] Hn; [discriminate Hn | exact H]. Qed.

(** The position of a minute inside the window is a number. *)
Lemma num_sub_not_NaN (x : num) (a : Z) :
  isNaN x = false -> isNaN (num_sub x (int a)) = false.
Proof.
  intros H. unfold num_sub. rewrite num_neg_int.
  destruct x as [|s|q]; [discriminate | reflexivity | apply isNaN_round64].
Qed.

Lemma xOf_not_NaN (a d W : Z) (mins : num) :
  isNaN mins = false -> 0 < d -> 64 < W -> Z.abs (W - 64) <= two53 ->
  isNaN (App.xOf (int a) (int d) (int W) mins) = false.
Proof.
  intros Hm Hd HW Hb. unfold App.xOf.
  rewrite (num_sub_int W 64) by exact Hb.
  apply num_add_not_NaN. apply num_div_not_NaN; [|exact Hd].
  apply num_mul_not_NaN; [|lia]. apply num_sub_not_NaN. exact Hm.
Qed.

Lemma clamp_in_frame (x : num) (W : Z) :
  isNaN x = false -> 320 <= W -> Z.abs (W - 16) <= two53 ->
  num_le (int 48) (App.clamp x (int 48) (num_sub (int W) (int 16))) = true
  /\ num_le (App.clamp x (int 48) (num_sub (int W) (int 16)))
            (int (W - 16)) = true.
Proof.
  intros Hx HW Hb. rewrite num_sub_int by exact Hb.
  apply clamp_between; [exact Hx|]. rewrite num_le_int. apply Z.leb_le. lia.
Qed.

Lemma finite_between (x : num) (lo hi : Z) :
  num_le (int lo) x = true -> num_le x (int hi) = true -> exists q, x = Fin q.
Proof.
  destruct x as [|[|]|q]; intros H1 H2; try discriminate; eauto.
Qed.

(** A band lies inside the frame of the canvas. *)
Lemma band_in_frame (st : App.settings) (mn : num) (d : Z) (tk : App.task)
    (idx : nat) (b : App.band) :
  App.paintTask st mn (int d) tk idx = Ok (Some b) ->
  (mn = NaN \/ exists a, mn = int a /\ 0 <= a <= 1439) ->
  60 <= d <= 1440 ->
  App.clientWidth st <= two53 ->
  isNaN (App.b_start b) = false -> isNaN (App.b_end b) = false ->
  exists W H y,
    App.canvasW st = int W /\ App.canvasH st = int H
    /\ 320 <= W /\ 320 <= H <= 1200
    /\ num_le (int 48) (App.b_x1 b) = true
    /\ num_le (App.b_x1 b) (int (W - 16)) = true
    /\ num_le (int 48) (App.b_x2 b) = true
    /\ num_le (App.b_x2 b) (int (W - 16)) = true
    /\ num_le (int 4) (App.b_width b) = true
    /\ App.b_y b = int y /\ 64 <= y /\ y + 24 <= H - 106
    /\ forall x, App.b_shuttle b = Some x ->
         num_le (int 48) x = true /\ num_le x (int (W - 16)) = true.
Proof.
  intros E Hmn Hd Hcw Hs He.
  destruct (paintTask_band st mn (int d) tk idx b E)
    as (ts & te & Ets & Ete & Es & Ee & _ & _ & _ & Erow & Ey & _).
  destruct (paintTask_geometry st mn (int d) tk idx b E)
    as (Ex1 & Ex2 & Ew & Hsh).
  destruct (canvasW_value st) as (W & EW & HW & HW').
  destruct (canvasH_range st) as (H & EH & HH).
  assert (HWb : Z.abs (W - 16) <= two53) by (unfold two53 in *; lia).
  assert (HWc : Z.abs (W - 64) <= two53) by (unfold two53 in *; lia).
  assert (Ea : exists a, mn = int a /\ 0 <= a <= 1439).
  { destruct Hmn as [-> | Ha]; [|exact Ha].
    rewrite Es in Hs. destruct (isNaN_clamp _ _ _ Hs) as (_ & Hn & _).
    discriminate Hn. }
  destruct Ea as (a & -> & Ha).
  rewrite EW in *.
  assert (X1 : isNaN (App.xOf (int a) (int d) (int W) (App.b_start b)) = false)
    by (apply xOf_not_NaN; [exact Hs | lia | lia | exact HWc]).
  assert (X2 : isNaN (App.xOf (int a) (int d) (int W) (App.b_end b)) = false)
    by (apply xOf_not_NaN; [exact He | lia | lia | exact HWc]).
  destruct (clamp_in_frame _ W X1 HW HWb) as [L1 U1].
  destruct (clamp_in_frame _ W X2 HW HWb) as [L2 U2].
  rewrite <- Ex1 in L1, U1. rewrite <- Ex2 in L2, U2.
  destruct (maxRows_value H HH) as [ER HR].
  rewrite EH, ER in Erow.
  rewrite num_mod_int in Erow by lia.
  assert (Hrem : 0 <= Z.rem (Z.of_nat idx) (Z.max 120 (H - 160) / 34)
                 < Z.max 120 (H - 160) / 34).
  { apply Z.rem_bound_pos; lia. }
  assert (Hq : Z.max 120 (H - 160) / 34 * 34 <= Z.max 120 (H - 160)).
  { pose proof (Z.mul_div_le (Z.max 120 (H - 160)) 34 ltac:(lia)). lia. }
  rewrite Erow in Ey.
  change (num_add App.rowHeight App.gaps) with (int 34) in Ey.
  rewrite num_mul_int in Ey by (unfold two53; nia).
  rewrite num_add_int in Ey by (unfold two53; nia).
  exists W, H, (64 + Z.rem (Z.of_nat idx) (Z.max 120 (H - 160) / 34) * 34).
  split; [reflexivity|]. split; [exact EH|]. split; [exact HW|].
  split; [exact HH|].
  split; [exact L1|]. split; [exact U1|]. split; [exact L2|].
  split; [exact U2|].
  split.
  { rewrite Ew.
    destruct (finite_between _ _ _ L1 U1) as (q1 & E1).
    destruct (finite_between _ _ _ L2 U2) as (q2 & E2).
    rewrite E1, E2.
    assert (N : isNaN (num_sub (Fin q2) (Fin q1)) = false)
      by apply isNaN_round64.
    rewrite (num_max_spec (int 4) _ eq_refl N).
    destruct (num_le (int 4) (num_sub (Fin q2) (Fin q1))) eqn:G;
      [exact G | reflexivity]. }
  split; [exact Ey|]. split; [nia|]. split; [nia|].
  intros x Hx. destruct (Hsh x Hx) as (nowMin & G1 & _ & ->).
  unfold num_ge in G1.
  destruct (num_le_not_NaN _ _ G1) as [_ Hn].
  apply clamp_in_frame; [|exact HW|exact HWb].
  apply xOf_not_NaN; [exact Hn | lia | lia | exact HWc].
Qed.

(** *** The canvas as a function of the store *)

Lemma forEachFrom_bands (st : App.settings) (mn span : num) (refs : list nat) :
  forall (idx : nat) (w : App.world),
    validRefs (App.objects w) refs ->
    App.forEachFrom (App.paintBand st mn span) refs idx w
    = Ok (tt, App.World (App.objects w) (App.arrays w)
                (App.canvas w ++ bandsFrom st mn span (App.objects w) refs idx)).
Proof.
  induction refs as [|r rs IH]; intros idx w Hv.
  - cbn. rewrite app_nil_r. destruct w; reflexivity.
  - inversion Hv as [|? ? [tk Etk] Hrs]; subst.
    rewrite (forEachFrom_cons _ r rs idx w tk Etk).
    cbn [bandsFrom]. rewrite Etk.
    destruct (paintTask_total st mn span tk idx) as [ob Eob].
    rewrite Eob. destruct ob as [b|].
    + rewrite (paintBand_some st mn span tk idx b w Eob).
      rewrite (IH (S idx)) by exact Hrs.
      cbn [App.objects App.arrays App.canvas].
      rewrite <- app_assoc. reflexivity.
    + rewrite (paintBand_none st mn span tk idx w Eob).
      apply IH. exact Hrs.
Qed.

Lemma redraw_bands (st : App.settings) (tasks : nat) (w : App.world)
    (l : list nat) :
  nth_error (App.arrays w) tasks = Some l ->
  validRefs (App.objects w) l ->
  exists mn d l',
    App.minDay st = Ok mn /\ App.daySpan st = Ok (int d) /\ 60 <= d <= 1440
    /\ (mn = NaN \/ exists a, mn = int a /\ 0 <= a <= 1439)
    /\ sort (App.viaRefs (App.objects w) App.byStart) l = Ok l'
    /\ Permutation l l'
    /\ App.redraw st tasks w
       = Ok (tt, App.World (App.objects w) (App.arrays w ++ [l'])
                   (bandsFrom st mn (int d) (App.objects w) l' 0)).
Proof.
  intros El Hv.
  destruct (daySpan_range st) as (mn & mx & d & Emn & _ & Ed & Hd & _).
  destruct (minDay_range st) as (mn' & Emn' & Hmn).
  rewrite Emn in Emn'. injection Emn' as <-.
  destruct (sorted_spec tasks w l El Hv) as (l' & Es & Pl & Vl & Esorted).
  exists mn, d, l'.
  split; [exact Emn|]. split; [exact Ed|]. split; [exact Hd|].
  split; [exact Hmn|]. split; [exact Es|]. split; [exact Pl|].
  unfold App.redraw. unfold App.mbind at 1. unfold App.lift at 1. rewrite Emn.
  unfold App.mbind at 1. unfold App.lift at 1. rewrite Ed.
  unfold App.mbind at 1. rewrite Esorted.
  unfold App.draw, App.mbind at 1, App.clearCanvas.
  cbn [App.objects App.arrays App.canvas].
  unfold App.forEach, App.mbind at 1, App.readArray.
  cbn [App.arrays]. rewrite nth_error_app_last.
  rewrite forEachFrom_bands by exact Vl. reflexivity.
Qed.

Lemma bandsFrom_In (st : App.settings) (mn span : num) (objs : list App.task)
    (refs : list nat) :
  forall (idx : nat) (b : App.band),
    In b (bandsFrom st mn span objs refs idx) ->
    exists i r tk, nth_error refs i = Some r /\ nth_error objs r = Some tk
                   /\ App.paintTask st mn span tk (idx + i) = Ok (Some b).
Proof.
  induction refs as [|r rs IH]; intros idx b Hb; [destruct Hb|].
  cbn [bandsFrom] in Hb.
  destruct (nth_error objs r) as [tk|] eqn:Etk; [|destruct Hb].
  assert (Hrest : In b (bandsFrom st mn span objs rs (S idx)) ->
                  exists i r0 tk0, nth_error (r :: rs) i = Some r0
                    /\ nth_error objs r0 = Some tk0
                    /\ App.paintTask st mn span tk0 (idx + i) = Ok (Some b)).
  { intros H. destruct (IH _ _ H) as (i & r0 & tk0 & E1 & E2 & E3).
    exists (S i), r0, tk0. rewrite Nat.add_succ_r. auto. }
  destruct (App.paintTask st mn span tk idx) as [[b0|]|] eqn:Ep;
    try (apply Hrest; exact Hb).
  destruct Hb as [<- | Hb]; [|apply Hrest; exact Hb].
  exists 0%nat, r, tk. rewrite Nat.add_0_r. auto.
Qed.

(** The bands come in the order of the indices, each index at most
    once. *)
Lemma bandsFrom_increasing (st : App.settings) (mn span : num)
    (objs : list App.task) (refs : list nat) :
  forall idx : nat,
    Forall (fun b => (idx <= App.b_index b < idx + length refs)%nat)
           (bandsFrom st mn span objs refs idx)
    /\ StronglySorted (fun b1 b2 => (App.b_index b1 < App.b_index b2)%nat)
                      (bandsFrom st mn span objs refs idx)
    /\ (length (bandsFrom st mn span objs refs idx) <= length refs)%nat.
Proof.
  induction refs as [|r rs IH]; intros idx.
  - cbn. repeat split; constructor.
  - cbn [bandsFrom length].
    destruct (IH (S idx)) as (F & S' & L).
    assert (F' : Forall (fun b => (idx <= App.b_index b < idx + S (length rs))%nat)
                        (bandsFrom st mn span objs rs (S idx))).
    { eapply Forall_impl; [|exact F]. cbn. intros b Hb. lia. }
    destruct (nth_error objs r) as [tk|]; [|repeat split; [constructor|constructor|cbn; lia]].
    destruct (App.paintTask st mn span tk idx) as [[b|]|] eqn:Ep;
      try (split; [exact F'|]; split; [exact S'|]; lia).
    destruct (paintTask_band st mn span tk idx b Ep)
      as (_ & _ & _ & _ & _ & _ & _ & Ei & _).
    split; [|split].
    + constructor; [lia | exact F'].
    + constructor; [exact S'|].
      eapply Forall_impl; [|exact F]. cbn. intros b' Hb'. lia.
    + cbn. lia.
Qed.

End FrameFacts.

(** * The handlers and the store *)

Module StoreFacts.

Import JS Decide NumFacts Spec CodecFacts ColorFacts SortFacts LayoutFacts.
Import ShadeFacts.
Local Open Scope Z_scope.

Lemma derefAll_app (objs extra : list App.task) (refs : list nat)
    (ts : list App.task) :
  derefAll objs refs = Some ts -> derefAll (objs ++ extra) refs = Some ts.
Proof.
  revert ts. induction refs as [|r rs IH]; intros ts H.
  - exact H.
  - cbn [derefAll] in *.
    destruct (nth_error objs r) as [t|] eqn:Et; [|discriminate H].
    destruct (derefAll objs rs) as [ts'|]; [|discriminate H].
    rewrite nth_error_app1 by (apply nth_error_Some; congruence).
    rewrite Et, (IH ts' eq_refl). exact H.
Qed.

Lemma derefAll_valid (objs : list App.task) (refs : list nat)
    (ts : list App.task) :
  derefAll objs refs = Some ts -> validRefs objs refs.
Proof.
  revert ts. induction refs as [|r rs IH]; intros ts H; [constructor|].
  cbn [derefAll] in H.
  destruct (nth_error objs r) as [t|] eqn:Et; [|discriminate H].
  destruct (derefAll objs rs) as [ts'|]; [|discriminate H].
  constructor; [eauto | eapply IH; reflexivity].
Qed.

Lemma valid_derefAll (objs : list App.task) (refs : list nat) :
  validRefs objs refs -> exists ts, derefAll objs refs = Some ts.
Proof.
  induction refs as [|r rs IH]; intros H; [exists []; reflexivity|].
  inversion H as [|? ? [t Et] Hrs]; subst.
  destruct (IH Hrs) as [ts Ets]. exists (t :: ts).
  cbn [derefAll]. rewrite Et, Ets. reflexivity.
Qed.

Lemma derefAll_length (objs : list App.task) (refs : list nat)
    (ts : list App.task) :
  derefAll objs refs = Some ts -> length ts = length refs.
Proof.
  revert ts. induction refs as [|r rs IH]; intros ts H.
  - injection H as <-. reflexivity.
  - cbn [derefAll] in H.
    destruct (nth_error objs r) as [t|]; [|discriminate H].
    destruct (derefAll objs rs) as [ts'|]; [|discriminate H].
    injection H as <-. cbn. rewrite (IH ts' eq_refl). reflexivity.
Qed.

(** *** [map] with a callback that keeps a record or makes a new one *)

Section MapFrom.

Variable f : nat -> App.M nat.
Variable changed : App.task -> bool.
Variable g : App.task -> App.task.

Hypothesis Hf : forall (ref : nat) (x : App.task) (w : App.world),
  nth_error (App.objects w) ref = Some x ->
  f ref w = if changed x
            then Ok (length (App.objects w),
                     App.World (App.objects w ++ [g x]) (App.arrays w)
                               (App.canvas w))
            else Ok (ref, w).

Lemma mapFrom_spec (refs : list nat) :
  forall (w : App.world) (ts : list App.task),
    derefAll (App.objects w) refs = Some ts ->
    exists refs',
      App.mapFrom f refs w
      = Ok (refs', App.World (App.objects w ++ List.map g (filter changed ts))
                             (App.arrays w) (App.canvas w))
      /\ derefAll (App.objects w ++ List.map g (filter changed ts)) refs'
         = Some (List.map (fun x => if changed x then g x else x) ts)
      /\ forall (i ref : nat) (x : App.task),
           nth_error refs i = Some ref ->
           nth_error (App.objects w) ref = Some x ->
           changed x = false -> nth_error refs' i = Some ref.
Proof.
  induction refs as [|r rs IH]; intros w ts H.
  - injection H as <-. exists []. cbn. rewrite app_nil_r.
    split; [destruct w; reflexivity|]. split; [reflexivity|].
    intros i ref x E. destruct i; discriminate E.
  - cbn [derefAll] in H.
    destruct (nth_error (App.objects w) r) as [x|] eqn:Ex; [|discriminate H].
    destruct (derefAll (App.objects w) rs) as [ts'|] eqn:Ets; [|discriminate H].
    injection H as <-.
    cbn [App.mapFrom]. unfold App.mbind at 1. rewrite (Hf r x w Ex).
    cbn [filter List.map].
    destruct (changed x) eqn:Ec.
    + destruct (IH (App.World (App.objects w ++ [g x]) (App.arrays w)
                              (App.canvas w)) ts') as (refs' & Em & Ed & Hk).
      { cbn [App.objects]. apply derefAll_app. exact Ets. }
      cbn [App.objects App.arrays App.canvas] in Em, Ed, Hk.
      unfold App.mbind at 1. rewrite Em. unfold App.ret.
      rewrite <- app_assoc in Ed. cbn [app] in Ed.
      exists (length (App.objects w) :: refs').
      split; [rewrite <- app_assoc; reflexivity|]. split.
      * cbn [derefAll List.map]. rewrite Ed.
        rewrite nth_error_app2 by lia. rewrite Nat.sub_diag. reflexivity.
      * intros i ref y E1 E2 E3. destruct i as [|i].
        -- cbn in E1. injection E1 as <-. congruence.
        -- cbn in E1 |- *. apply (Hk i ref y E1); [|exact E3].
           rewrite nth_error_app1 by (apply nth_error_Some; congruence).
           exact E2.
    + destruct (IH w ts' Ets) as (refs' & Em & Ed & Hk).
      unfold App.mbind at 1. rewrite Em. unfold App.ret.
      exists (r :: refs'). split; [reflexivity|]. split.
      * cbn [derefAll List.map]. rewrite Ed.
        rewrite nth_error_app1 by (apply nth_error_Some; congruence).
        rewrite Ex. reflexivity.
      * intros i ref y E1 E2 E3. destruct i as [|i].
        -- cbn in E1 |- *. exact E1.
        -- cbn in E1 |- *. apply (Hk i ref y E1 E2 E3).
Qed.

Lemma mapArray_spec (a : nat) (w : App.world) (ts : list App.task) :
  tasksOf w a = Some ts ->
  exists refs refs' extra,
    nth_error (App.arrays w) a = Some refs
    /\ extra = List.map g (filter changed ts)
    /\ App.mapArray a f w
       = Ok (length (App.arrays w),
             App.World (App.objects w ++ extra) (App.arrays w ++ [refs'])
                       (App.canvas w))
    /\ derefAll (App.objects w ++ extra) refs'
       = Some (List.map (fun x => if changed x then g x else x) ts)
    /\ forall (i ref : nat) (x : App.task),
         nth_error refs i = Some ref ->
         nth_error (App.objects w) ref = Some x ->
         changed x = false -> nth_error refs' i = Some ref.
Proof.
  unfold tasksOf. intros H.
  destruct (nth_error (App.arrays w) a) as [refs|] eqn:Ea; [|discriminate H].
  destruct (mapFrom_spec refs w ts H) as (refs' & Em & Ed & Hk).
  exists refs, refs', (List.map g (filter changed ts)).
  split; [reflexivity|]. split; [reflexivity|]. split; [|split; assumption].
  unfold App.mapArray, App.mbind, App.readArray. rewrite Ea, Em.
  reflexivity.
Qed.

End MapFrom.

(** *** [filter] with a test on the record *)

Section FilterFrom.

Variable p : nat -> App.M bool.
Variable keep : App.task -> bool.

Hypothesis Hp : forall (ref : nat) (x : App.task) (w : App.world),
  nth_error (App.objects w) ref = Some x -> p ref w = Ok (keep x, w).

Lemma filterFrom_spec (refs : list nat) :
  forall (w : App.world) (ts : list App.task),
    derefAll (App.objects w) refs = Some ts ->
    exists refs',
      App.filterFrom p refs w = Ok (refs', w)
      /\ derefAll (App.objects w) refs' = Some (filter keep ts)
      /\ refs' = filter (fun ref => match nth_error (App.objects w) ref with
                                    | Some x => keep x
                                    | None => false
                                    end) refs.
Proof.
  induction refs as [|r rs IH]; intros w ts H.
  - injection H as <-. exists []. repeat split; reflexivity.
  - cbn [derefAll] in H.
    destruct (nth_error (App.objects w) r) as [x|] eqn:Ex; [|discriminate H].
    destruct (derefAll (App.objects w) rs) as [ts'|] eqn:Ets; [|discriminate H].
    injection H as <-.
    destruct (IH w ts' Ets) as (refs' & Em & Ed & Ef).
    cbn [App.filterFrom]. unfold App.mbind at 1. rewrite (Hp r x w Ex).
    unfold App.mbind at 1. rewrite Em. unfold App.ret.
    cbn [filter]. rewrite Ex.
    destruct (keep x).
    + exists (r :: refs'). split; [reflexivity|]. split.
      * cbn [derefAll]. rewrite Ex, Ed. reflexivity.
      * rewrite Ef. reflexivity.
    + exists refs'. split; [reflexivity|]. split; assumption.
Qed.

Lemma filterArray_spec (a : nat) (w : App.world) (ts : list App.task) :
  tasksOf w a = Some ts ->
  exists refs refs',
    nth_error (App.arrays w) a = Some refs
    /\ App.filterArray a p w
       = Ok (length (App.arrays w),
             App.World (App.objects w) (App.arrays w ++ [refs'])
                       (App.canvas w))
    /\ derefAll (App.objects w) refs' = Some (filter keep ts)
    /\ refs' = filter (fun ref => match nth_error (App.objects w) ref with
                                  | Some x => keep x
                                  | None => false
                                  end) refs.
Proof.
  unfold tasksOf. intros H.
  destruct (nth_error (App.arrays w) a) as [refs|] eqn:Ea; [|discriminate H].
  destruct (filterFrom_spec refs w ts H) as (refs' & Em & Ed & Ef).
  exists refs, refs'.
  split; [reflexivity|]. split; [|split; assumption].
  unfold App.filterArray, App.mbind, App.readArray. rewrite Ea, Em.
  reflexivity.
Qed.

End FilterFrom.

(** *** The store after a handler *)

Lemma tasksOf_new (objs : list App.task) (arrs : list (list nat))
    (cv : list App.band) (refs : list nat) :
  tasksOf (App.World objs (arrs ++ [refs]) cv) (length arrs)
  = derefAll objs refs.
Proof.
  unfold tasksOf. cbn [App.arrays App.objects].
  rewrite nth_error_app_last. reflexivity.
Qed.

Lemma tasksOf_old (w : App.world) (extra : list App.task)
    (more : list (list nat)) (cv : list App.band) (a : nat)
    (ts : list App.task) :
  tasksOf w a = Some ts ->
  tasksOf (App.World (App.objects w ++ extra) (App.arrays w ++ more) cv) a
  = Some ts.
Proof.
  unfold tasksOf. cbn [App.arrays App.objects]. intros H.
  destruct (nth_error (App.arrays w) a) as [refs|] eqn:Ea; [|discriminate H].
  rewrite nth_error_app1 by (apply nth_error_Some; congruence).
  rewrite Ea. apply derefAll_app. exact H.
Qed.

Lemma derefAll_snoc (objs : list App.task) (refs : list nat)
    (ts : list App.task) (x : App.task) :
  derefAll objs refs = Some ts ->
  derefAll (objs ++ [x]) (refs ++ [length objs]) = Some (ts ++ [x]).
Proof.
  revert ts. induction refs as [|r rs IH]; intros ts H.
  - injection H as <-. cbn [app derefAll].
    rewrite nth_error_app2 by lia. rewrite Nat.sub_diag. reflexivity.
  - cbn [derefAll] in H.
    destruct (nth_error objs r) as [t|] eqn:Et; [|discriminate H].
    destruct (derefAll objs rs) as [ts'|]; [|discriminate H].
    injection H as <-. cbn [app derefAll].
    rewrite nth_error_app1 by (apply nth_error_Some; congruence).
    rewrite Et, (IH ts' eq_refl). reflexivity.
Qed.

Lemma updateTask_spec (tasks : nat) (id' : value) (p : App.patch)
    (w : App.world) (ts : list App.task) :
  tasksOf w tasks = Some ts ->
  exists refs refs' extra,
    nth_error (App.arrays w) tasks = Some refs
    /\ extra = List.map (fun x => App.spreadPatch x p)
                        (filter (fun x => strict_eq (App.id x) id') ts)
    /\ App.updateTask tasks id' p w
       = Ok (length (App.arrays w),
             App.World (App.objects w ++ extra) (App.arrays w ++ [refs'])
                       (App.canvas w))
    /\ derefAll (App.objects w ++ extra) refs' = Some (patched id' p ts)
    /\ forall (i ref : nat) (x : App.task),
         nth_error refs i = Some ref ->
         nth_error (App.objects w) ref = Some x ->
         strict_eq (App.id x) id' = false -> nth_error refs' i = Some ref.
Proof.
  intros H. unfold App.updateTask, patched.
  apply (mapArray_spec _ (fun x => strict_eq (App.id x) id')
                       (fun x => App.spreadPatch x p)); [|exact H].
  intros ref x w0 Ex. unfold App.mbind, App.deref. rewrite Ex.
  destruct (strict_eq (App.id x) id'); reflexivity.
Qed.

Lemma removeTask_spec (tasks : nat) (id' : value) (w : App.world)
    (ts : list App.task) :
  tasksOf w tasks = Some ts ->
  exists refs refs',
    nth_error (App.arrays w) tasks = Some refs
    /\ App.removeTask tasks id' w
       = Ok (length (App.arrays w),
             App.World (App.objects w) (App.arrays w ++ [refs'])
                       (App.canvas w))
    /\ derefAll (App.objects w) refs' = Some (without id' ts)
    /\ refs' = filter (fun ref => match nth_error (App.objects w) ref with
                                  | Some x => negb (strict_eq (App.id x) id')
                                  | None => false
                                  end) refs.
Proof.
  intros H. unfold App.removeTask, without.
  apply (filterArray_spec _ (fun x => negb (strict_eq (App.id x) id')));
    [|exact H].
  intros ref x w0 Ex. unfold App.mbind, App.deref. rewrite Ex. reflexivity.
Qed.

Lemma colourOf_hashColor (label : value) :
  App.hashColor label = Ok (colourOf label)
  /\ App.isValidHex (colourOf label) = true.
Proof.
  unfold colourOf. destruct (hashColor_valid label) as (c & E & V).
  rewrite E. split; [reflexivity | exact V].
Qed.

Lemma reharmonize_spec (tasks : nat) (w : App.world) (ts : list App.task) :
  tasksOf w tasks = Some ts ->
  exists refs',
    App.reharmonize tasks w
    = Ok (length (App.arrays w),
          App.World (App.objects w ++ List.map recoloured ts)
                    (App.arrays w ++ [refs']) (App.canvas w))
    /\ derefAll (App.objects w ++ List.map recoloured ts) refs'
       = Some (List.map recoloured ts).
Proof.
  intros H. unfold App.reharmonize.
  assert (Hf : forall (ref : nat) (x : App.task) (w0 : App.world),
    nth_error (App.objects w0) ref = Some x ->
    App.mbind (App.deref ref) (fun x0 =>
      App.mbind (App.lift (App.hashColor (App.title x0))) (fun c =>
        App.newObject {| App.id := App.id x0; App.title := App.title x0;
                         App.start := App.start x0;
                         App.end_ := App.end_ x0; App.color := c |})) w0
    = if (fun _ : App.task => true) x
      then Ok (length (App.objects w0),
               App.World (App.objects w0 ++ [recoloured x]) (App.arrays w0)
                         (App.canvas w0))
      else Ok (ref, w0)).
  { intros ref x w0 Ex. unfold App.mbind, App.deref. rewrite Ex.
    unfold App.lift. rewrite (proj1 (colourOf_hashColor (App.title x))).
    reflexivity. }
  destruct (mapArray_spec _ (fun _ => true) recoloured Hf tasks w ts H)
    as (refs & refs' & extra & _ & Ee & Em & Ed & _).
  assert (F : filter (fun _ : App.task => true) ts = ts).
  { clear. induction ts as [|x r IH]; cbn; [reflexivity | now rewrite IH]. }
  rewrite F in Ee. subst extra.
  exists refs'. split; [exact Em|].
  rewrite Ed. f_equal.
Qed.

(** *** [addTask] *)

Lemma nine_and_ten :
  App.toMinutes (VStr (lit "09:00")) = Ok (int 540)
  /\ App.toMinutes (VStr (lit "10:00")) = Ok (int 600).
Proof. split; vm_compute; reflexivity. Qed.

Lemma addTask_spec (st : App.settings) (tasks : nat) (fresh : jsstring)
    (w : App.world) (ts : list App.task) :
  tasksOf w tasks = Some ts ->
  exists mn d refs,
    App.minDay st = Ok mn /\ App.daySpan st = Ok (int d)
    /\ (mn = NaN \/ exists a, mn = int a /\ 0 <= a <= 1439)
    /\ 60 <= d <= 1440
    /\ nth_error (App.arrays w) tasks = Some refs
    /\ App.addTask st tasks fresh w
       = Ok ((length (App.arrays w), VStr fresh),
             App.World (App.objects w ++ [newThread mn (int d) fresh])
                       (App.arrays w ++ [refs ++ [length (App.objects w)]])
                       (App.canvas w))
    /\ derefAll (App.objects w ++ [newThread mn (int d) fresh])
                (refs ++ [length (App.objects w)])
       = Some (ts ++ [newThread mn (int d) fresh]).
Proof.
  intros H.
  destruct (daySpan_range st) as (mn & mx & d & Emn & _ & Ed & Hd & _).
  destruct (minDay_range st) as (mn' & Emn' & Hmn).
  rewrite Emn in Emn'. injection Emn' as <-.
  unfold tasksOf in H.
  destruct (nth_error (App.arrays w) tasks) as [refs|] eqn:Ea; [|discriminate H].
  destruct nine_and_ten as [E9 E10].
  exists mn, d, refs.
  split; [exact Emn|]. split; [exact Ed|]. split; [exact Hmn|].
  split; [exact Hd|]. split; [reflexivity|].
  split; [|apply derefAll_snoc; exact H].
  unfold App.addTask.
  unfold App.mbind at 1. unfold App.lift at 1. rewrite Emn.
  unfold App.mbind at 1. unfold App.lift at 1. rewrite Ed.
  unfold App.mbind at 1. unfold App.lift at 1. rewrite E9.
  unfold App.mbind at 1. unfold App.lift at 1. rewrite E10.
  unfold App.mbind at 1. unfold App.readArray. rewrite Ea.
  unfold App.mbind at 1. unfold App.lift at 1.
  rewrite (proj1 (colourOf_hashColor (VStr (lit "New Thread")))).
  reflexivity.
Qed.

Lemma timeText_fromMinutes (z : Z) :
  timeText (App.fromMinutes (int z)) = true.
Proof.
  rewrite fromMinutes_int.
  pose proof (Z.mod_pos_bound z 1440 ltac:(lia)) as Hn.
  pose proof (Z.mod_pos_bound (z mod 1440) 60 ltac:(lia)) as Hm.
  assert (Hq : 0 <= z mod 1440 / 60 < 24).
  { split; [apply Z.div_pos; lia | apply Z.div_lt_upper_bound; lia]. }
  set (h := z mod 1440 / 60) in *. set (m := (z mod 1440) mod 60) in *.
  assert (Hh10 : 0 <= h / 10 <= 9 /\ 0 <= h mod 10 <= 9).
  { pose proof (Z.mod_pos_bound h 10 ltac:(lia)).
    split; [|lia]. split; [apply Z.div_pos; lia|].
    apply Z.lt_succ_r. apply Z.div_lt_upper_bound; lia. }
  assert (Hm10 : 0 <= m / 10 <= 9 /\ 0 <= m mod 10 <= 9).
  { pose proof (Z.mod_pos_bound m 10 ltac:(lia)).
    split; [|lia]. split; [apply Z.div_pos; lia|].
    apply Z.lt_succ_r. apply Z.div_lt_upper_bound; lia. }
  unfold hhmm, timeText, is_digit.
  rewrite Z.eqb_refl.
  repeat (apply andb_true_iff; split); try reflexivity; apply Z.leb_le; lia.
Qed.

(** The times of the new thread, read back. *)
Lemma newThread_times (a d : Z) (fresh : jsstring) :
  0 <= a <= 1439 -> 60 <= d <= 1440 ->
  App.toMinutes (App.start (newThread (int a) (int d) fresh))
  = Ok (int (Z.max a 540))
  /\ App.toMinutes (App.end_ (newThread (int a) (int d) fresh))
     = Ok (int (Z.min (a + d) 600))
  /\ (exists s, App.start (newThread (int a) (int d) fresh) = VStr s
                /\ timeText s = true)
  /\ (exists e, App.end_ (newThread (int a) (int d) fresh) = VStr e
                /\ timeText e = true).
Proof.
  intros Ha Hd. unfold newThread. cbn [App.start App.end_].
  rewrite num_max_int, num_add_int, num_min_int by (unfold two53; lia).
  split; [apply roundtrip_minutes; lia|].
  split; [apply roundtrip_minutes; lia|].
  split; eexists; (split; [reflexivity|]); apply timeText_fromMinutes.
Qed.

End StoreFacts.

(** * The loops of the drawing effect *)

Module LoopFacts.

Import JS Decide NumFacts Spec CodecFacts ColorFacts LayoutFacts.
Import RoundFacts OrderFacts ShadeFacts FrameFacts.
Local Open Scope Z_scope.

(** The sum of two numbers that are at least [lo] and [k]. *)
Lemma num_add_ge_num (lo k : Z) (v step : num) :
  Z.abs (lo + k) <= two53 ->
  num_le (int lo) v = true -> num_le (int k) step = true ->
  num_le (int (lo + k)) (num_add v step) = true.
Proof.
  intros Hb Hv Hs.
  destruct v as [|[|]|q]; try discriminate Hv;
    destruct step as [|[|]|s]; try discriminate Hs; try reflexivity.
  unfold num_add. apply round64_ge_int; [exact Hb|].
  unfold num_le, int in Hv, Hs.
  apply Qle_bool_iff in Hv. apply Qle_bool_iff in Hs.
  rewrite inject_Z_plus. apply Qplus_le_compat; assumption.
Qed.

Lemma num_lt_int_bound (v bound : num) (hi : Z) :
  num_lt v bound = true -> num_le bound (int hi) = true ->
  num_le v (int hi) = true.
Proof.
  intros H1 H2. eapply num_le_trans; [apply num_lt_le; exact H1 | exact H2].
Qed.

(** A counting loop whose step is at least [k > 0] ends. *)
Lemma countLoop_ends (k : Z) (bound step : num) (hi : Z) :
  0 < k -> num_le (int k) step = true -> num_le bound (int hi) = true ->
  Z.abs hi + k <= two53 ->
  forall (fuel : nat) (lo : Z) (v : num),
    num_le (int lo) v = true -> Z.abs lo <= two53 ->
    hi - lo <= Z.of_nat fuel * k ->
    exists vs, App.countLoop fuel v bound step = Some vs
               /\ (length vs <= fuel)%nat
               /\ Forall (fun y => num_le (int lo) y = true
                                   /\ num_lt y bound = true) vs.
Proof.
  intros Hk Hstep Hbound Hhi.
  induction fuel as [|fuel IH]; intros lo v Hv Hlo Hf.
  - change (Z.of_nat 0) with 0 in Hf. rewrite Z.mul_0_l in Hf.
    cbn [App.countLoop].
    destruct (num_lt v bound) eqn:E.
    + exfalso. pose proof (num_lt_int_bound _ _ _ E Hbound) as U.
      pose proof (num_le_trans _ _ _ Hv U) as C.
      rewrite num_le_int in C. apply Z.leb_le in C.
      pose proof (num_lt_not_le _ _ E) as N.
      assert (num_le bound (int lo) = true) as B.
      { eapply num_le_trans; [exact Hbound|].
        rewrite num_le_int. apply Z.leb_le. lia. }
      rewrite (num_le_trans _ _ _ B Hv) in N. discriminate N.
    + exists []. split; [reflexivity|]. split; [cbn; lia | constructor].
  - rewrite Nat2Z.inj_succ, Z.mul_succ_l in Hf.
    cbn [App.countLoop].
    destruct (num_lt v bound) eqn:E;
      [|exists []; split; [reflexivity|]; split; [cbn; lia | constructor]].
    assert (Hlohi : lo < hi).
    { pose proof (num_lt_int_bound _ _ _ E Hbound) as U.
      destruct (Z_lt_le_dec lo hi) as [L|L]; [exact L|]. exfalso.
      pose proof (num_lt_not_le _ _ E) as N.
      assert (num_le bound (int lo) = true) as B.
      { eapply num_le_trans; [exact Hbound|].
        rewrite num_le_int. apply Z.leb_le. lia. }
      rewrite (num_le_trans _ _ _ B Hv) in N. discriminate N. }
    destruct (IH (lo + k) (num_add v step)) as (vs & Ev & Hl & Hall).
    + apply num_add_ge_num; [unfold two53 in *; lia | exact Hv | exact Hstep].
    + unfold two53 in *. lia.
    + lia.
    + rewrite Ev. exists (v :: vs). split; [reflexivity|].
      split; [cbn; lia|].
      constructor; [split; [exact Hv | exact E]|].
      eapply Forall_impl; [|exact Hall]. cbv beta. intros y [Hy1 Hy2].
      split; [|exact Hy2].
      apply (num_le_trans (int lo) (int (lo + k)) y); [|exact Hy1].
      rewrite num_le_int. apply Z.leb_le. lia.
Qed.

(** With a step that is not a number the loop is left after one turn. *)
Lemma countLoop_NaN (fuel : nat) (v bound : num) :
  exists vs, App.countLoop (S fuel) v bound NaN = Some vs
             /\ (length vs <= 1)%nat.
Proof.
  cbn [App.countLoop]. destruct (num_lt v bound).
  - assert (E : num_add v NaN = NaN) by (destruct v; reflexivity).
    rewrite E.
    assert (E2 : App.countLoop fuel NaN bound NaN = Some []).
    { destruct fuel; cbn [App.countLoop]; destruct bound; reflexivity. }
    rewrite E2. exists [v]. split; [reflexivity | cbn; lia].
  - exists []. split; [reflexivity | cbn; lia].
Qed.

Lemma num_or_not_NaN (a : num) (k : Z) : isNaN (App.num_or a (int k)) = false.
Proof.
  unfold App.num_or. destruct a as [|s|q]; cbn [truthy]; try reflexivity.
  destruct (negb (Qeq_bool q 0)); reflexivity.
Qed.

Lemma weaveStep_ge (weaveDensity : value) :
  num_le (int 2) (App.weaveStep weaveDensity) = true.
Proof.
  unfold App.weaveStep.
  rewrite (num_max_spec (int 2) _ eq_refl (num_or_not_NaN _ 6)).
  destruct (num_le (int 2) (App.num_or (toNumber weaveDensity) (int 6))) eqn:E;
    [exact E | reflexivity].
Qed.

Lemma hatchStep_cases (warpSpacing : value) :
  App.hatchStep warpSpacing = NaN
  \/ num_le (int 4) (App.hatchStep warpSpacing) = true.
Proof.
  unfold App.hatchStep.
  destruct (isNaN (toNumber warpSpacing)) eqn:E.
  - left. destruct (toNumber warpSpacing); try discriminate E. reflexivity.
  - right. rewrite (num_max_spec (int 4) _ eq_refl E).
    destruct (num_le (int 4) (toNumber warpSpacing)) eqn:G;
      [exact G | reflexivity].
Qed.

Lemma countLoop_more (bound step : num) :
  forall (fuel fuel' : nat) (v : num) (vs : list num),
    App.countLoop fuel v bound step = Some vs -> (fuel <= fuel')%nat ->
    App.countLoop fuel' v bound step = Some vs.
Proof.
  induction fuel as [|fuel IH]; intros fuel' v vs E Hf.
  - cbn [App.countLoop] in E.
    destruct (num_lt v bound) eqn:G; [discriminate E|].
    destruct fuel'; cbn [App.countLoop]; rewrite G; exact E.
  - destruct fuel' as [|fuel']; [lia|].
    cbn [App.countLoop] in E |- *.
    destruct (num_lt v bound); [|exact E].
    destruct (App.countLoop fuel (num_add v step) bound step) as [ws|] eqn:Er;
      [|discriminate E].
    rewrite (IH fuel' _ ws Er) by lia. exact E.
Qed.

Lemma floor_ge (k : Z) (x : num) :
  num_le (int k) x = true -> num_le (int k) (floor x) = true.
Proof.
  destruct x as [|[|]|q]; intros H; try discriminate H; [reflexivity|].
  unfold floor. rewrite num_le_int. apply Z.leb_le.
  unfold num_le, int in H. apply Qle_bool_iff in H.
  rewrite <- (Qfloor_Z k). apply Qfloor_resp_le. exact H.
Qed.

Lemma floor_le (k : Z) (x : num) :
  num_le x (int k) = true -> num_le (floor x) (int k) = true.
Proof.
  destruct x as [|[|]|q]; intros H; try discriminate H; [reflexivity|].
  unfold floor. rewrite num_le_int. apply Z.leb_le.
  unfold num_le, int in H. apply Qle_bool_iff in H.
  rewrite <- (Qfloor_Z k). apply Qfloor_resp_le. exact H.
Qed.

End LoopFacts.

(** * The theme and the grid *)

Module GridFacts.

Import JS Decide NumFacts Spec CodecFacts ColorFacts LayoutFacts.
Import RoundFacts OrderFacts ShadeFacts FrameFacts LoopFacts.
Local Open Scope Z_scope.

Lemma num_or_int_0 (k : Z) : App.num_or (int k) (int 0) = int k.
Proof.
  unfold App.num_or. cbn [truthy]. destruct (Z.eq_dec k 0) as [-> | Hk].
  - reflexivity.
  - unfold int. rewrite (Qeq_bool_int_0 k Hk). reflexivity.
Qed.

Lemma num_abs_int (k : Z) : num_abs (int k) = int (Z.abs k).
Proof. reflexivity. Qed.

Lemma index_In {A : Type} (l : list A) (i : num) (x : A) :
  index l i = Some x -> In x l.
Proof.
  unfold index. destruct i as [| |q]; try discriminate.
  destruct ((Z.pos (Qden q) =? 1) && (0 <=? Qnum q)); [|discriminate].
  apply nth_error_In.
Qed.

Lemma paletteSlot_int (v : value) (z : Z) :
  toNumber v = int z -> App.paletteSlot v = int (Z.abs (Z.rem z 4)).
Proof.
  intros E. unfold App.paletteSlot. rewrite E.
  change (App.len App.palettes) with (int 4).
  rewrite num_mod_int by lia. apply num_abs_int.
Qed.

Lemma paletteSlot_not_finite (v : value) :
  (toNumber v = NaN \/ exists s, toNumber v = Inf s) ->
  App.paletteSlot v = NaN.
Proof.
  intros [E | [s E]]; unfold App.paletteSlot; rewrite E; reflexivity.
Qed.

Lemma hours_all : all_below 1441 hours_ok = true.
Proof. vm_compute. reflexivity. Qed.

Lemma hours_value (d : Z) :
  60 <= d <= 1440 -> App.hours (int d) = int ((d + 59) / 60).
Proof.
  intros Hd. pose proof (all_below_spec _ _ hours_all d ltac:(lia)) as R.
  unfold hours_ok in R. apply orb_true_iff in R. destruct R as [R | R].
  - apply Z.ltb_lt in R. lia.
  - apply num_eqb_eq. exact R.
Qed.

Lemma gridLabel_value (a i : Z) :
  0 <= a <= 1439 -> 0 <= i <= 24 ->
  App.gridLabel (int a) (int i) = hhmm ((a / 60 + i) mod 24) (a mod 60).
Proof.
  intros Ha Hi. unfold App.gridLabel.
  change (num_mul (int 24) (int 60)) with App.dayMinutes.
  rewrite dayMinutes_eq.
  rewrite num_mul_int by (unfold two53; lia).
  rewrite num_add_int by (unfold two53; lia).
  rewrite num_mod_int by lia.
  rewrite Z.rem_mod_nonneg by lia.
  rewrite fromMinutes_int. rewrite Z.mod_mod by lia.
  f_equal; Z.div_mod_to_equations; lia.
Qed.

Lemma gridX_bounds (d W i : Z) :
  60 <= d <= 1440 -> 320 <= W <= two32 -> 0 <= i -> 60 * i <= d ->
  exists x, App.gridX (int d) (int W) (int i) = int x /\ 48 <= x <= W - 16.
Proof.
  intros Hd HW Hi Hid. unfold App.gridX.
  rewrite num_mul_int by (unfold two53, two32 in *; lia).
  rewrite num_sub_int by (unfold two53, two32 in *; lia).
  rewrite num_mul_int by (unfold two53, two32 in *; nia).
  assert (L : num_le (int 0) (num_div (int (i * 60 * (W - 64))) (int d))
              = true).
  { apply num_div_ge; [lia | unfold two53; lia |].
    rewrite num_le_int. apply Z.leb_le. nia. }
  assert (U : num_le (num_div (int (i * 60 * (W - 64))) (int d))
                     (int (W - 64)) = true).
  { apply num_div_le; [lia | unfold two53, two32 in *; lia |].
    rewrite num_le_int. apply Z.leb_le. nia. }
  destruct (finite_between _ _ _ L U) as (q & Eq).
  pose proof (floor_ge _ _ L) as L'. pose proof (floor_le _ _ U) as U'.
  rewrite Eq in L', U' |- *. rewrite floor_Fin in *.
  rewrite num_le_int in L', U'. apply Z.leb_le in L', U'.
  rewrite num_add_int by (unfold two53, two32 in *; lia).
  eexists. split; [reflexivity | lia].
Qed.

End GridFacts.

(** * The draft's colour functions and the corner radius *)

Module DraftColorFacts.

Import JS Decide NumFacts Spec HexFacts CodecFacts ColorFacts.
Import RoundFacts OrderFacts ShadeFacts.
Local Open Scope Z_scope.

Lemma fold_draft_hashStep_uint32 (str : jsstring) (h : num) :
  (exists u, h = int u /\ 0 <= u < two32) ->
  exists u, fold_left Draft.hashStep str h = int u /\ 0 <= u < two32.
Proof.
  revert h. induction str as [|c r IH]; intros h Hh; cbn [fold_left];
    [exact Hh|].
  apply IH. unfold Draft.hashStep. apply num_ushr_uint32.
Qed.

Lemma draft_pickColor_uint32 (u : Z) :
  0 <= u < two32 ->
  exists pal c, In pal App.palettes /\ In c pal
                /\ Draft.pickColor (int u) = Ok (VStr c).
Proof.
  intros Hu. unfold Draft.pickColor, App.len.
  rewrite num_mod_int by discriminate.
  destruct (index_in_range App.palettes (Z.rem u 4)) as (pal & Ep & Ip).
  { change (Z.of_nat (length App.palettes)) with 4.
    apply rem_nonneg_bound; lia. }
  change (Z.of_nat (length App.palettes)) with 4. rewrite Ep.
  pose proof palettes_six as H6. rewrite Forall_forall in H6.
  rewrite (H6 pal Ip). change (Z.of_nat 6) with 6.
  destruct (num_ushr_uint32 (int u) (int 3)) as (v & Ev & Hv). rewrite Ev.
  rewrite num_mod_int by discriminate.
  pose proof (rem_nonneg_bound v 6 ltac:(lia) ltac:(lia)) as Hr.
  destruct (index_in_range pal (Z.rem v 6)) as (c & Ec & Ic).
  { rewrite (H6 pal Ip). exact Hr. }
  rewrite Ec. exists pal, c. auto.
Qed.

(** The draft's [hexToRgb] on a text that starts with [#] and goes on
    with three or six hexadecimal digits. *)
Lemma draft_hexToRgb_hex (ds : jsstring) (r g b : Z) :
  forallb is_hex_digit ds = true ->
  hexChannels ds = Some (r, g, b) ->
  Draft.hexToRgb (VStr (35 :: ds)) = Ok (rgbOf r g b).
Proof.
  intros Hds Hc. unfold Draft.hexToRgb. cbn [removeFirst].
  rewrite Z.eqb_refl.
  destruct ds as [|a1 [|a2 [|a3 [|a4 [|a5 [|a6 [|a7 rest]]]]]]];
    try discriminate Hc.
  - cbn [length Nat.eqb].
    cbn [hexChannels] in Hc. injection Hc as <- <- <-.
    pose proof Hds as Hds'. cbn [forallb] in Hds'.
    apply andb_true_iff in Hds'; destruct Hds' as [Ha Hds'].
    apply andb_true_iff in Hds'; destruct Hds' as [Hb Hds'].
    apply andb_true_iff in Hds'; destruct Hds' as [Hc _].
    assert (Ed : doubleEach [a1; a2; a3] = [a1; a1; a2; a2; a3; a3]).
    { unfold doubleEach. cbn [flat_map app].
      rewrite !hex_not_terminator by assumption. reflexivity. }
    rewrite Ed.
    assert (H6 : forallb is_hex_digit [a1; a1; a2; a2; a3; a3] = true).
    { cbn [forallb]. rewrite Ha, Hb, Hc. reflexivity. }
    destruct (six_digits a1 a1 a2 a2 a3 a3 H6) as [_ E].
    cbv zeta in E. rewrite E. reflexivity.
  - cbn [length Nat.eqb].
    cbn [hexChannels] in Hc. injection Hc as <- <- <-.
    destruct (six_digits a1 a2 a3 a4 a5 a6 Hds) as [_ E].
    cbv zeta in E. rewrite E. reflexivity.
Qed.

(** *** The corner radius of [roundRect] *)

Lemma num_abs_nonneg (x : num) :
  isNaN x = false -> num_le (int 0) (num_abs x) = true.
Proof.
  destruct x as [|s|q]; intros H; try discriminate H; [reflexivity|].
  unfold num_abs, num_le, int. apply Qle_bool_iff. apply Qabs_nonneg.
Qed.

Lemma half_abs_nonneg (x : num) :
  isNaN x = false ->
  num_le (int 0) (num_div (num_abs x) (int 2)) = true.
Proof.
  intros H. apply (num_div_ge 0 2); [lia | unfold two53; lia |].
  apply num_abs_nonneg. exact H.
Qed.

Lemma num_min_le (a b : num) :
  isNaN a = false -> isNaN b = false ->
  isNaN (num_min a b) = false
  /\ num_le (num_min a b) a = true /\ num_le (num_min a b) b = true.
Proof.
  intros Ha Hb. rewrite (num_min_spec a b Ha Hb).
  destruct (num_le a b) eqn:E.
  - split; [exact Ha|]. split; [apply num_le_refl; exact Ha | exact E].
  - split; [exact Hb|].
    split; [apply num_le_total; assumption | apply num_le_refl; exact Hb].
Qed.

End DraftColorFacts.

(** * Long runs of digits in the time codec *)

Module TimeFacts.

Import JS Decide NumFacts Spec HexFacts CodecFacts RoundFacts OrderFacts.
Local Open Scope Z_scope.

Lemma round64_Qeq (q q' : Q) : (q == q')%Q -> round64 q = round64 q'.
Proof.
  intros H. unfold round64. rewrite (Qred_complete _ _ H). reflexivity.
Qed.

(** [Number] on a run of digits of any length is the double nearest to
    the number they write. *)
Lemma stringToNumber_digits_round (s : jsstring) :
  digits s = true ->
  stringToNumber s = round64 (inject_Z (digits_val s)).
Proof.
  intros Hd. destruct (digits_inv s Hd) as (c & r & -> & Hc & Hall).
  pose proof (is_digit_range c Hc) as Rc.
  unfold stringToNumber. rewrite (trim_digits (c :: r) Hall). cbv iota beta.
  rewrite (nonDecimal_digits c r Hall).
  unfold strDecimalLiteral.
  replace (c =? 45) with false by (symmetry; apply Z.eqb_neq; lia).
  replace (c =? 43) with false by (symmetry; apply Z.eqb_neq; lia).
  assert (Ei : str_eqb (c :: r) (lit "Infinity") = false).
  { unfold str_eqb.
    destruct (list_eq_dec Z.eq_dec (c :: r) (lit "Infinity")) as [Eq|];
      [|reflexivity].
    exfalso. vm_compute in Eq. injection Eq as Eq _. lia. }
  rewrite Ei. rewrite (decimalMV_digits (c :: r) Hd).
  apply round64_Qeq.
  change (pow10 0) with (inject_Z 1). rewrite <- inject_Z_mult.
  rewrite Z.mul_1_r. reflexivity.
Qed.

(** A run of digits is read as a number that is not negative: a finite
    one or [Infinity]. *)
Lemma stringToNumber_digits_cases (s : jsstring) :
  digits s = true ->
  stringToNumber s = Inf false
  \/ exists q : Q, stringToNumber s = Fin q /\ (0 <= q)%Q.
Proof.
  intros Hd. destruct (digits_inv s Hd) as (c & r & E & Hc & Hall).
  pose proof (digits_val_nonneg s Hall) as Nv.
  rewrite (stringToNumber_digits_round s Hd).
  pose proof (round64_ge_int 0 (inject_Z (digits_val s))
                ltac:(unfold two53; lia)) as G.
  assert (L : (inject_Z 0 <= inject_Z (digits_val s))%Q)
    by (rewrite <- Zle_Qle; exact Nv).
  specialize (G L).
  destruct (round64 (inject_Z (digits_val s))) as [|[|]|q];
    try discriminate G.
  - left. reflexivity.
  - right. exists q. split; [reflexivity|].
    unfold num_le, int in G. apply Qle_bool_iff in G. exact G.
Qed.

(** The minute of a run of digits of any length, clamped. *)
Lemma minute_digits (mm : jsstring) :
  digits mm = true ->
  isNaN (stringToNumber mm) = false
  /\ App.clamp (floor (stringToNumber mm)) (int 0) (int 59)
     = int (Z.max 0 (Z.min 59 (digits_val mm))).
Proof.
  intros Hd. destruct (digits_inv mm Hd) as (c & r & E & Hc & Hall).
  pose proof (digits_val_nonneg mm Hall) as Nv.
  destruct (Z_le_gt_dec (digits_val mm) two53) as [B|B].
  - rewrite (stringToNumber_digits mm Hd) by lia.
    split; [reflexivity|]. rewrite floor_int. apply clamp_int.
  - rewrite (stringToNumber_digits_round mm Hd).
    pose proof (round64_ge_int 59 (inject_Z (digits_val mm))
                  ltac:(unfold two53; lia)) as G.
    assert (L : (inject_Z 59 <= inject_Z (digits_val mm))%Q)
      by (rewrite <- Zle_Qle; unfold two53 in B; lia).
    specialize (G L).
    replace (Z.max 0 (Z.min 59 (digits_val mm))) with 59
      by (unfold two53 in B; lia).
    destruct (round64 (inject_Z (digits_val mm))) as [|[|]|q];
      try discriminate G.
    + split; reflexivity.
    + split; [reflexivity|].
      unfold num_le, int in G. apply Qle_bool_iff in G.
      rewrite floor_Fin, clamp_int. f_equal.
      assert (59 <= Qfloor q).
      { rewrite <- (Qfloor_Z 59). apply Qfloor_resp_le. exact G. }
      lia.
Qed.

Lemma guard_string (c : Z) (r : jsstring) :
  negb (truthy (VStr (c :: r))) || negb (App.is_string (VStr (c :: r))) = false.
Proof. reflexivity. Qed.

(** The hour modulo 24, the minute clamped: the minute may have any
    number of digits. *)
Lemma toMinutes_digits_hour (hh mm : jsstring) :
  digits hh = true -> digits mm = true -> digits_val hh <= two53 ->
  App.toMinutes (VStr (hh ++ App.colon :: mm))
  = Ok (int (digits_val hh mod 24 * 60 + Z.max 0 (Z.min 59 (digits_val mm)))).
Proof.
  intros Hh Hm Bh.
  destruct (digits_inv hh Hh) as (c & r & Eh & Hc & Hallh).
  destruct (digits_inv mm Hm) as (c' & r' & Em & Hc' & Hallm).
  pose proof (digits_val_nonneg hh Hallh) as Nh.
  destruct (minute_digits mm Hm) as [Nm Cm].
  unfold App.toMinutes.
  assert (G : negb (truthy (VStr (hh ++ App.colon :: mm)))
              || negb (App.is_string (VStr (hh ++ App.colon :: mm))) = false).
  { rewrite Eh. reflexivity. }
  rewrite G. cbn [call_split rbind].
  rewrite (split_app App.colon hh mm (digit_not_colon hh Hallh)).
  rewrite (split_no_sep App.colon mm (digit_not_colon mm Hallm)).
  cbn [map].
  rewrite (stringToNumber_digits hh Hh) by lia.
  rewrite Nm. cbn [isNaN int orb].
  rewrite Cm.
  rewrite !floor_int. rewrite num_mod_int by discriminate.
  rewrite Z.rem_mod_nonneg by lia.
  pose proof (Z.mod_pos_bound (digits_val hh) 24 ltac:(lia)) as Hb.
  rewrite num_mul_int by (unfold two53; lia).
  rewrite num_add_int by (unfold two53; lia).
  reflexivity.
Qed.

(** A text that ends with its colon: the empty minute part is read as 0. *)
Lemma toMinutes_empty_minute (hh : jsstring) :
  digits hh = true -> digits_val hh <= two53 ->
  App.toMinutes (VStr (hh ++ [App.colon]))
  = Ok (int (digits_val hh mod 24 * 60)).
Proof.
  intros Hh Bh.
  destruct (digits_inv hh Hh) as (c & r & Eh & Hc & Hallh).
  pose proof (digits_val_nonneg hh Hallh) as Nh.
  unfold App.toMinutes.
  assert (G : negb (truthy (VStr (hh ++ [App.colon])))
              || negb (App.is_string (VStr (hh ++ [App.colon]))) = false).
  { rewrite Eh. reflexivity. }
  rewrite G. cbn [call_split rbind].
  rewrite (split_app App.colon hh [] (digit_not_colon hh Hallh)).
  cbn [split map].
  rewrite (stringToNumber_digits hh Hh) by lia.
  change (stringToNumber []) with (int 0).
  cbn [isNaN int orb].
  rewrite !floor_int. rewrite num_mod_int by discriminate.
  rewrite Z.rem_mod_nonneg by lia.
  pose proof (Z.mod_pos_bound (digits_val hh) 24 ltac:(lia)) as Hb.
  rewrite num_mul_int by (unfold two53; lia).
  rewrite clamp_int.
  rewrite num_add_int by (unfold two53; lia).
  f_equal. f_equal. lia.
Qed.

(** Digits, a colon and digits, of any length, with an hour that
    [Number] reads as a finite number: that number is reduced modulo 24
    and the minute is clamped. *)
Lemma toMinutes_digits_finite (hh mm : jsstring) (q : Q) :
  digits hh = true -> digits mm = true -> stringToNumber hh = Fin q ->
  App.toMinutes (VStr (hh ++ App.colon :: mm))
  = Ok (int (Qfloor q mod 24 * 60 + Z.max 0 (Z.min 59 (digits_val mm))))
  /\ 0 <= Qfloor q.
Proof.
  intros Hh Hm Eq.
  destruct (digits_inv hh Hh) as (c & r & Eh & Hc & Hallh).
  destruct (digits_inv mm Hm) as (c' & r' & Em & Hc' & Hallm).
  destruct (minute_digits mm Hm) as [Nm Cm].
  assert (Hq : (0 <= q)%Q).
  { destruct (stringToNumber_digits_cases hh Hh) as [E|(q' & E & Hq')];
      rewrite Eq in E; [discriminate E|]. injection E as ->. exact Hq'. }
  assert (Hf : 0 <= Qfloor q).
  { rewrite <- (Qfloor_Z 0). apply Qfloor_resp_le. exact Hq. }
  split; [|exact Hf].
  unfold App.toMinutes.
  assert (G : negb (truthy (VStr (hh ++ App.colon :: mm)))
              || negb (App.is_string (VStr (hh ++ App.colon :: mm))) = false).
  { rewrite Eh. reflexivity. }
  rewrite G. cbn [call_split rbind].
  rewrite (split_app App.colon hh mm (digit_not_colon hh Hallh)).
  rewrite (split_no_sep App.colon mm (digit_not_colon mm Hallm)).
  cbn [map]. rewrite Nm, orb_false_r. rewrite Cm. rewrite Eq.
  cbn [isNaN]. rewrite floor_Fin.
  rewrite num_mod_int by discriminate.
  rewrite Z.rem_mod_nonneg by lia.
  pose proof (Z.mod_pos_bound (Qfloor q) 24 ltac:(lia)) as Hb.
  rewrite num_mul_int by (unfold two53; lia).
  rewrite num_add_int by (unfold two53; lia).
  reflexivity.
Qed.


End TimeFacts.

(** * The right side of a band *)

Module EdgeFacts.

Import JS Decide NumFacts Spec CodecFacts LayoutFacts.
Import RoundFacts OrderFacts ShadeFacts FrameFacts.
Local Open Scope Z_scope.

(** The right side [x + w] of a rectangle of width
    [w = Math.max(4, x2 - x1)] whose ends [x1] and [x2] lie between 48
    and [W - 16]: it is at least 52 and at most [W - 12]. *)
Lemma right_side (x1 x2 : num) (W : Z) :
  320 <= W <= two53 ->
  num_le (int 48) x1 = true -> num_le x1 (int (W - 16)) = true ->
  num_le (int 48) x2 = true -> num_le x2 (int (W - 16)) = true ->
  let w := num_max (int 4) (num_sub x2 x1) in
  num_le (int 52) (num_add x1 w) = true
  /\ num_le (num_add x1 w) (int (W - 12)) = true.
Proof.
  intros HW L1 U1 L2 U2 w.
  destruct (finite_between _ _ _ L1 U1) as (q1 & ->).
  destruct (finite_between _ _ _ L2 U2) as (q2 & ->).
  unfold num_le, int in L1, U1, L2, U2.
  apply Qle_bool_iff in L1, U1, L2, U2.
  assert (N : isNaN (num_sub (Fin q2) (Fin q1)) = false)
    by apply isNaN_round64.
  subst w. rewrite (num_max_spec (int 4) _ eq_refl N).
  assert (E12 : (inject_Z (W - 12) == inject_Z (W - 16) + 4)%Q).
  { replace (W - 12) with ((W - 16) + 4) by lia.
    rewrite inject_Z_plus. reflexivity. }
  destruct (num_le (int 4) (num_sub (Fin q2) (Fin q1))) eqn:G.
  - set (k := Qceiling (q2 - q1)).
    pose proof (Qle_ceiling (q2 - q1)) as C1.
    pose proof (Qceiling_lt (q2 - q1)) as C2. fold k in C1, C2.
    assert (Ek : (inject_Z (k - 1) == inject_Z k - 1)%Q).
    { unfold Z.sub. rewrite inject_Z_plus. reflexivity. }
    rewrite Ek in C2.
    assert (Hk : Z.abs k <= two53).
    { assert (Hlo : (inject_Z (- W) <= inject_Z k)%Q).
      { rewrite inject_Z_opp.
        assert ((inject_Z (W - 16) == inject_Z W - 16)%Q).
        { unfold Z.sub. rewrite inject_Z_plus. reflexivity. }
        assert ((0 <= inject_Z W)%Q) by (change 0%Q with (inject_Z 0); rewrite <- Zle_Qle; lia).
        change (inject_Z 48) with 48%Q in *. lra. }
      assert (Hhi : (inject_Z k <= inject_Z W)%Q).
      { assert ((inject_Z (W - 16) == inject_Z W - 16)%Q).
        { unfold Z.sub. rewrite inject_Z_plus. reflexivity. }
        change (inject_Z 48) with 48%Q in *. lra. }
      rewrite <- Zle_Qle in Hlo, Hhi. lia. }
    assert (S : num_le (num_sub (Fin q2) (Fin q1)) (int k) = true).
    { unfold num_sub, num_neg, num_add, fin.
      apply round64_le_int; [exact Hk|].
      rewrite (Qred_correct (- q1)). exact C1. }
    destruct (num_sub (Fin q2) (Fin q1)) as [|[|]|r] eqn:Er;
      try discriminate G; try discriminate S.
    unfold num_le, int in G, S. apply Qle_bool_iff in G, S.
    change (inject_Z 4) with 4%Q in G. change (inject_Z 48) with 48%Q in *.
    unfold num_add. split.
    + apply round64_ge_int; [unfold two53; lia|].
      change (inject_Z 52) with 52%Q. lra.
    + apply round64_le_int; [unfold two53 in *; lia|]. lra.
  - unfold num_add, int. change (inject_Z 48) with 48%Q in *.
    change (inject_Z 4) with 4%Q. split.
    + apply round64_ge_int; [unfold two53; lia|].
      change (inject_Z 52) with 52%Q. lra.
    + apply round64_le_int; [unfold two53 in *; lia|]. lra.
Qed.

(** The right side of a band in a redraw. *)
Lemma band_right_side (st : App.settings) (mn : num) (d : Z) (tk : App.task)
    (idx : nat) (b : App.band) :
  App.paintTask st mn (int d) tk idx = Ok (Some b) ->
  (mn = NaN \/ exists a, mn = int a /\ 0 <= a <= 1439) ->
  60 <= d <= 1440 ->
  App.clientWidth st <= two53 ->
  isNaN (App.b_start b) = false -> isNaN (App.b_end b) = false ->
  exists W,
    App.canvasW st = int W
    /\ num_le (int 52) (App.bandRight b) = true
    /\ num_le (App.bandRight b) (int (W - 12)) = true.
Proof.
  intros E Hmn Hd Hcw Hs He.
  destruct (band_in_frame st mn d tk idx b E Hmn Hd Hcw Hs He)
    as (W & H & y & EW & _ & HW & _ & L1 & U1 & L2 & U2 & _).
  destruct (paintTask_geometry st mn (int d) tk idx b E)
    as (_ & _ & Ew & _).
  destruct (canvasW_value st) as (W' & EW' & _ & HW').
  rewrite EW in EW'. apply int_inj in EW'. subst W'.
  exists W. split; [exact EW|].
  unfold App.bandRight. rewrite Ew.
  apply right_side; try assumption.
  unfold two53 in *. lia.
Qed.

End EdgeFacts.

(** * Exact quotients in the grid *)

Module DivFacts.

Import JS Decide NumFacts Spec CodecFacts.
Import RoundFacts OrderFacts ShadeFacts FrameFacts LoopFacts GridFacts.
Local Open Scope Z_scope.

Lemma Qdiv_le_dyadic (p d n : Z) :
  0 < d -> p * 2048 <= n * d ->
  (inject_Z p / inject_Z d <= inject_Z n / inject_Z (2 ^ 11))%Q.
Proof.
  intros Hd H. destruct d as [|dp|dp]; try lia.
  unfold Qle, Qdiv, Qmult, Qinv, inject_Z. cbn [Qnum Qden].
  change (2 ^ 11) with 2048. cbn [Qnum Qden Pos.mul].
  rewrite !Z.mul_1_r. exact H.
Qed.

(** The floor of a rounded quotient of integers is the integer quotient:
    with a divisor of at most 2048 the exact quotient is too far below
    the next integer for the rounding to reach it. *)
Lemma floor_div_int (p d : Z) :
  0 <= p -> 0 < d <= 2048 -> p / d + 1 < 2 ^ 42 ->
  floor (num_div (int p) (int d)) = int (p / d).
Proof.
  intros Hp Hd Hb.
  set (k := p / d).
  pose proof (Z.div_mod p d ltac:(lia)) as Edm.
  pose proof (Z.mod_pos_bound p d ltac:(lia)) as Hm.
  assert (Hk0 : 0 <= k) by (apply Z.div_pos; lia).
  fold k in Edm, Hb. change (2 ^ 42) with 4398046511104 in Hb.
  unfold num_div, int. rewrite (Qeq_bool_int_0 d) by lia.
  assert (Dpos : (0 < inject_Z d)%Q) by (apply inject_Z_pos; lia).
  assert (L : num_le (int k) (round64 (inject_Z p / inject_Z d)) = true).
  { apply round64_ge_int; [unfold two53; lia|].
    apply Qle_shift_div_l; [exact Dpos|].
    rewrite <- inject_Z_mult. rewrite <- Zle_Qle. nia. }
  assert (U : num_le (round64 (inject_Z p / inject_Z d))
                     (Fin (inject_Z ((k + 1) * 2048 - 1) / inject_Z (2 ^ 11)))
              = true).
  { apply (round64_le_dyadic ((k + 1) * 2048 - 1) 11).
    - unfold two53. lia.
    - lia.
    - reflexivity.
    - apply Qdiv_le_dyadic; [lia|]. nia. }
  destruct (round64 (inject_Z p / inject_Z d)) as [|[|]|r];
    try discriminate L; try discriminate U.
  unfold num_le, int in L, U. apply Qle_bool_iff in L, U.
  unfold floor, int. f_equal. f_equal.
  assert (F1 : k <= Qfloor r).
  { rewrite <- (Qfloor_Z k). apply Qfloor_resp_le. exact L. }
  assert (F2 : Qfloor r < k + 1).
  { apply Z.le_lt_trans with (m := Qfloor (inject_Z ((k + 1) * 2048 - 1) / inject_Z (2 ^ 11))).
    - apply Qfloor_resp_le. exact U.
    - unfold Qfloor, Qdiv, Qmult, Qinv, inject_Z. cbn [Qnum Qden].
      change (2 ^ 11) with 2048. cbn [Qnum Qden Pos.mul].
      rewrite Z.mul_1_r.
      apply Z.div_lt_upper_bound; lia. }
  lia.
Qed.

(** The abscissa of a grid line, without rounding error. *)
Lemma gridX_value (d W i : Z) :
  60 <= d <= 1440 -> 320 <= W <= two32 -> 0 <= i <= 24 ->
  App.gridX (int d) (int W) (int i) = int (i * 60 * (W - 64) / d + 48).
Proof.
  intros Hd HW Hi. unfold App.gridX.
  rewrite num_mul_int by (unfold two53, two32 in *; lia).
  rewrite num_sub_int by (unfold two53, two32 in *; lia).
  rewrite num_mul_int by (unfold two53, two32 in *; nia).
  assert (P0 : 0 <= i * 60 * (W - 64)) by nia.
  assert (Q0 : 0 <= i * 60 * (W - 64) / d <= 24 * 4294967296).
  { split; [apply Z.div_pos; lia|].
    apply Z.div_le_upper_bound; [lia|]. unfold two32 in *. nia. }
  rewrite floor_div_int; [|exact P0|lia|change (2 ^ 42) with 4398046511104; lia].
  rewrite num_add_int by (unfold two53; lia).
  reflexivity.
Qed.

(** The last line, the one numbered [hours], stands at the right end of
    the plot or beyond it. *)
Lemma last_line (d W : Z) :
  60 <= d <= 1440 -> 320 <= W ->
  W - 64 <= (d + 59) / 60 * 60 * (W - 64) / d.
Proof.
  intros Hd HW.
  apply Z.div_le_lower_bound; [lia|].
  assert (d <= (d + 59) / 60 * 60).
  { pose proof (Z.div_mod (d + 59) 60 ltac:(lia)).
    pose proof (Z.mod_pos_bound (d + 59) 60 ltac:(lia)). lia. }
  nia.
Qed.

(** A line inside the span stands inside the plot. *)
Lemma inner_line (d W i : Z) :
  60 <= d <= 1440 -> 320 <= W -> 0 <= i -> 60 * i <= d ->
  0 <= i * 60 * (W - 64) / d <= W - 64.
Proof.
  intros Hd HW Hi Hid. split.
  - apply Z.div_pos; [nia|lia].
  - apply Z.div_le_upper_bound; [lia|]. nia.
Qed.

End DivFacts.

(** * Hex colours with white space around them *)

Module PaddedFacts.

Import JS Decide NumFacts Spec HexFacts CodecFacts.
Import RoundFacts OrderFacts ShadeFacts DraftColorFacts.
Local Open Scope Z_scope.

Lemma ws_not_hex (c : Z) : is_ws c = true -> is_hex_digit c = false.
Proof.
  intros H. destruct (is_hex_digit c) eqn:E; [|reflexivity].
  rewrite (hex_digit_not_ws c E) in H. discriminate H.
Qed.

Lemma span_hex_then_ws (ds post : jsstring) :
  forallb is_hex_digit ds = true -> forallb is_ws post = true ->
  span is_hex_digit (ds ++ post) = (ds, post).
Proof.
  intros Hds Hpost. induction ds as [|c r IH].
  - destruct post as [|x p]; [reflexivity|].
    cbn [forallb] in Hpost. apply andb_true_iff in Hpost.
    cbn [app span]. rewrite (ws_not_hex x (proj1 Hpost)). reflexivity.
  - cbn [forallb] in Hds. apply andb_true_iff in Hds. destruct Hds as [Hc Hr].
    cbn [app span]. rewrite Hc, (IH Hr). reflexivity.
Qed.

(** The second code unit of hexadecimal digits followed by white space
    is not the [x] of a prefix [0x]. *)
Lemma no_prefix (c : Z) (t : jsstring) :
  (forall x r0, t = x :: r0 -> (x =? 120) || (x =? 88) = false) ->
  match c :: t with
  | 48 :: x :: r0 => if (x =? 120) || (x =? 88) then r0 else c :: t
  | _ => c :: t
  end = c :: t.
Proof.
  intros H. destruct t as [|x r0].
  - destruct c as [|p|p]; try reflexivity.
    repeat (destruct p as [p|p|]; try reflexivity).
  - rewrite (H x r0 eq_refl).
    destruct c as [|p|p]; try reflexivity.
    repeat (destruct p as [p|p|]; try reflexivity).
Qed.

(** [parseInt(s, 16)] on hexadecimal digits with white space around
    them. *)
Lemma parseInt16_padded (pre ds post : jsstring) :
  forallb is_ws pre = true -> ds <> [] ->
  forallb is_hex_digit ds = true -> forallb is_ws post = true ->
  radix_val 16 ds <= two53 ->
  parseInt16 (pre ++ ds ++ post) = int (radix_val 16 ds).
Proof.
  intros Hpre Hne Hall Hpost Hb.
  pose proof (radix16_bound ds Hall) as [H0 _].
  unfold parseInt16. rewrite (dropWhile_app_all is_ws pre _ Hpre).
  destruct ds as [|c r]; [congruence|].
  pose proof Hall as Hall'.
  cbn [forallb] in Hall'. apply andb_true_iff in Hall'.
  destruct Hall' as [Hc Hr].
  pose proof (hex_digit_range c Hc) as Rc.
  cbn [app dropWhile]. rewrite (hex_digit_not_ws c Hc).
  destruct (Z.eqb_spec c 45); [lia|]. destruct (Z.eqb_spec c 43); [lia|].
  rewrite no_prefix.
  - change (c :: r ++ post) with ((c :: r) ++ post).
    rewrite (span_hex_then_ws (c :: r) post Hall Hpost). cbn [fst].
    apply round64_int; [reflexivity | lia].
  - intros x r0 E. destruct r as [|y r'].
    + cbn [app] in E. subst post. cbn [forallb] in Hpost.
      apply andb_true_iff in Hpost. destruct Hpost as [Hx _].
      destruct (Z.eqb_spec x 120) as [->|]; [discriminate Hx|].
      destruct (Z.eqb_spec x 88) as [->|]; [discriminate Hx|]. reflexivity.
    + cbn [app] in E. injection E as <- _.
      cbn [forallb] in Hr. apply andb_true_iff in Hr. destruct Hr as [Hy _].
      pose proof (hex_digit_range y Hy) as Ry.
      destruct (Z.eqb_spec y 120); [lia|]. destruct (Z.eqb_spec y 88); [lia|].
      reflexivity.
Qed.

(** The draft on six hexadecimal digits after a [#], with white space
    around them. *)
Lemma draft_hexToRgb_six (pre post : jsstring) (a1 a2 b1 b2 c1 c2 : Z) :
  forallb is_ws pre = true -> forallb is_ws post = true ->
  forallb is_hex_digit [a1; a2; b1; b2; c1; c2] = true ->
  Draft.hexToRgb (VStr (pre ++ (35 :: [a1; a2; b1; b2; c1; c2]) ++ post))
  = Ok (rgbOf (pairVal a1 a2) (pairVal b1 b2) (pairVal c1 c2)).
Proof.
  intros Hpre Hpost Hds. unfold Draft.hexToRgb.
  change ((35 :: [a1; a2; b1; b2; c1; c2]) ++ post)
    with (35 :: ([a1; a2; b1; b2; c1; c2] ++ post)).
  rewrite (removeFirst_prefix pre _ Hpre).
  assert (L : (length (pre ++ [a1; a2; b1; b2; c1; c2] ++ post) =? 3)%nat
              = false).
  { apply Nat.eqb_neq. rewrite !length_app. cbn [length]. lia. }
  rewrite L.
  pose proof (radix16_bound _ Hds) as B. cbn [length] in B.
  change (16 ^ Z.of_nat 6) with 16777216 in B.
  rewrite parseInt16_padded;
    [|exact Hpre|discriminate|exact Hds|exact Hpost|unfold two53; lia].
  destruct (six_digits a1 a2 b1 b2 c1 c2 Hds) as [_ E]. cbv zeta in E.
  rewrite parseInt16_hex in E;
    [|discriminate|exact Hds|unfold two53; lia].
  rewrite E. reflexivity.
Qed.

(** The draft on three hexadecimal digits after a [#] with white space
    before or after: the text is longer than three code units, the
    digits are not doubled, and the three of them are read as one
    number below 4096. *)
Lemma draft_hexToRgb_three (pre post : jsstring) (a b c : Z) :
  forallb is_ws pre = true -> forallb is_ws post = true ->
  forallb is_hex_digit [a; b; c] = true ->
  pre ++ post <> [] ->
  Draft.hexToRgb (VStr (pre ++ (35 :: [a; b; c]) ++ post))
  = Ok (rgbOf 0 (hex_val a) (pairVal b c)).
Proof.
  intros Hpre Hpost Hds Hne. unfold Draft.hexToRgb.
  change ((35 :: [a; b; c]) ++ post) with (35 :: ([a; b; c] ++ post)).
  rewrite (removeFirst_prefix pre _ Hpre).
  assert (L : (length (pre ++ [a; b; c] ++ post) =? 3)%nat = false).
  { apply Nat.eqb_neq. rewrite !length_app. cbn [length].
    destruct pre; [destruct post; [exfalso; apply Hne; reflexivity|]|];
      cbn [length]; lia. }
  rewrite L.
  pose proof (radix16_bound _ Hds) as B. cbn [length] in B.
  change (16 ^ Z.of_nat 3) with 4096 in B.
  rewrite parseInt16_padded;
    [|exact Hpre|discriminate|exact Hds|exact Hpost|unfold two53; lia].
  rewrite channels_of_int by (unfold two31; lia).
  cbn [forallb] in Hds.
  repeat (apply andb_true_iff in Hds; destruct Hds as [? Hds]).
  repeat match goal with
         | Hd : is_hex_digit ?c = true |- _ =>
             pose proof (hex_val_range c Hd); clear Hd
         end.
  unfold radix_val, pairVal. cbn [fold_left].
  unfold rgbOf. f_equal. f_equal; f_equal; Z.div_mod_to_equations; lia.
Qed.

(** [parseInt(s, 16)] on a text that starts with a code unit that is
    neither white space, nor a sign, nor a hexadecimal digit. *)
Lemma parseInt16_no_digit (c : Z) (r : jsstring) :
  is_ws c = false -> is_hex_digit c = false -> c <> 45 -> c <> 43 ->
  parseInt16 (c :: r) = NaN.
Proof.
  intros Hw Hh H45 H43. unfold parseInt16. cbn [dropWhile]. rewrite Hw.
  destruct (Z.eqb_spec c 45); [congruence|].
  destruct (Z.eqb_spec c 43); [congruence|].
  assert (Hv : match c :: r with
               | 48 :: x :: r0 => if (x =? 120) || (x =? 88) then r0 else c :: r
               | _ => c :: r
               end = c :: r).
  { destruct (Z.eq_dec c 48) as [->|N48]; [discriminate Hh|].
    destruct c as [|p|p]; try reflexivity.
    do 6 (destruct p as [p|p|]; try reflexivity). congruence. }
  rewrite Hv. cbn [span]. rewrite Hh. reflexivity.
Qed.

Lemma ws_not_terminator (c : Z) :
  is_ws c = false -> is_line_terminator c = false.
Proof.
  intros H. unfold is_line_terminator.
  destruct (Z.eqb_spec c 10) as [->|]; [discriminate H|].
  destruct (Z.eqb_spec c 13) as [->|]; [discriminate H|].
  destruct (Z.eqb_spec c 8232) as [->|]; [discriminate H|].
  destruct (Z.eqb_spec c 8233) as [->|]; [discriminate H|].
  reflexivity.
Qed.

Lemma doubleEach_head (c : Z) (r : jsstring) :
  is_ws c = false -> doubleEach (c :: r) = c :: c :: doubleEach r.
Proof.
  intros H. unfold doubleEach. cbn [flat_map].
  rewrite (ws_not_terminator c H). reflexivity.
Qed.

Lemma dropWhile_last (p : Z -> bool) (l : jsstring) (c : Z) :
  p c = false -> exists l', dropWhile p (l ++ [c]) = l' ++ [c].
Proof.
  intros Hc. induction l as [|x r IH].
  - exists []. cbn. rewrite Hc. reflexivity.
  - cbn [app dropWhile]. destruct (p x).
    + exact IH.
    + exists (x :: r). reflexivity.
Qed.

Lemma trim_head (c : Z) (r : jsstring) :
  is_ws c = false -> exists t, trim (c :: r) = c :: t.
Proof.
  intros Hc. unfold trim. cbn [dropWhile]. rewrite Hc. cbn [rev].
  destruct (dropWhile_last is_ws (rev r) c Hc) as (l' & E).
  rewrite E. rewrite rev_app_distr. cbn [rev app]. eauto.
Qed.

(** On a text that starts with such a code unit the draft answers black
    and the application white. *)
Lemma hexToRgb_no_digit (c : Z) (r : jsstring) :
  is_ws c = false -> is_hex_digit c = false ->
  c <> 45 -> c <> 43 -> c <> 35 ->
  Draft.hexToRgb (VStr (c :: r)) = Ok (rgbOf 0 0 0)
  /\ App.hexToRgb (VStr (c :: r)) = rgbOf 255 255 255.
Proof.
  intros Hw Hh H45 H43 H35. split.
  - unfold Draft.hexToRgb. cbn [removeFirst].
    destruct (Z.eqb_spec c 35); [congruence|].
    assert (E : parseInt16
                  (if (length (c :: removeFirst 35 r) =? 3)%nat
                   then doubleEach (c :: removeFirst 35 r)
                   else c :: removeFirst 35 r) = NaN).
    { destruct (length (c :: removeFirst 35 r) =? 3)%nat.
      - rewrite (doubleEach_head c _ Hw).
        apply parseInt16_no_digit; assumption.
      - apply parseInt16_no_digit; assumption. }
    rewrite E. reflexivity.
  - unfold App.hexToRgb.
    assert (Ene : or_else (VStr (c :: r)) (VStr []) = VStr (c :: r))
      by reflexivity.
    rewrite Ene. cbn [toString removeFirst].
    destruct (Z.eqb_spec c 35); [congruence|].
    destruct (trim_head c (removeFirst 35 r) Hw) as (t & ->).
    assert (E : parseInt16
                  (if (length (c :: t) =? 3)%nat
                   then doubleEach (c :: t) else c :: t) = NaN).
    { destruct (length (c :: t) =? 3)%nat.
      - rewrite (doubleEach_head c _ Hw).
        apply parseInt16_no_digit; assumption.
      - apply parseInt16_no_digit; assumption. }
    rewrite E. reflexivity.
Qed.

End PaddedFacts.

(** * The claims *)

Import JS Decide Examples NumFacts Spec HexFacts CodecFacts ColorFacts.
Import SortFacts LayoutFacts DraftFacts.
Local Open Scope Z_scope.

Lemma normalize_idempotent_int (x : jsstring) (z : Z) :
  App.toMinutes (VStr x) = Ok (int z) ->
  rbind (normalize x) normalize = normalize x.
Proof.
  intros H. unfold normalize at 1 3. rewrite H. simpl.
  unfold normalize. rewrite fromMinutes_int.
  pose proof (Z.mod_pos_bound z 1440 ltac:(lia)) as Hn.
  rewrite <- (Z.mod_mod z 1440) at 1 2 by lia.
  rewrite <- fromMinutes_int.
  rewrite roundtrip_minutes by exact Hn. simpl.
  rewrite !fromMinutes_int. rewrite Z.mod_mod by lia. reflexivity.
Qed.

(** C1. The time codec round-trips: parsing the rendering of the minute
    [h*60+m] gives that minute back for every hour [h] in [0,23] and
    minute [m] in [0,59]; and rendering after parsing is idempotent on
    every text of the shape HH:MM. *)
Theorem time_codec_round_trip :
  (forall h m : Z, 0 <= h <= 23 -> 0 <= m <= 59 ->
     App.toMinutes (VStr (App.fromMinutes (int (h * 60 + m))))
     = Ok (int (h * 60 + m)))
  /\ (forall x : jsstring, timeText x = true ->
        rbind (normalize x) normalize = normalize x).
Proof.
  split.
  - intros h m Hh Hm. apply roundtrip_minutes.
    apply (hour_minute_index h m Hh Hm).
  - intros x Hx. eapply normalize_idempotent_int.
    apply toMinutes_timeText. exact Hx.
Qed.

Lemma time_codec_round_trip_witness :
  App.toMinutes (VStr (App.fromMinutes (int (9 * 60 + 30)))) = Ok (int (9 * 60 + 30))
  /\ rbind (normalize (lit "25:70")) normalize = normalize (lit "25:70").
Proof.
  split.
  - apply (proj1 time_codec_round_trip 9 30); lia.
  - apply (proj2 time_codec_round_trip (lit "25:70")). reflexivity.
Defined.

(** C2, as the claim is worded, fails.  A text that ends with its
    colon is missing its minute part, and [toMinutes] does not answer 0
    on it: the empty part is read as 0, and 12: gives 720.  And a
    well-formed text whose hour is four hundred digits long gives [NaN],
    not a minute of the day. *)
Lemma toMinutes_reads_an_empty_minute :
  missingMinute (lit "12:") = true
  /\ App.toMinutes (VStr (lit "12:")) = Ok (int 720)
  /\ int 720 <> int 0
  /\ digits (repeat 57 400) = true
  /\ digits (lit "00") = true
  /\ App.toMinutes (VStr (repeat 57 400 ++ App.colon :: lit "00")) = Ok NaN.
Proof.
  split; [reflexivity|]. split; [vm_compute; reflexivity|].
  split; [discriminate|]. split; [vm_compute; reflexivity|].
  split; [reflexivity|]. vm_compute. reflexivity.
Qed.

(** C2, amended.  [toMinutes] fails soft: it never raises, and it
    returns 0 on a value that is not a string, on the empty string, on a
    text with no colon (non-numeric text such as abc, a text with no
    minute part such as 9) and on a text whose hour or minute part
    [Number] maps to [NaN].  A part that is there but empty is read as 0:
    digits and a colon give the hour alone, so that 12: gives 720.  On a
    well-formed text, digits, a colon and digits, whose hour [Number]
    reads as a finite number, that number is reduced modulo 24 and the
    minute is clamped to [0,59]; an hour of at most 2^53 is read as it is
    written. *)
Theorem toMinutes_fails_soft :
  (forall v : value, exists n : num, App.toMinutes v = Ok n)
  /\ (forall v : value, unreadable v -> App.toMinutes v = Ok (int 0))
  /\ (forall hh : jsstring,
        digits hh = true -> digits_val hh <= two53 ->
        App.toMinutes (VStr (hh ++ [App.colon]))
        = Ok (int (digits_val hh mod 24 * 60)))
  /\ (forall (hh mm : jsstring) (q : Q),
        digits hh = true -> digits mm = true ->
        stringToNumber hh = Fin q ->
        App.toMinutes (VStr (hh ++ App.colon :: mm))
        = Ok (int (Qfloor q mod 24 * 60
                   + Z.max 0 (Z.min 59 (digits_val mm)))))
  /\ (forall hh mm : jsstring,
        digits hh = true -> digits mm = true ->
        digits_val hh <= two53 ->
        App.toMinutes (VStr (hh ++ App.colon :: mm))
        = Ok (int (digits_val hh mod 24 * 60
                   + Z.max 0 (Z.min 59 (digits_val mm))))).
Proof.
  split; [exact toMinutes_total|]. split; [exact toMinutes_unreadable|].
  split; [exact TimeFacts.toMinutes_empty_minute|].
  split; [|exact TimeFacts.toMinutes_digits_hour].
  intros hh mm q Hh Hm Eq.
  exact (proj1 (TimeFacts.toMinutes_digits_finite hh mm q Hh Hm Eq)).
Qed.

Lemma toMinutes_fails_soft_witness :
  App.toMinutes VUndefined = Ok (int 0)
  /\ App.toMinutes (VStr (lit "abc")) = Ok (int 0)
  /\ App.toMinutes (VStr (lit "9")) = Ok (int 0)
  /\ App.toMinutes (VStr (lit "ab:cd")) = Ok (int 0)
  /\ App.toMinutes (VStr (lit "12:")) = Ok (int 720)
  /\ App.toMinutes (VStr (lit "9007199254740993:00")) = Ok (int 480)
  /\ App.toMinutes (VStr (lit "25:70")) = Ok (int 119).
Proof.
  pose proof toMinutes_fails_soft as (_ & Hbad & Hempty & Hfin & Hgood).
  split; [|split; [|split; [|split; [|split; [|split]]]]].
  - apply Hbad. apply unr_not_string. reflexivity.
  - apply Hbad. apply unr_no_colon. vm_compute. intuition discriminate.
  - apply Hbad. apply unr_no_colon. vm_compute. intuition discriminate.
  - apply Hbad. apply (unr_hour (lit "ab") (lit "cd")).
    + vm_compute. intuition discriminate.
    + vm_compute. reflexivity.
  - apply (Hempty (lit "12")); [reflexivity | vm_compute; discriminate].
  - apply (Hfin (lit "9007199254740993") (lit "00")
                (inject_Z 9007199254740992));
      vm_compute; reflexivity.
  - apply (Hgood (lit "25") (lit "70")); try reflexivity; vm_compute;
      discriminate.
Defined.

(** C3. [fromMinutes] brings every integer number of minutes, negative
    ones included, into [0,1440) by its double remainder and renders the
    result as two digits, a colon and two digits; [fromMinutes(-30)] is
    the text 23:30. *)
Theorem fromMinutes_normalizes :
  (forall z : Z,
     floor (num_mod (num_add (num_mod (int z) App.dayMinutes) App.dayMinutes)
                    App.dayMinutes) = int (z mod 1440)
     /\ 0 <= z mod 1440 < 1440
     /\ App.fromMinutes (int z) = hhmm (z mod 1440 / 60) ((z mod 1440) mod 60)
     /\ timeText (App.fromMinutes (int z)) = true)
  /\ App.fromMinutes (int (-30)) = lit "23:30".
Proof.
  split; [|vm_compute; reflexivity].
  intros z. pose proof (Z.mod_pos_bound z 1440 ltac:(lia)) as Hn.
  rewrite dayMinutes_eq. split; [apply safe_minutes|]. split; [exact Hn|].
  split; [apply fromMinutes_int|].
  rewrite fromMinutes_int.
  pose proof (Z.mod_pos_bound (z mod 1440) 60 ltac:(lia)) as Hm.
  assert (Hq : 0 <= z mod 1440 / 60 < 24).
  { split; [apply Z.div_pos; lia | apply Z.div_lt_upper_bound; lia]. }
  set (h := z mod 1440 / 60) in *. set (m := (z mod 1440) mod 60) in *.
  assert (Hh10 : 0 <= h / 10 <= 9 /\ 0 <= h mod 10 <= 9).
  { pose proof (Z.mod_pos_bound h 10 ltac:(lia)).
    split; [|lia]. split; [apply Z.div_pos; lia|].
    apply Z.lt_succ_r. apply Z.div_lt_upper_bound; lia. }
  assert (Hm10 : 0 <= m / 10 <= 9 /\ 0 <= m mod 10 <= 9).
  { pose proof (Z.mod_pos_bound m 10 ltac:(lia)).
    split; [|lia]. split; [apply Z.div_pos; lia|].
    apply Z.lt_succ_r. apply Z.div_lt_upper_bound; lia. }
  unfold hhmm, timeText, is_digit.
  rewrite Z.eqb_refl.
  repeat (apply andb_true_iff; split); try reflexivity; apply Z.leb_le; lia.
Qed.

(** C4. Whatever the stored day window, the span of the layout is an
    integer between 60 and 1440: when the end is not after the start the
    span is the fallback of 60 minutes, and the division by the span in
    [xOf] is a division of reals by that integer. *)
Theorem daySpan_at_least_60 :
  (forall st : App.settings,
     exists (mn mx : num) (d : Z),
       App.minDay st = Ok mn /\ App.maxDay st = Ok mx
       /\ App.daySpan st = Ok (int d) /\ 60 <= d <= 1440
       /\ (num_gt mx mn = false -> d = 60)
       /\ (forall x : Q,
             num_div (Fin x) (int d) = round64 (x / inject_Z d)))
  /\ App.daySpan window_10_9 = Ok (int 60).
Proof.
  split; [|vm_compute; reflexivity].
  intros st. destruct (daySpan_range st) as (mn & mx & d & H1 & H2 & H3 & H4 & H5).
  exists mn, mx, d. repeat (split; [assumption|]).
  intros x. unfold num_div, int. rewrite Qeq_bool_int_0 by lia. reflexivity.
Qed.

Lemma daySpan_at_least_60_witness :
  exists d : Z, App.daySpan window_10_9 = Ok (int d) /\ d = 60.
Proof.
  destruct (proj1 daySpan_at_least_60 window_10_9)
    as (mn & mx & d & Hmn & Hmx & Hd & _ & Hfall & _).
  exists d. split; [exact Hd|]. apply Hfall.
  vm_compute in Hmn. vm_compute in Hmx.
  injection Hmn as <-. injection Hmx as <-. reflexivity.
Defined.

(** The part of the skip rule that the code keeps: in a redraw, a task
    whose end, clamped into the day window, is not after its clamped
    start gets no band; every other task gets one, which carries the
    index of the task in [sorted].  The task from 10:00 to 09:00 in the
    window 06:00-22:00 leaves the canvas empty. *)
Theorem skipped_tasks_are_not_painted :
  (forall (st : App.settings) (tasks : nat) (w : App.world) (l : list nat),
     nth_error (App.arrays w) tasks = Some l ->
     validRefs (App.objects w) l ->
     exists (w' : App.world) (mn span : num) (sortedRefs : list nat),
       App.redraw st tasks w = Ok (tt, w')
       /\ App.minDay st = Ok mn /\ App.daySpan st = Ok span
       /\ nth_error (App.arrays w') (length (App.arrays w)) = Some sortedRefs
       /\ Permutation l sortedRefs
       /\ forall (i r : nat) (tk : App.task) (ts te : num),
            nth_error sortedRefs i = Some r ->
            nth_error (App.objects w) r = Some tk ->
            App.toMinutes (App.start tk) = Ok ts ->
            App.toMinutes (App.end_ tk) = Ok te ->
            (num_le (App.clamp te mn (num_add mn span))
                    (App.clamp ts mn (num_add mn span)) = true ->
             forall b, In b (App.canvas w') -> App.b_index b <> i)
            /\ (num_le (App.clamp te mn (num_add mn span))
                       (App.clamp ts mn (num_add mn span)) = false ->
                exists b, In b (App.canvas w')
                          /\ App.b_index b = i /\ App.b_task b = tk))
  /\ App.redraw window_6_22 0 backwards_world
     = Ok (tt, App.World [backwards_task] [[0%nat]; [0%nat]] []).
Proof.
  split; [|vm_compute; reflexivity].
  intros st tasks w l El Hv.
  destruct (redraw_spec st tasks w l El Hv)
    as (mn & span & l' & bs & Emn & Esp & Es & Pl & Er & Hin).
  exists (App.World (App.objects w) (App.arrays w ++ [l']) bs), mn, span, l'.
  split; [exact Er|]. split; [exact Emn|]. split; [exact Esp|].
  split; [apply nth_error_app_last|]. split; [exact Pl|].
  intros i r tk ts te Hi Hr Ets Ete. cbn [App.canvas]. split.
  - intros Le b Hb Eb. apply Hin in Hb.
    destruct Hb as (i' & r' & tk' & Hi' & Hr' & Hp).
    destruct (paintTask_band st mn span tk' i' b Hp)
      as (_ & _ & _ & _ & _ & _ & _ & Eidx & _).
    rewrite Eb in Eidx. subst i'.
    rewrite Hi in Hi'. injection Hi' as <-.
    rewrite Hr in Hr'. injection Hr' as <-.
    rewrite (paintTask_skips st mn span tk i ts te Ets Ete Le) in Hp.
    discriminate Hp.
  - intros Le.
    destruct (paintTask_paints st mn span tk i ts te Ets Ete Le) as [b Hp].
    exists b.
    destruct (paintTask_band st mn span tk i b Hp)
      as (_ & _ & _ & _ & _ & _ & _ & Eidx & Etk & _).
    split; [|split; assumption].
    apply Hin. exists i, r, tk. auto.
Qed.

Lemma skipped_tasks_are_not_painted_witness :
  exists w' : App.world,
    App.redraw window_6_22 0 backwards_world = Ok (tt, w')
    /\ forall b, In b (App.canvas w') -> App.b_index b <> 0%nat.
Proof.
  destruct (proj1 skipped_tasks_are_not_painted window_6_22 0%nat
              backwards_world [0%nat] eq_refl)
    as (w' & mn & span & refs & Er & Emn & Esp & Eref & _ & Hskip).
  { repeat constructor. exists backwards_task. reflexivity. }
  exists w'. split; [exact Er|].
  vm_compute in Emn. injection Emn as <-.
  vm_compute in Esp. injection Esp as <-.
  vm_compute in Er. injection Er as <-.
  vm_compute in Eref. injection Eref as <-.
  apply (proj1 (Hskip 0%nat 0%nat backwards_task (int 600) (int 540)
                  eq_refl eq_refl eq_refl eq_refl)).
  reflexivity.
Defined.


(** C6. Row packing: [sorted] is a permutation of the task list; when
    the start times are numbers it is in ascending order of start time
    and tasks with the same start time keep their order (the sort is
    stable); the band of the task at index [i] of [sorted] is on row
    [i mod maxRows]; and [maxRows] is the floor of the usable height over
    row height plus gap, which is at least 1. *)
Theorem row_packing :
  forall (st : App.settings) (tasks : nat) (w : App.world) (l : list nat),
    nth_error (App.arrays w) tasks = Some l ->
    validRefs (App.objects w) l ->
    exists (w' : App.world) (sortedRefs : list nat) (U R : Z),
      App.redraw st tasks w = Ok (tt, w')
      /\ nth_error (App.arrays w') (length (App.arrays w)) = Some sortedRefs
      /\ Permutation l sortedRefs
      /\ (forall key : nat -> Z,
            (forall r tk, In r l -> nth_error (App.objects w) r = Some tk ->
                          App.toMinutes (App.start tk) = Ok (int (key r))) ->
            StronglySorted (fun r1 r2 => key r1 <= key r2) sortedRefs
            /\ forall k : Z,
                 filter (fun r => key r =? k) sortedRefs
                 = filter (fun r => key r =? k) l)
      /\ App.usableHeight (App.canvasH st) = int U
      /\ num_add App.rowHeight App.gaps = int 34
      /\ App.maxRows (App.canvasH st) = int R
      /\ R = U / 34 /\ 1 <= R
      /\ (forall b : App.band, In b (App.canvas w') ->
            (exists r, nth_error sortedRefs (App.b_index b) = Some r
                       /\ nth_error (App.objects w) r = Some (App.b_task b))
            /\ App.b_row b = int (Z.of_nat (App.b_index b) mod R)
            /\ App.b_y b = int (64 + (Z.of_nat (App.b_index b) mod R) * 34)).
Proof.
  intros st tasks w l El Hv.
  destruct (redraw_spec st tasks w l El Hv)
    as (mn & span & l' & bs & Emn & Esp & Es & Pl & Er & Hin).
  destruct (canvasH_range st) as (H & EH & HH).
  destruct (maxRows_value H HH) as [ER HR].
  exists (App.World (App.objects w) (App.arrays w ++ [l']) bs), l',
    (Z.max 120 (H - 160)), (Z.max 120 (H - 160) / 34).
  cbn [App.objects App.arrays App.canvas].
  split; [exact Er|]. split; [apply nth_error_app_last|]. split; [exact Pl|].
  split; [|split; [|split; [|split; [|split; [|split]]]]].
  - intros key Hkey.
    apply (sort_keyed (App.viaRefs (App.objects w) App.byStart)
             (fun r => In r l /\ exists tk, nth_error (App.objects w) r = Some tk)
             key).
    + intros x y [Hx [tx Ex]] [Hy [ty Ey]].
      unfold App.viaRefs. rewrite Ex, Ey. unfold App.byStart.
      pose proof (Hkey x tx Hx Ex) as Kx. pose proof (Hkey y ty Hy Ey) as Ky.
      rewrite Kx, Ky. cbn [rbind].
      destruct (toMinutes_range (App.start tx)) as (nx & Enx & Rx).
      destruct (toMinutes_range (App.start ty)) as (ny & Eny & Ry).
      rewrite Kx in Enx. injection Enx as <-.
      rewrite Ky in Eny. injection Eny as <-.
      destruct Rx as [Rx|(zx & Rx & Bx)]; [discriminate Rx|].
      destruct Ry as [Ry|(zy & Ry & By)]; [discriminate Ry|].
      apply int_inj in Rx. apply int_inj in Ry. subst zx zy.
      rewrite num_sub_int by (unfold two53; lia). reflexivity.
    + unfold validRefs in Hv. rewrite Forall_forall in Hv.
      apply Forall_forall. intros r Hr. split; [exact Hr|]. apply Hv. exact Hr.
    + exact Es.
  - rewrite EH. unfold App.usableHeight.
    rewrite num_sub_int by (unfold two53; lia). apply num_max_int.
  - reflexivity.
  - rewrite EH. exact ER.
  - reflexivity.
  - exact HR.
  - intros b Hb. apply Hin in Hb. destruct Hb as (i & r & tk & Hi & Hr & Hp).
    destruct (paintTask_band st mn span tk i b Hp)
      as (ts & te & _ & _ & _ & _ & _ & Eidx & Etk & Erow & Ey & _).
    rewrite Eidx, Etk. split; [exists r; auto|].
    assert (Erow' : App.b_row b
                    = int (Z.of_nat i mod (Z.max 120 (H - 160) / 34))).
    { rewrite Erow, EH, ER. rewrite num_mod_int by lia.
      rewrite Z.rem_mod_nonneg by lia. reflexivity. }
    split; [exact Erow'|].
    rewrite Ey, Erow'.
    pose proof (Z.mod_pos_bound (Z.of_nat i) (Z.max 120 (H - 160) / 34)
                  ltac:(lia)) as Hm.
    assert (HRu : Z.max 120 (H - 160) / 34 <= 1040).
    { apply Z.div_le_upper_bound; lia. }
    change (num_add App.rowHeight App.gaps) with (int 34).
    rewrite num_mul_int by (unfold two53; nia).
    rewrite num_add_int by (unfold two53; nia). reflexivity.
Qed.

Lemma row_packing_witness :
  exists (w' : App.world),
    App.redraw window_6_22 0 three_world = Ok (tt, w')
    /\ nth_error (App.arrays w') 1 = Some [1%nat; 2%nat; 0%nat]
    /\ StronglySorted (fun r1 r2 => three_key r1 <= three_key r2)
                      [1%nat; 2%nat; 0%nat]
    /\ List.map App.b_row (App.canvas w') = [int 0; int 1; int 2].
Proof.
  destruct (row_packing window_6_22 0%nat three_world
              [0%nat; 1%nat; 2%nat] eq_refl)
    as (w' & refs & U & R & Er & Eref & _ & Hsort & _).
  { repeat constructor; eexists; reflexivity. }
  exists w'. split; [exact Er|].
  assert (Erefs : refs = [1%nat; 2%nat; 0%nat]).
  { assert (Er' := Er). vm_compute in Er'. injection Er' as <-.
    vm_compute in Eref. injection Eref as <-. reflexivity. }
  subst refs.
  split; [exact Eref|]. split.
  - apply (Hsort three_key).
    intros r tk Hr Etk.
    destruct Hr as [<-|[<-|[<-|[]]]]; vm_compute in Etk;
      injection Etk as <-; vm_compute; reflexivity.
  - vm_compute in Er. injection Er as <-. reflexivity.
Defined.

(** C7. [hashColor] is deterministic: two runs on the same label end
    with the same outcome; every label, the empty and the undefined one
    included, gets a colour of the palettes and nothing is raised; an
    undefined label is treated as the empty string. *)
Theorem hashColor_deterministic :
  (forall (s : value) (c1 c2 : result value),
      App.hashColorRuns s c1 -> App.hashColorRuns s c2 -> c1 = c2)
  /\ (forall s : value, exists c : jsstring,
        App.hashColorRuns s (Ok (VStr c))
        /\ App.hashColor s = Ok (VStr c)
        /\ In c (concat App.palettes))
  /\ App.hashColor VUndefined = App.hashColor (VStr [])
  /\ App.hashColor VNull = App.hashColor (VStr []).
Proof.
  split; [|split; [|split; reflexivity]].
  - intros s c1 c2 (h1 & R1 & ->) (h2 & R2 & ->).
    rewrite (loopRuns_deterministic _ _ _ _ R1 R2). reflexivity.
  - intros s. destruct (hashColor_color s) as (pal & c & Hp & Hc & E).
    exists c. split; [|split; [exact E|]].
    + rewrite <- E. apply hashColorRuns_hashColor.
    + apply in_concat. exists pal. auto.
Qed.

Lemma hashColor_deterministic_witness :
  App.hashColorRuns (VStr (lit "Deep Work")) (App.hashColor (VStr (lit "Deep Work")))
  /\ App.hashColor (VStr (lit "Deep Work")) = Ok (VStr (lit "#FFD166")).
Proof.
  split; [apply hashColorRuns_hashColor|].
  apply (proj1 hashColor_deterministic (VStr (lit "Deep Work"))).
  - apply hashColorRuns_hashColor.
  - destruct (proj1 (proj2 hashColor_deterministic) (VStr (lit "Deep Work")))
      as (c & R & E & _).
    vm_compute in E. injection E as <-. exact R.
Defined.

(** C8, as the specification words it, fails: three hexadecimal digits
    without the [#] fit the wording, and [isValidHex] rejects them. *)
Lemma isValidHex_requires_hash :
  hexAfterOptionalHash (lit "fff") = true
  /\ App.isValidHex (VStr (lit "fff")) = false
  /\ hexAfterOptionalHash (lit "ffffff") = true
  /\ App.isValidHex (VStr (lit "ffffff")) = false.
Proof. repeat split. Qed.

(** C8, amended. [isValidHex] is true exactly for a string that, once
    the white space around it is trimmed, is a [#] followed by three or by
    six hexadecimal digits.  It accepts [#fff] and [#ffffff]; it rejects
    [fff], [ffffff], [red], [#ff], the empty string and every value that
    is not a string. *)
Theorem isValidHex_exactly :
  (forall v : value,
     App.isValidHex v = true <->
     exists s pre ds post : jsstring,
       v = VStr s /\ s = pre ++ (35 :: ds) ++ post
       /\ forallb is_ws pre = true /\ forallb is_ws post = true
       /\ forallb is_hex_digit ds = true
       /\ (length ds = 3 \/ length ds = 6)%nat)
  /\ App.isValidHex (VStr (lit "#fff")) = true
  /\ App.isValidHex (VStr (lit "#ffffff")) = true
  /\ App.isValidHex (VStr (lit "fff")) = false
  /\ App.isValidHex (VStr (lit "ffffff")) = false
  /\ App.isValidHex (VStr (lit "red")) = false
  /\ App.isValidHex (VStr (lit "#ff")) = false
  /\ App.isValidHex (VStr []) = false
  /\ (forall v : value, App.is_string v = false -> App.isValidHex v = false).
Proof.
  split; [exact isValidHex_iff|].
  repeat (split; [reflexivity|]).
  intros v Hv. destruct v; try reflexivity. discriminate Hv.
Qed.

Lemma isValidHex_exactly_witness :
  App.isValidHex (VStr (lit " #0aF ")) = true
  /\ App.isValidHex VUndefined = false.
Proof.
  split.
  - apply (proj1 isValidHex_exactly (VStr (lit " #0aF "))).
    exists (lit " #0aF "), [32], (lit "0aF"), [32].
    repeat split. left. reflexivity.
  - apply (proj2 (proj2 (proj2 (proj2 (proj2 (proj2 (proj2 (proj2 isValidHex_exactly)))))))).
    reflexivity.
Defined.

(** C9. In a redraw, the band of a task whose stored colour is absent or
    is not a valid hex colour (one that [isValidHex] rejects) is painted
    with [hashColor(title)], a valid stored colour is painted as it is,
    and the store is left as it was: every task record and every array
    that existed before, the task list among them, is unchanged. *)
Theorem redraw_substitutes_without_mutation :
  forall (st : App.settings) (tasks : nat) (w : App.world) (l : list nat),
    nth_error (App.arrays w) tasks = Some l ->
    validRefs (App.objects w) l ->
    exists w' : App.world,
      App.redraw st tasks w = Ok (tt, w')
      /\ App.objects w' = App.objects w
      /\ nth_error (App.arrays w') tasks = Some l
      /\ (forall a : nat, (a < length (App.arrays w))%nat ->
            nth_error (App.arrays w') a = nth_error (App.arrays w) a)
      /\ (forall b : App.band, In b (App.canvas w') ->
            In (App.b_task b) (App.objects w)
            /\ (App.isValidHex (App.color (App.b_task b)) = false ->
                App.hashColor (App.title (App.b_task b)) = Ok (App.b_color b))
            /\ (App.isValidHex (App.color (App.b_task b)) = true ->
                App.b_color b = App.color (App.b_task b))).
Proof.
  intros st tasks w l El Hv.
  destruct (redraw_spec st tasks w l El Hv)
    as (mn & span & l' & bs & Emn & Esp & Es & Pl & Er & Hin).
  exists (App.World (App.objects w) (App.arrays w ++ [l']) bs).
  cbn [App.objects App.arrays App.canvas].
  assert (Hlt : forall a x, nth_error (App.arrays w) a = Some x ->
                            (a < length (App.arrays w))%nat).
  { intros a x E. apply nth_error_Some. congruence. }
  split; [exact Er|]. split; [reflexivity|]. split; [|split].
  - rewrite nth_error_app1 by (eapply Hlt; exact El). exact El.
  - intros a Ha. apply nth_error_app1. exact Ha.
  - intros b Hb. apply Hin in Hb. destruct Hb as (i & r & tk & Hi & Hr & Hp).
    destruct (paintTask_band st mn span tk i b Hp)
      as (ts & te & _ & _ & _ & _ & _ & _ & Etk & _ & _ & Ec).
    rewrite Etk. split; [eapply nth_error_In; exact Hr|]. split.
    + intros Hc. rewrite Hc in Ec. exact Ec.
    + intros Hc. rewrite Hc in Ec. injection Ec as <-. reflexivity.
Qed.

Lemma redraw_substitutes_without_mutation_witness :
  exists w' : App.world,
    App.redraw window_6_22 0 plain_world = Ok (tt, w')
    /\ App.objects w' = [plain_task]
    /\ nth_error (App.arrays w') 0 = Some [0%nat]
    /\ List.map App.b_color (App.canvas w') = [VStr (lit "#FFD166")].
Proof.
  destruct (redraw_substitutes_without_mutation window_6_22 0%nat
              plain_world [0%nat] eq_refl)
    as (w' & Er & Eo & Ea & _ & _).
  { repeat constructor. exists plain_task. reflexivity. }
  exists w'. split; [exact Er|]. split; [exact Eo|]. split; [exact Ea|].
  vm_compute in Er. injection Er as <-. reflexivity.
Defined.

(** C10. The draft and the application agree on times that are well
    formed: [toMinutes] on every text HH:MM with hour in [0,23] and
    minute in [0,59], [fromMinutes] on every minute in [0,1440).  They
    part on inputs outside: a negative minute, a text that is not a
    time, a value that is not a string. *)
Theorem draft_agrees_on_well_formed :
  (forall h m : Z, 0 <= h <= 23 -> 0 <= m <= 59 ->
     Draft.toMinutes (VStr (hhmm h m)) = App.toMinutes (VStr (hhmm h m)))
  /\ (forall n : Z, 0 <= n < 1440 ->
        Draft.fromMinutes (int n) = App.fromMinutes (int n))
  /\ Draft.fromMinutes (int (-30)) <> App.fromMinutes (int (-30))
  /\ Draft.toMinutes (VStr (lit "abc")) <> App.toMinutes (VStr (lit "abc"))
  /\ Draft.toMinutes VUndefined <> App.toMinutes VUndefined.
Proof.
  split; [|split; [|split; [|split]]].
  - intros h m Hh Hm.
    destruct (hour_minute_index h m Hh Hm) as (Hn & Eq & Em).
    pose proof (all_below_spec _ _ draft_parse_all (h * 60 + m) ltac:(lia)) as H.
    unfold draft_parse_ok in H. rewrite Eq, Em in H.
    apply rnum_eqb_eq. exact H.
  - intros n Hn. apply str_eqb_eq.
    apply (all_below_spec _ _ draft_render_all n). lia.
  - vm_compute. discriminate.
  - vm_compute. discriminate.
  - vm_compute. discriminate.
Qed.

Lemma draft_agrees_on_well_formed_witness :
  Draft.toMinutes (VStr (hhmm 9 30)) = App.toMinutes (VStr (hhmm 9 30))
  /\ Draft.fromMinutes (int 570) = App.fromMinutes (int 570).
Proof.
  split.
  - apply (proj1 draft_agrees_on_well_formed 9 30); lia.
  - apply (proj1 (proj2 draft_agrees_on_well_formed) 570). lia.
Defined.

(** * Further properties of the code *)

Import RoundFacts OrderFacts ShadeFacts FrameFacts StoreFacts LoopFacts.
Import GridFacts DraftColorFacts.


(** ** Numbers and times *)

(** X1. [clamp] on an argument that is a number: with the bounds in
    order the result lies between them, and it is the argument itself
    when that lies at or above the lower bound and strictly below the
    upper one; with the bounds out of order the lower bound wins.  An
    argument that is [NaN] passes through. *)
Theorem clamp_stays_between :
  forall v lo hi : num,
    isNaN v = false ->
    (num_le lo hi = true ->
       num_le lo (App.clamp v lo hi) = true
       /\ num_le (App.clamp v lo hi) hi = true)
    /\ (num_le lo v = true -> num_lt v hi = true -> App.clamp v lo hi = v)
    /\ (num_lt hi lo = true -> App.clamp v lo hi = lo)
    /\ App.clamp NaN lo hi = NaN.
Proof.
  intros v lo hi Hv.
  split; [intros H; apply clamp_between; assumption|].
  split; [apply clamp_inside|].
  split; [apply clamp_inverted; exact Hv | apply clamp_NaN].
Qed.

Lemma clamp_stays_between_witness :
  num_le (int 0) (App.clamp (int 75) (int 0) (int 59)) = true
  /\ num_le (App.clamp (int 75) (int 0) (int 59)) (int 59) = true
  /\ App.clamp (int 75) (int 59) (int 0) = int 59.
Proof.
  pose proof (clamp_stays_between (int 75) (int 0) (int 59) eq_refl)
    as (B & _).
  pose proof (clamp_stays_between (int 75) (int 59) (int 0) eq_refl)
    as (_ & _ & I & _).
  split; [exact (proj1 (B eq_refl))|].
  split; [exact (proj2 (B eq_refl)) | exact (I eq_refl)].
Defined.



(** X3. [toMinutes] reads the first two parts of the text only: a third
    part, such as seconds, changes nothing. *)
Theorem toMinutes_ignores_seconds :
  forall hh mm rest : jsstring,
    ~ In App.colon hh -> ~ In App.colon mm ->
    App.toMinutes (VStr (hh ++ App.colon :: mm ++ App.colon :: rest))
    = App.toMinutes (VStr (hh ++ App.colon :: mm)).
Proof.
  intros hh mm rest Hh Hm. unfold App.toMinutes.
  assert (G : forall t, negb (truthy (VStr (hh ++ App.colon :: t)))
                        || negb (App.is_string (VStr (hh ++ App.colon :: t)))
                        = false).
  { intros t. cbn [truthy App.is_string]. destruct hh; reflexivity. }
  rewrite (G (mm ++ App.colon :: rest)), (G mm).
  cbn [call_split rbind].
  rewrite (split_app App.colon hh (mm ++ App.colon :: rest) Hh).
  rewrite (split_app App.colon mm rest Hm).
  rewrite (split_app App.colon hh mm Hh).
  rewrite (split_no_sep App.colon mm Hm).
  destruct (split_nonempty App.colon rest) as (p & ps & ->).
  reflexivity.
Qed.

Lemma toMinutes_ignores_seconds_witness :
  App.toMinutes (VStr (lit "09:30:45")) = App.toMinutes (VStr (lit "09:30")).
Proof.
  apply (toMinutes_ignores_seconds (lit "09") (lit "30") (lit "45"));
    vm_compute; intuition discriminate.
Defined.

(** X4. [fromMinutes] on integers has the period of a day and no other
    coincidence: two integers are rendered alike exactly when they differ
    by a multiple of 1440. *)
Theorem fromMinutes_same_text_iff :
  forall a b : Z,
    App.fromMinutes (int a) = App.fromMinutes (int b)
    <-> a mod 1440 = b mod 1440.
Proof.
  assert (N : forall z, App.fromMinutes (int z)
                        = App.fromMinutes (int (z mod 1440))).
  { intros z. rewrite !fromMinutes_int. rewrite Z.mod_mod by lia.
    reflexivity. }
  intros a b. split.
  - intros E. rewrite (N a), (N b) in E.
    pose proof (roundtrip_minutes (a mod 1440)
                  (Z.mod_pos_bound a 1440 ltac:(lia))) as Ra.
    pose proof (roundtrip_minutes (b mod 1440)
                  (Z.mod_pos_bound b 1440 ltac:(lia))) as Rb.
    rewrite E, Rb in Ra. injection Ra as Ra. symmetry. exact Ra.
  - intros E. rewrite (N a), (N b), E. reflexivity.
Qed.

(** ** Colours *)

(** X5. Whatever the label, [hashColor] returns a colour that
    [isValidHex] accepts, so a colour it supplied is never replaced again,
    neither by [safeColor] of the drawing effect nor by [drawShuttle]. *)
Theorem hashColor_gives_valid_hex :
  forall s : value,
    exists c : jsstring,
      App.hashColor s = Ok (VStr c)
      /\ App.isValidHex (VStr c) = true
      /\ App.shuttleColor (VStr c) = VStr c.
Proof.
  intros s. destruct (hashColor_valid s) as (c & E & V).
  exists c. split; [exact E|]. split; [exact V|].
  unfold App.shuttleColor. rewrite V. reflexivity.
Qed.

(** X6. Every band is painted in colours that are well formed: the
    colour of the band is a hex colour, stored or derived, the end of its
    gradient and its hatch are hex colours, its label has one of the two
    text colours, and [drawShuttle] keeps the colour it is given. *)
Theorem band_colours_are_well_formed :
  forall (st : App.settings) (mn span : num) (tk : App.task) (idx : nat)
         (b : App.band),
    App.paintTask st mn span tk idx = Ok (Some b) ->
    App.isValidHex (App.b_color b) = true
    /\ App.isValidHex
         (VStr (App.gradientEnd (App.styleOf (App.b_color b)))) = true
    /\ App.isValidHex (VStr (App.hatch (App.styleOf (App.b_color b)))) = true
    /\ (App.labelColor (App.styleOf (App.b_color b)) = lit "#0b1020"
        \/ App.labelColor (App.styleOf (App.b_color b)) = lit "#f8fafc")
    /\ App.shuttleColor (App.b_color b) = App.b_color b.
Proof.
  intros st mn span tk idx b E.
  destruct (paintTask_band st mn span tk idx b E)
    as (_ & _ & _ & _ & _ & _ & _ & _ & _ & _ & _ & Ec).
  assert (V : App.isValidHex (App.b_color b) = true).
  { destruct (App.isValidHex (App.color tk)) eqn:Ev.
    - cbv iota in Ec. injection Ec as <-. exact Ev.
    - cbv iota in Ec.
      destruct (hashColor_valid (App.title tk)) as (c & Eh & Vc).
      rewrite Eh in Ec. injection Ec as <-. exact Vc. }
  split; [exact V|].
  split; [exact (proj1 (shade_decode (App.b_color b) (int (-20)) eq_refl))|].
  split; [exact (proj1 (shade_decode (App.b_color b) (int (-35)) eq_refl))|].
  split.
  - cbn [App.styleOf App.labelColor]. unfold App.contrastColor.
    destruct (num_ge _ _); [left | right]; reflexivity.
  - unfold App.shuttleColor. rewrite V. reflexivity.
Qed.

Lemma band_colours_are_well_formed_witness :
  exists b : App.band,
    App.paintTask window_6_22 (int 360) (int 960) plain_task 0 = Ok (Some b)
    /\ App.isValidHex (App.b_color b) = true.
Proof.
  eexists. split; [vm_compute; reflexivity|].
  apply (band_colours_are_well_formed window_6_22 (int 360) (int 960)
           plain_task 0).
  vm_compute. reflexivity.
Defined.

(** X7. [hexToRgb] returns three integers from 0 to 255 on every value,
    and white on a value that counts as false ([undefined], [null], the
    empty string, 0, [NaN], [false]). *)
Theorem hexToRgb_gives_bytes :
  forall hex : value,
    (exists r g b : Z,
       App.hexToRgb hex = rgbOf r g b
       /\ 0 <= r <= 255 /\ 0 <= g <= 255 /\ 0 <= b <= 255)
    /\ (truthy hex = false -> App.hexToRgb hex = rgbOf 255 255 255).
Proof.
  intros hex. split; [apply hexToRgb_bytes | apply hexToRgb_falsy].
Qed.

Lemma hexToRgb_gives_bytes_witness :
  App.hexToRgb VUndefined = rgbOf 255 255 255.
Proof.
  apply (proj2 (hexToRgb_gives_bytes VUndefined)). reflexivity.
Defined.

(** X8. On a string that [isValidHex] accepts, [hexToRgb] returns the
    channels that the digits after the [#] denote, white space around the
    colour set aside; a digit of the short form counts twice. *)
Theorem hexToRgb_reads_hex_colour :
  forall s : jsstring,
    App.isValidHex (VStr s) = true ->
    exists (ds : jsstring) (r g b : Z),
      trim s = 35 :: ds
      /\ hexChannels ds = Some (r, g, b)
      /\ App.hexToRgb (VStr s) = rgbOf r g b.
Proof. exact hexToRgb_valid. Qed.

Lemma hexToRgb_reads_hex_colour_witness :
  App.hexToRgb (VStr (lit " #0aF ")) = rgbOf 0 170 255.
Proof.
  destruct (hexToRgb_reads_hex_colour (lit " #0aF ") eq_refl)
    as (ds & r & g & b & Et & Ec & E).
  vm_compute in Et. injection Et as <-.
  vm_compute in Ec. injection Ec as <- <- <-. exact E.
Defined.

(** X9. [rgbToHex] then [hexToRgb] is the identity on three bytes, and
    the text in between is a hex colour of seven characters. *)
Theorem rgb_hex_round_trip :
  forall r g b : Z,
    0 <= r <= 255 -> 0 <= g <= 255 -> 0 <= b <= 255 ->
    App.isValidHex (VStr (App.rgbToHex (int r) (int g) (int b))) = true
    /\ length (App.rgbToHex (int r) (int g) (int b)) = 7%nat
    /\ App.hexToRgb (VStr (App.rgbToHex (int r) (int g) (int b)))
       = rgbOf r g b.
Proof.
  intros r g b Hr Hg Hb.
  destruct (rgbToHex_decode (int r) (int g) (int b) eq_refl eq_refl eq_refl)
    as (V & _ & L & D).
  split; [exact V|]. split; [exact L|].
  rewrite D, !byteOf_int. unfold rgbOf. f_equal; f_equal; lia.
Qed.

Lemma rgb_hex_round_trip_witness :
  App.hexToRgb (VStr (App.rgbToHex (int 255) (int 209) (int 102)))
  = rgbOf 255 209 102.
Proof.
  apply (rgb_hex_round_trip 255 209 102); lia.
Defined.

(** X10. [rgbToHex] prints a hex colour exactly when none of its
    arguments is [NaN]; the colour then reads back as the arguments
    rounded to the nearest integer and clamped to a byte. *)
Theorem rgbToHex_valid_iff :
  forall r g b : num,
    (App.isValidHex (VStr (App.rgbToHex r g b)) = true
     <-> isNaN r = false /\ isNaN g = false /\ isNaN b = false)
    /\ (isNaN r = false -> isNaN g = false -> isNaN b = false ->
        App.hexToRgb (VStr (App.rgbToHex r g b))
        = App.Rgb (byteOf r) (byteOf g) (byteOf b)).
Proof.
  intros r g b. split.
  - split.
    + intros V.
      assert (C : forall v, (isNaN v = false
                             /\ exists d1 d2, App.toHex v = [d1; d2])
                            \/ (isNaN v = true /\ App.toHex v = lit "NaN")).
      { intros v. destruct (isNaN v) eqn:Ev.
        - right. split; [reflexivity|].
          destruct v; try discriminate Ev. reflexivity.
        - left. split; [reflexivity|].
          destruct (byteOf_byte v Ev) as (c & Ec & Rc).
          destruct (toHex_byteOf v c Ec Rc) as (d1 & d2 & T & _).
          eauto. }
      apply isValidHex_iff in V.
      destruct V as (s & pre & ds & post & Ev & Es & Hpre & Hpost & Hds & Hlen).
      injection Ev as <-.
      assert (Hall : forall c, In c (App.rgbToHex r g b) ->
                               c <> 78).
      { intros c Hc Hn. subst c. rewrite Es in Hc.
        apply in_app_or in Hc. destruct Hc as [Hc | Hc].
        - rewrite forallb_forall in Hpre. specialize (Hpre 78 Hc).
          discriminate Hpre.
        - cbn [app] in Hc. destruct Hc as [Hc | Hc]; [discriminate Hc|].
          apply in_app_or in Hc. destruct Hc as [Hc | Hc].
          + rewrite forallb_forall in Hds. specialize (Hds 78 Hc).
            discriminate Hds.
          + rewrite forallb_forall in Hpost. specialize (Hpost 78 Hc).
            discriminate Hpost. }
      unfold App.rgbToHex in Hall.
      assert (K : forall v, In 78 (App.toHex v) \/ isNaN v = false).
      { intros v. destruct (C v) as [[Hv _] | [_ Hv]]; [right; exact Hv|].
        left. rewrite Hv. cbn. auto. }
      split; [|split].
      * destruct (K r) as [Hin | Hv]; [|exact Hv]. exfalso.
        apply (Hall 78); [|reflexivity].
        apply in_or_app. right. apply in_or_app. left. exact Hin.
      * destruct (K g) as [Hin | Hv]; [|exact Hv]. exfalso.
        apply (Hall 78); [|reflexivity].
        apply in_or_app. right. apply in_or_app. right.
        apply in_or_app. left. exact Hin.
      * destruct (K b) as [Hin | Hv]; [|exact Hv]. exfalso.
        apply (Hall 78); [|reflexivity].
        apply in_or_app. right. apply in_or_app. right.
        apply in_or_app. right. exact Hin.
    + intros (Hr & Hg & Hb).
      exact (proj1 (rgbToHex_decode r g b Hr Hg Hb)).
  - intros Hr Hg Hb.
    exact (proj2 (proj2 (proj2 (rgbToHex_decode r g b Hr Hg Hb)))).
Qed.

Lemma rgbToHex_valid_iff_witness :
  App.hexToRgb (VStr (App.rgbToHex (fin (5 # 2)) (int 300) (Inf true)))
  = rgbOf 3 255 0.
Proof.
  apply (proj2 (rgbToHex_valid_iff (fin (5 # 2)) (int 300) (Inf true)));
    reflexivity.
Defined.

(** X11. [shade] returns a hex colour for every colour argument,
    malformed ones included, and every amount that is a number; the
    colour reads back as the channels of the argument shifted by [f].
    With an amount that is [NaN] the text is not a colour. *)
Theorem shade_gives_valid_hex :
  forall (hex : value) (amt : num),
    (isNaN amt = false ->
       App.isValidHex (VStr (App.shade hex amt)) = true
       /\ App.hexToRgb (VStr (App.shade hex amt))
          = App.Rgb (App.shadeChannel amt (App.r (App.hexToRgb hex)))
                    (App.shadeChannel amt (App.g (App.hexToRgb hex)))
                    (App.shadeChannel amt (App.b (App.hexToRgb hex))))
    /\ App.shade hex NaN = lit "#NaNNaNNaN"
    /\ App.isValidHex (VStr (App.shade hex NaN)) = false.
Proof.
  intros hex amt. split; [apply shade_decode|].
  rewrite shade_NaN. split; reflexivity.
Qed.

Lemma shade_gives_valid_hex_witness :
  App.isValidHex (VStr (App.shade (VStr (lit "red")) (int (-35)))) = true.
Proof.
  apply (proj1 (shade_gives_valid_hex (VStr (lit "red")) (int (-35)))).
  reflexivity.
Defined.

(** X12. [shade] moves every channel the way of the sign of the amount:
    no channel gets darker with an amount of 0 or more, none gets lighter
    with an amount of 0 or less, so the amount 0 keeps the colour; from
    100 on the result is white and from -100 down it is black.  The
    rounding of the three operations of [f] never reverses this. *)
Theorem shade_follows_the_sign :
  forall (hex : value) (amt : num) (r g b r' g' b' : Z),
    App.hexToRgb hex = rgbOf r g b ->
    App.hexToRgb (VStr (App.shade hex amt)) = rgbOf r' g' b' ->
    (num_le (int 0) amt = true -> r <= r' /\ g <= g' /\ b <= b')
    /\ (num_le amt (int 0) = true -> r' <= r /\ g' <= g /\ b' <= b)
    /\ (num_le (int 100) amt = true -> r' = 255 /\ g' = 255 /\ b' = 255)
    /\ (num_le amt (int (-100)) = true -> r' = 0 /\ g' = 0 /\ b' = 0).
Proof.
  intros hex amt r g b r' g' b' E E'.
  destruct (hexToRgb_bytes hex) as (r0 & g0 & b0 & E0 & Hr & Hg & Hb).
  rewrite E in E0. destruct (rgbOf_inj _ _ _ _ _ _ E0) as (<- & <- & <-).
  assert (D : isNaN amt = false ->
              App.shadeChannel amt (int r) = int r'
              /\ App.shadeChannel amt (int g) = int g'
              /\ App.shadeChannel amt (int b) = int b').
  { intros Hn. destruct (shade_decode hex amt Hn) as [_ D].
    rewrite E' in D. rewrite E in D. unfold rgbOf in D.
    cbn [App.r App.g App.b] in D. injection D as D1 D2 D3.
    split; [symmetry; exact D1|]. split; symmetry; [exact D2 | exact D3]. }
  split; [|split; [|split]]; intros H.
  - destruct (D (proj2 (num_le_not_NaN _ _ H))) as (D1 & D2 & D3).
    destruct (shadeChannel_up amt r H Hr) as (x & Ex & Rx).
    destruct (shadeChannel_up amt g H Hg) as (y & Ey & Ry).
    destruct (shadeChannel_up amt b H Hb) as (z & Ez & Rz).
    rewrite D1 in Ex. rewrite D2 in Ey. rewrite D3 in Ez.
    apply int_inj in Ex, Ey, Ez. lia.
  - destruct (D (proj1 (num_le_not_NaN _ _ H))) as (D1 & D2 & D3).
    destruct (shadeChannel_down amt r H Hr) as (x & Ex & Rx).
    destruct (shadeChannel_down amt g H Hg) as (y & Ey & Ry).
    destruct (shadeChannel_down amt b H Hb) as (z & Ez & Rz).
    rewrite D1 in Ex. rewrite D2 in Ey. rewrite D3 in Ez.
    apply int_inj in Ex, Ey, Ez. lia.
  - destruct (D (proj2 (num_le_not_NaN _ _ H))) as (D1 & D2 & D3).
    rewrite (shadeChannel_full_up amt r H Hr) in D1.
    rewrite (shadeChannel_full_up amt g H Hg) in D2.
    rewrite (shadeChannel_full_up amt b H Hb) in D3.
    apply int_inj in D1, D2, D3. lia.
  - destruct (D (proj1 (num_le_not_NaN _ _ H))) as (D1 & D2 & D3).
    rewrite (shadeChannel_full_down amt r H Hr) in D1.
    rewrite (shadeChannel_full_down amt g H Hg) in D2.
    rewrite (shadeChannel_full_down amt b H Hb) in D3.
    apply int_inj in D1, D2, D3. lia.
Qed.

Lemma shade_follows_the_sign_witness :
  App.hexToRgb (VStr (App.shade (VStr (lit "#FFD166")) (int (-20))))
  = rgbOf 204 158 51
  /\ 204 <= 255 /\ 158 <= 209 /\ 51 <= 102.
Proof.
  assert (E : App.hexToRgb (VStr (App.shade (VStr (lit "#FFD166"))
                                            (int (-20))))
              = rgbOf 204 158 51) by (vm_compute; reflexivity).
  split; [exact E|].
  apply (proj1 (proj2 (shade_follows_the_sign (VStr (lit "#FFD166"))
                         (int (-20)) 255 209 102 204 158 51
                         ltac:(vm_compute; reflexivity) E))).
  reflexivity.
Defined.

(** X13. [contrastColor] picks the dark text exactly when the weighted
    sum 299 r + 587 g + 114 b of the channels that [hexToRgb] reads is at
    least 140000: the rounded division by 1000 never moves the quotient
    across 140.  The two text colours themselves fall on opposite sides,
    so a text colour is never chosen for a background of its own kind. *)
Theorem contrastColor_threshold :
  forall (hex : value) (r g b : Z),
    App.hexToRgb hex = rgbOf r g b ->
    App.contrastColor hex
    = (if 140000 <=? luminance r g b then lit "#0b1020" else lit "#f8fafc")
    /\ App.contrastColor (VStr (App.contrastColor hex))
       <> App.contrastColor hex.
Proof.
  intros hex r g b E.
  destruct (hexToRgb_bytes hex) as (r0 & g0 & b0 & E0 & Hr & Hg & Hb).
  rewrite E in E0. destruct (rgbOf_inj _ _ _ _ _ _ E0) as (<- & <- & <-).
  rewrite (contrastColor_bytes hex r g b E Hr Hg Hb).
  split; [reflexivity|].
  destruct (140000 <=? luminance r g b); vm_compute; discriminate.
Qed.

Lemma contrastColor_threshold_witness :
  App.contrastColor (VStr (lit "#FFD166")) = lit "#0b1020".
Proof.
  apply (proj1 (contrastColor_threshold (VStr (lit "#FFD166")) 255 209 102
                  ltac:(vm_compute; reflexivity))).
Defined.

(** ** The drawing effect *)

(** X14. In a redraw, for every band whose clamped start and end are
    numbers: the two ends [x1] and [x2] are between x = 48 and
    x = W - 16; the width is at least 4; the rectangle that is painted,
    from [x1] to [x1 + width], ends between x = 52 and x = W - 12; the
    top is at y = 64 or below and the bottom at H - 106 or above; and the
    shuttle, when the band has one, is between x = 48 and x = W - 16.
    The rectangle can pass x = W - 16, where the border is drawn: a band
    narrower than 4 is widened to 4 from its left end, and the task
    21:59-22:00 in the window 06:00-22:00 on a canvas 800 wide, whose end
    is at x = 784, is painted beyond it.  (The width of the parent is
    taken below 2^53.) *)
Theorem band_rectangles_stay_on_the_canvas :
  (forall (st : App.settings) (tasks : nat) (w : App.world) (l : list nat),
     nth_error (App.arrays w) tasks = Some l ->
     validRefs (App.objects w) l ->
     App.clientWidth st <= two53 ->
     exists (w' : App.world) (W H : Z),
       App.redraw st tasks w = Ok (tt, w')
       /\ App.canvasW st = int W /\ App.canvasH st = int H
       /\ 320 <= W /\ 320 <= H <= 1200
       /\ forall b : App.band,
            In b (App.canvas w') ->
            isNaN (App.b_start b) = false -> isNaN (App.b_end b) = false ->
            num_le (int 48) (App.b_x1 b) = true
            /\ num_le (App.b_x1 b) (int (W - 16)) = true
            /\ num_le (int 48) (App.b_x2 b) = true
            /\ num_le (App.b_x2 b) (int (W - 16)) = true
            /\ num_le (int 4) (App.b_width b) = true
            /\ num_le (int 52) (App.bandRight b) = true
            /\ num_le (App.bandRight b) (int (W - 12)) = true
            /\ (exists y, App.b_y b = int y /\ 64 <= y /\ y + 24 <= H - 106)
            /\ (forall x, App.b_shuttle b = Some x ->
                  num_le (int 48) x = true
                  /\ num_le x (int (W - 16)) = true))
  /\ (exists (w' : App.world) (b : App.band),
        App.redraw window_6_22 0 brief_world = Ok (tt, w')
        /\ App.canvas w' = [b]
        /\ App.b_x2 b = int 784 /\ App.b_width b = int 4
        /\ num_lt (int 784) (App.bandRight b) = true
        /\ num_lt (int 787) (App.bandRight b) = true
        /\ num_lt (App.bandRight b) (int 788) = true).
Proof.
  split.
  - intros st tasks w l El Hv Hcw.
    destruct (redraw_bands st tasks w l El Hv)
      as (mn & d & l' & Emn & Ed & Hd & Hmn & Es & Pl & Er).
    destruct (canvasW_value st) as (W & EW & HW & _).
    destruct (canvasH_range st) as (H & EH & HH).
    eexists _, W, H. split; [exact Er|].
    split; [exact EW|]. split; [exact EH|]. split; [exact HW|].
    split; [exact HH|].
    cbn [App.canvas]. intros b Hb Hs He.
    destruct (bandsFrom_In _ _ _ _ _ _ _ Hb) as (i & r & tk & _ & _ & Ep).
    destruct (band_in_frame st mn d tk (0 + i) b Ep Hmn Hd Hcw Hs He)
      as (W' & H' & y & EW' & EH' & _ & _ & A1 & A2 & A3 & A4 & A5 & Ey & Y1
          & Y2 & Sh).
    destruct (EdgeFacts.band_right_side st mn d tk (0 + i) b Ep Hmn Hd Hcw
                Hs He)
      as (W'' & EW'' & R1 & R2).
    rewrite EW in EW', EW''. rewrite EH in EH'.
    apply int_inj in EW', EW'', EH'. subst W' W'' H'.
    split; [exact A1|]. split; [exact A2|]. split; [exact A3|].
    split; [exact A4|]. split; [exact A5|].
    split; [exact R1|]. split; [exact R2|].
    split; [exists y; auto | exact Sh].
  - eexists. eexists. split; [vm_compute; reflexivity|].
    split; [reflexivity|]. split; [reflexivity|]. split; [reflexivity|].
    split; [|split]; vm_compute; reflexivity.
Qed.

Lemma band_rectangles_stay_on_the_canvas_witness :
  exists w' : App.world,
    App.redraw window_6_22 0 plain_world = Ok (tt, w')
    /\ Forall (fun b => num_le (int 48) (App.b_x1 b) = true
                        /\ num_le (App.b_x2 b) (int 784) = true
                        /\ num_le (App.bandRight b) (int 788) = true)
              (App.canvas w').
Proof.
  destruct (proj1 band_rectangles_stay_on_the_canvas window_6_22 0%nat
              plain_world [0%nat] eq_refl)
    as (w' & W & H & Er & EW & _ & _ & _ & Hall).
  { repeat constructor. exists plain_task. reflexivity. }
  { vm_compute. discriminate. }
  exists w'. split; [exact Er|].
  vm_compute in EW. injection EW as <-.
  apply Forall_forall. intros b Hb.
  assert (N : isNaN (App.b_start b) = false /\ isNaN (App.b_end b) = false).
  { vm_compute in Er. injection Er as <-.
    destruct Hb as [<- | []]. split; reflexivity. }
  destruct (Hall b Hb (proj1 N) (proj2 N))
    as (A1 & _ & _ & A4 & _ & _ & R2 & _).
  split; [exact A1|]. split; [exact A4 | exact R2].
Defined.

(** X15. In a redraw the bands are painted in the order of the sorted
    list, one at most for each of its positions: the indices of the bands
    on the canvas increase strictly and stay below the number of tasks. *)
Theorem bands_follow_the_sorted_order :
  forall (st : App.settings) (tasks : nat) (w : App.world) (l : list nat),
    nth_error (App.arrays w) tasks = Some l ->
    validRefs (App.objects w) l ->
    exists w' : App.world,
      App.redraw st tasks w = Ok (tt, w')
      /\ StronglySorted
           (fun b1 b2 => (App.b_index b1 < App.b_index b2)%nat)
           (App.canvas w')
      /\ Forall (fun b => (App.b_index b < length l)%nat) (App.canvas w')
      /\ (length (App.canvas w') <= length l)%nat.
Proof.
  intros st tasks w l El Hv.
  destruct (redraw_bands st tasks w l El Hv)
    as (mn & d & l' & _ & _ & _ & _ & _ & Pl & Er).
  eexists. split; [exact Er|]. cbn [App.canvas].
  destruct (bandsFrom_increasing st mn (int d) (App.objects w) l' 0)
    as (F & S' & L).
  rewrite <- (Permutation_length Pl) in F, L.
  split; [exact S'|]. split; [|exact L].
  eapply Forall_impl; [|exact F]. cbv beta. intros b Hb. lia.
Qed.

Lemma bands_follow_the_sorted_order_witness :
  exists w' : App.world,
    App.redraw window_6_22 0 three_world = Ok (tt, w')
    /\ List.map App.b_index (App.canvas w') = [0; 1; 2]%nat.
Proof.
  destruct (bands_follow_the_sorted_order window_6_22 0%nat three_world
              [0; 1; 2]%nat eq_refl)
    as (w' & Er & _).
  { repeat constructor;
      [exists late_task | exists early_task | exists tie_task]; reflexivity. }
  exists w'. split; [exact Er|].
  vm_compute in Er. injection Er as <-. reflexivity.
Defined.

(** X16. A redraw leaves nothing behind that a later redraw reads.  Run
    on the store that a first redraw has left, with the same settings,
    sizes and wall-clock minute, a second redraw clears the canvas, finds
    the records and the list of tasks as they were and computes the same
    bands again, in the same order: the same rectangles, rows, colours
    and labels, and the same abscissa for each shuttle.  (What
    [drawShuttle] then draws around that abscissa moves with
    [performance.now()] at the time of painting; that is not part of a
    band, and it differs from one redraw to the next.) *)
Theorem second_redraw_computes_the_same_bands :
  forall (st : App.settings) (tasks : nat) (w : App.world) (l : list nat),
    nth_error (App.arrays w) tasks = Some l ->
    validRefs (App.objects w) l ->
    exists w1 w2 : App.world,
      App.redraw st tasks w = Ok (tt, w1)
      /\ App.redraw st tasks w1 = Ok (tt, w2)
      /\ App.canvas w2 = App.canvas w1
      /\ App.objects w2 = App.objects w
      /\ nth_error (App.arrays w2) tasks = Some l.
Proof.
  intros st tasks w l El Hv.
  destruct (redraw_bands st tasks w l El Hv)
    as (mn & d & l' & Emn & Ed & _ & _ & Es & _ & Er).
  set (w1 := App.World (App.objects w) (App.arrays w ++ [l'])
                       (bandsFrom st mn (int d) (App.objects w) l' 0)) in *.
  assert (El1 : nth_error (App.arrays w1) tasks = Some l).
  { cbn [w1 App.arrays].
    rewrite nth_error_app1 by (apply nth_error_Some; congruence). exact El. }
  destruct (redraw_bands st tasks w1 l El1 Hv)
    as (mn2 & d2 & l2 & Emn2 & Ed2 & _ & _ & Es2 & _ & Er2).
  rewrite Emn in Emn2. injection Emn2 as <-.
  rewrite Ed in Ed2. injection Ed2 as <-.
  cbn [w1 App.objects] in Es2. rewrite Es in Es2. injection Es2 as <-.
  eexists w1, _. split; [exact Er|]. split; [exact Er2|].
  cbn [App.canvas App.objects App.arrays w1].
  split; [reflexivity|]. split; [reflexivity|].
  rewrite nth_error_app1.
  - rewrite nth_error_app1 by (apply nth_error_Some; congruence). exact El.
  - rewrite length_app. cbn. apply Nat.lt_lt_add_r.
    apply nth_error_Some. congruence.
Qed.

Lemma second_redraw_computes_the_same_bands_witness :
  exists w1 w2 : App.world,
    App.redraw window_6_22 0 three_world = Ok (tt, w1)
    /\ App.redraw window_6_22 0 w1 = Ok (tt, w2)
    /\ App.canvas w2 = App.canvas w1.
Proof.
  destruct (second_redraw_computes_the_same_bands window_6_22 0%nat
              three_world [0; 1; 2]%nat eq_refl)
    as (w1 & w2 & E1 & E2 & Ec & _).
  { repeat constructor;
      [exists late_task | exists early_task | exists tie_task]; reflexivity. }
  exists w1, w2. split; [exact E1|]. split; [exact E2 | exact Ec].
Defined.

(** X17. The loop of the weave ends whatever is stored as the density:
    the step is at least 2, never [NaN], so the loop makes at most 568
    turns, each with [y] from 32 up to, not including, [H - 32]. *)
Theorem weave_loop_ends :
  forall (st : App.settings) (weaveDensity : value) (fuel : nat),
    (568 <= fuel)%nat ->
    num_le (int 2) (App.weaveStep weaveDensity) = true
    /\ exists ys : list num,
         App.weaveLines fuel st weaveDensity = Some ys
         /\ (length ys <= 568)%nat
         /\ Forall (fun y => num_le (int 32) y = true
                             /\ num_lt y (num_sub (App.canvasH st) (int 32))
                                = true) ys.
Proof.
  intros st wd fuel Hf. split; [apply weaveStep_ge|].
  destruct (canvasH_range st) as (H & EH & HH).
  unfold App.weaveLines. rewrite EH.
  rewrite num_sub_int by (unfold two53; lia).
  destruct (countLoop_ends 2 (int (H - 32)) (App.weaveStep wd) (H - 32)
              ltac:(lia) (weaveStep_ge wd)
              ltac:(rewrite num_le_int; apply Z.leb_le; lia)
              ltac:(unfold two53; lia)
              568%nat 32 (int 32)
              ltac:(reflexivity) ltac:(unfold two53; lia) ltac:(lia))
    as (ys & E & L & F).
  exists ys. split; [|split; assumption].
  apply (countLoop_more _ _ 568%nat fuel _ _ E Hf).
Qed.

Lemma weave_loop_ends_witness :
  App.weaveLines 600 window_6_22 (VNum (int 100))
  = Some [int 32; int 132; int 232; int 332].
Proof.
  destruct (weave_loop_ends window_6_22 (VNum (int 100)) 600 ltac:(lia))
    as (_ & ys & E & _).
  rewrite E. vm_compute in E. symmetry. exact E.
Defined.

(** X18. The loop of the hatch of a band ends whatever is stored as the
    spacing: the step is at least 4, or it is [NaN] and the loop is left
    after one turn.  For a band inside the frame, [(W - 64) / 4] turns,
    and one more, suffice. *)
Theorem hatch_loop_ends :
  forall (x1 x2 : num) (W : Z) (warpSpacing : value) (fuel : nat),
    num_le (int 48) x1 = true ->
    num_le x2 (int (W - 16)) = true ->
    64 <= W <= two53 ->
    W - 64 < 4 * Z.of_nat fuel ->
    exists xs : list num,
      App.hatchLines fuel x1 x2 warpSpacing = Some xs
      /\ (length xs <= fuel)%nat.
Proof.
  intros x1 x2 W ws fuel H1 H2 HW Hf. unfold App.hatchLines.
  destruct (hatchStep_cases ws) as [-> | Hs].
  - destruct fuel as [|fuel]; [lia|].
    destruct (countLoop_NaN fuel (floor x1) x2) as (xs & E & L).
    exists xs. split; [exact E | lia].
  - destruct (countLoop_ends 4 x2 (App.hatchStep ws) (W - 16)
                ltac:(lia) Hs H2 ltac:(unfold two53 in *; lia)
                fuel 48 (floor x1)
                (floor_ge 48 x1 H1) ltac:(unfold two53; lia) ltac:(lia))
      as (xs & E & L & _).
    exists xs. split; assumption.
Qed.

Lemma hatch_loop_ends_witness :
  exists xs : list num,
    App.hatchLines 200 (int 48) (int 784) (VStr (lit "wide")) = Some xs
    /\ (length xs <= 200)%nat.
Proof.
  apply (hatch_loop_ends (int 48) (int 784) 800 (VStr (lit "wide")) 200);
    try reflexivity; unfold two53; lia.
Defined.

(** X19. The theme.  The grid of the drawing effect always has a colour:
    the first colour of a palette, or white when the stored index selects
    none.  The swatches of the rendering read the palette with no such
    guard: the palette is found when the stored index is an integer, of
    either sign, or not a finite number at all, and the rendering raises
    on a fraction such as 1.5. *)
Theorem theme_lookup :
  forall paletteIndex : value,
    (exists c : jsstring,
       App.gridColor paletteIndex = VStr c
       /\ App.isValidHex (VStr c) = true)
    /\ (forall z : Z,
          toNumber paletteIndex = int z ->
          exists pal,
            App.currentPalette paletteIndex = Ok pal
            /\ nth_error App.palettes (Z.to_nat (Z.abs (Z.rem z 4)))
               = Some pal)
    /\ (toNumber paletteIndex = NaN
        \/ (exists s, toNumber paletteIndex = Inf s) ->
        exists pal,
          App.currentPalette paletteIndex = Ok pal
          /\ nth_error App.palettes 0 = Some pal)
    /\ App.currentPalette (VNum (fin (3 # 2))) = Throw.
Proof.
  intros v. split; [|split; [|split]].
  - unfold App.gridColor.
    destruct (index App.palettes (App.paletteSlot v)) as [pal|] eqn:E.
    + apply index_In in E.
      pose proof palettes_six as H6. rewrite Forall_forall in H6.
      specialize (H6 pal E).
      destruct pal as [|c r]; [discriminate H6|].
      exists c. split; [reflexivity|].
      apply (palettes_valid (c :: r) c E). left. reflexivity.
    + exists (lit "#ffffff"). split; reflexivity.
  - intros z Ez. unfold App.currentPalette.
    rewrite (paletteSlot_int v z Ez), num_or_int_0.
    pose proof (Z.rem_bound_abs z 4 ltac:(lia)) as Hb.
    rewrite index_int by lia.
    destruct (nth_error App.palettes (Z.to_nat (Z.abs (Z.rem z 4))))
      as [pal|] eqn:E.
    + exists pal. split; reflexivity.
    + apply nth_error_None in E. cbn [App.palettes length] in E. lia.
  - intros Hn. unfold App.currentPalette.
    rewrite (paletteSlot_not_finite v Hn).
    eexists. split; reflexivity.
  - reflexivity.
Qed.

Lemma theme_lookup_witness :
  exists pal,
    App.currentPalette (VStr (lit "-3")) = Ok pal
    /\ nth_error App.palettes 3 = Some pal.
Proof.
  apply (proj1 (proj2 (theme_lookup (VStr (lit "-3")))) (-3)).
  vm_compute. reflexivity.
Defined.

(** X20. The grid.  For a day window that starts at the minute [a] and
    spans [d] minutes, [hours] is [d / 60] rounded up, and the label of
    the grid line [i] is the hour [i] hours after the start, modulo 24,
    with the minutes of the start.  The abscissa of the line [i] is 48
    plus the integer quotient of [60 i (W - 64)] by [d]: the rounding of
    the division never changes the floor.  So the line 0 is at x = 48,
    every line that is inside the span ([60 i <= d]) is between x = 48
    and x = W - 16, and the last line, the one numbered [hours], is at
    x = W - 16 or beyond.  With the window 06:00-22:30 on a canvas 800
    wide it is beyond, at x = 806; with a span of 1439 minutes on the
    same canvas it is at x = 784, which is W - 16, though the span is
    not a whole number of hours. *)
Theorem grid_lines :
  forall a d W i : Z,
    0 <= a <= 1439 -> 60 <= d <= 1440 -> 320 <= W <= two32 ->
    0 <= i <= 24 ->
    App.hours (int d) = int ((d + 59) / 60)
    /\ App.gridLabel (int a) (int i) = hhmm ((a / 60 + i) mod 24) (a mod 60)
    /\ App.gridX (int d) (int W) (int i) = int (48 + i * 60 * (W - 64) / d)
    /\ App.gridX (int d) (int W) (int 0) = int 48
    /\ (60 * i <= d ->
        exists x, App.gridX (int d) (int W) (int i) = int x
                  /\ 48 <= x <= W - 16)
    /\ (exists x, App.gridX (int d) (int W) (App.hours (int d)) = int x
                  /\ W - 16 <= x)
    /\ App.hours (int 990) = int 17
    /\ App.gridX (int 990) (int 800) (int 17) = int 806
    /\ App.hours (int 1439) = int 24
    /\ App.gridX (int 1439) (int 800) (int 24) = int 784.
Proof.
  intros a d W i Ha Hd HW Hi.
  split; [apply hours_value; exact Hd|].
  split; [apply gridLabel_value; assumption|].
  split.
  { rewrite (DivFacts.gridX_value d W i Hd HW Hi). f_equal. lia. }
  split.
  { rewrite (DivFacts.gridX_value d W 0 Hd HW ltac:(lia)).
    reflexivity. }
  split.
  { intros Hid. rewrite (DivFacts.gridX_value d W i Hd HW Hi).
    pose proof (DivFacts.inner_line d W i Hd ltac:(lia) ltac:(lia) Hid).
    eexists. split; [reflexivity | lia]. }
  split.
  { rewrite (hours_value d Hd).
    assert (Hh : 0 <= (d + 59) / 60 <= 24).
    { split; [apply Z.div_pos; lia|].
      apply Z.lt_succ_r. apply Z.div_lt_upper_bound; lia. }
    rewrite (DivFacts.gridX_value d W _ Hd HW Hh).
    pose proof (DivFacts.last_line d W Hd ltac:(lia)) as Hl.
    set (t := (d + 59) / 60 * 60 * (W - 64) / d) in *.
    exists (t + 48). split; [reflexivity | lia]. }
  repeat split; vm_compute; reflexivity.
Qed.

Lemma grid_lines_witness :
  App.gridLabel (int 390) (int 17) = lit "23:30"
  /\ App.gridX (int 990) (int 800) (int 5) = int 271
  /\ exists x, App.gridX (int 960) (int 800) (int 16) = int x
               /\ 48 <= x <= 784.
Proof.
  destruct (grid_lines 390 990 800 5
              ltac:(lia) ltac:(lia) ltac:(unfold two32; lia) ltac:(lia))
    as (_ & _ & V & _).
  destruct (grid_lines 390 960 800 17
              ltac:(lia) ltac:(lia) ltac:(unfold two32; lia) ltac:(lia))
    as (_ & L & _).
  destruct (grid_lines 360 960 800 16
              ltac:(lia) ltac:(lia) ltac:(unfold two32; lia) ltac:(lia))
    as (_ & _ & _ & _ & X & _).
  split; [exact L|]. split; [exact V | apply X; lia].
Defined.

(** ** The handlers that replace the list of tasks *)

(** X21. [addTask] stores a new array that lists the tasks of the old
    one, in order, followed by one new record, and selects that record.
    The record has the identifier drawn, the title "New Thread" and the
    colour of that title, a hex colour; no existing record or array is
    changed and nothing is painted.  When the start of the day window is
    a number, its start and end are times of the form HH:MM that parse
    back to the later of 09:00 and the window start, and to the earlier
    of 10:00 and the window end. *)
Theorem addTask_appends_one_thread :
  forall (st : App.settings) (tasks : nat) (fresh : jsstring)
         (w : App.world) (ts : list App.task),
    tasksOf w tasks = Some ts ->
    exists (mn : num) (d : Z) (w' : App.world),
      App.minDay st = Ok mn /\ App.daySpan st = Ok (int d)
      /\ App.addTask st tasks fresh w
         = Ok ((length (App.arrays w), VStr fresh), w')
      /\ tasksOf w' (length (App.arrays w))
         = Some (ts ++ [newThread mn (int d) fresh])
      /\ tasksOf w' tasks = Some ts
      /\ App.objects w' = App.objects w ++ [newThread mn (int d) fresh]
      /\ App.canvas w' = App.canvas w
      /\ App.hashColor (App.title (newThread mn (int d) fresh))
         = Ok (App.color (newThread mn (int d) fresh))
      /\ App.isValidHex (App.color (newThread mn (int d) fresh)) = true
      /\ forall a : Z,
           mn = int a ->
           App.toMinutes (App.start (newThread mn (int d) fresh))
           = Ok (int (Z.max a 540))
           /\ App.toMinutes (App.end_ (newThread mn (int d) fresh))
              = Ok (int (Z.min (a + d) 600))
           /\ (exists s, App.start (newThread mn (int d) fresh) = VStr s
                         /\ timeText s = true)
           /\ (exists e, App.end_ (newThread mn (int d) fresh) = VStr e
                         /\ timeText e = true).
Proof.
  intros st tasks fresh w ts H.
  destruct (addTask_spec st tasks fresh w ts H)
    as (mn & d & refs & Emn & Ed & Hmn & Hd & Ea & Eadd & Ederef).
  exists mn, d. eexists.
  split; [exact Emn|]. split; [exact Ed|]. split; [exact Eadd|].
  split; [rewrite tasksOf_new; exact Ederef|].
  split; [apply tasksOf_old; exact H|].
  split; [reflexivity|]. split; [reflexivity|].
  split; [exact (proj1 (colourOf_hashColor _))|].
  split; [exact (proj2 (colourOf_hashColor _))|].
  intros a ->.
  destruct Hmn as [Hn | (a' & Ea' & Ha)]; [discriminate Hn|].
  apply int_inj in Ea'. subst a'.
  apply newThread_times; assumption.
Qed.

Lemma addTask_appends_one_thread_witness :
  exists w' : App.world,
    App.addTask window_6_22 0 (lit "t9") three_world
    = Ok ((1%nat, VStr (lit "t9")), w')
    /\ tasksOf w' 1
       = Some [late_task; early_task; tie_task;
               newThread (int 360) (int 960) (lit "t9")].
Proof.
  destruct (addTask_appends_one_thread window_6_22 0%nat (lit "t9")
              three_world [late_task; early_task; tie_task] eq_refl)
    as (mn & d & w' & Emn & Ed & Ea & Et & _).
  vm_compute in Emn. injection Emn as <-.
  vm_compute in Ed. injection Ed as <-.
  exists w'. split; [exact Ea | exact Et].
Defined.



(** X23. [updateTask] stores a new array of the same length in which
    every task whose [id] is [===] the given one is a new record, the old
    one with the fields of the patch written over it, and every other
    entry is the very reference of the old array.  The old array and the
    existing records are unchanged, nothing is painted, and an [id] that
    no task has leaves the list of tasks as it was. *)
Theorem updateTask_patches_matching_tasks :
  forall (tasks : nat) (id' : value) (p : App.patch) (w : App.world)
         (ts : list App.task),
    tasksOf w tasks = Some ts ->
    exists (w' : App.world) (refs refs' : list nat),
      App.updateTask tasks id' p w = Ok (length (App.arrays w), w')
      /\ tasksOf w' (length (App.arrays w)) = Some (patched id' p ts)
      /\ length (patched id' p ts) = length ts
      /\ tasksOf w' tasks = Some ts
      /\ (exists extra, App.objects w' = App.objects w ++ extra)
      /\ App.canvas w' = App.canvas w
      /\ nth_error (App.arrays w) tasks = Some refs
      /\ nth_error (App.arrays w') (length (App.arrays w)) = Some refs'
      /\ (forall (i ref : nat) (x : App.task),
            nth_error refs i = Some ref ->
            nth_error (App.objects w) ref = Some x ->
            strict_eq (App.id x) id' = false ->
            nth_error refs' i = Some ref)
      /\ (Forall (fun x => strict_eq (App.id x) id' = false) ts ->
          patched id' p ts = ts).
Proof.
  intros tasks id' p w ts H.
  destruct (updateTask_spec tasks id' p w ts H)
    as (refs & refs' & extra & Ea & Ee & Eu & Ed & Hk).
  eexists _, refs, refs'.
  split; [exact Eu|].
  split; [rewrite tasksOf_new; exact Ed|].
  split; [unfold patched; apply length_map|].
  split; [apply tasksOf_old; exact H|].
  split; [exists extra; reflexivity|].
  split; [reflexivity|]. split; [exact Ea|].
  split; [cbn [App.arrays]; apply nth_error_app_last|].
  split; [exact Hk|].
  intros Hall. unfold patched. clear - Hall.
  induction Hall as [|x r Hx _ IH]; [reflexivity|].
  cbn [List.map]. rewrite Hx, IH. reflexivity.
Qed.

Lemma updateTask_patches_matching_tasks_witness :
  exists w' : App.world,
    App.updateTask 0 (VStr (lit "a")) rename_patch three_world
    = Ok (1%nat, w')
    /\ option_map (List.map App.title) (tasksOf w' 1)
       = Some [VStr (lit "Study"); VStr (lit "Run"); VStr (lit "Walk")]
    /\ tasksOf w' 0 = Some [late_task; early_task; tie_task].
Proof.
  destruct (updateTask_patches_matching_tasks 0%nat (VStr (lit "a"))
              rename_patch three_world [late_task; early_task; tie_task]
              eq_refl)
    as (w' & refs & refs' & Eu & Et & _ & Eo & _).
  exists w'. split; [exact Eu|]. split; [|exact Eo].
  change (length (App.arrays three_world)) with 1%nat in Et.
  rewrite Et. reflexivity.
Defined.

(** X24. [removeTask] stores a new array that lists, in their order, the
    references of the tasks whose [id] is not [===] the given one.  No
    record is made or changed and the old array stays as it was.  No task
    with that [id] is left, so removing twice is removing once; an [id]
    that no task has removes nothing; and removing the [id] of a task
    that was just appended gives back the list before it. *)
Theorem removeTask_drops_matching_tasks :
  forall (tasks : nat) (id' : value) (w : App.world) (ts : list App.task),
    tasksOf w tasks = Some ts ->
    exists w' : App.world,
      App.removeTask tasks id' w = Ok (length (App.arrays w), w')
      /\ tasksOf w' (length (App.arrays w)) = Some (without id' ts)
      /\ tasksOf w' tasks = Some ts
      /\ App.objects w' = App.objects w
      /\ App.canvas w' = App.canvas w
      /\ Forall (fun x => strict_eq (App.id x) id' = false) (without id' ts)
      /\ without id' (without id' ts) = without id' ts
      /\ (Forall (fun x => strict_eq (App.id x) id' = false) ts ->
          without id' ts = ts)
      /\ (forall x : App.task,
            strict_eq (App.id x) id' = true ->
            Forall (fun y => strict_eq (App.id y) id' = false) ts ->
            without id' (ts ++ [x]) = ts).
Proof.
  intros tasks id' w ts H.
  destruct (removeTask_spec tasks id' w ts H)
    as (refs & refs' & Ea & Er & Ed & _).
  assert (K : forall l, Forall (fun x => strict_eq (App.id x) id' = false) l ->
                        without id' l = l).
  { intros l Hall. unfold without.
    induction Hall as [|x r Hx _ IH]; [reflexivity|].
    cbn [filter]. rewrite Hx, IH. reflexivity. }
  assert (F : Forall (fun x => strict_eq (App.id x) id' = false)
                     (without id' ts)).
  { apply Forall_forall. intros x Hx. unfold without in Hx.
    apply filter_In in Hx. destruct Hx as [_ Hx].
    apply negb_true_iff in Hx. exact Hx. }
  eexists. split; [exact Er|].
  split; [rewrite tasksOf_new; exact Ed|].
  split.
  { pose proof (tasksOf_old w [] [refs'] (App.canvas w) tasks ts H) as T.
    rewrite app_nil_r in T. exact T. }
  split; [reflexivity|]. split; [reflexivity|].
  split; [exact F|]. split; [exact (K _ F)|]. split; [exact (K ts)|].
  intros x Hx Hall. unfold without. rewrite filter_app. cbn [filter].
  rewrite Hx. cbn [negb]. rewrite app_nil_r. exact (K ts Hall).
Qed.

Lemma removeTask_drops_matching_tasks_witness :
  exists w' : App.world,
    App.removeTask 0 (VStr (lit "a")) three_world = Ok (1%nat, w')
    /\ tasksOf w' 1 = Some [late_task; tie_task]
    /\ App.objects w' = [late_task; early_task; tie_task].
Proof.
  destruct (removeTask_drops_matching_tasks 0%nat (VStr (lit "a"))
              three_world [late_task; early_task; tie_task] eq_refl)
    as (w' & Er & Et & _ & Eo & _).
  exists w'. split; [exact Er|]. split; [exact Et | exact Eo].
Defined.

(** X25. The button "Re-harmonize Colors" stores a new array of new
    records, one for each task in order, equal to the old ones but for
    the colour, which is [hashColor] of the title and so a hex colour.
    The old records are unchanged; pressing the button twice gives the
    records of pressing it once; and a task whose stored colour was not a
    hex colour keeps the colour its band was painted with. *)
Theorem reharmonize_recolours_every_task :
  forall (tasks : nat) (w : App.world) (ts : list App.task),
    tasksOf w tasks = Some ts ->
    exists w' : App.world,
      App.reharmonize tasks w = Ok (length (App.arrays w), w')
      /\ tasksOf w' (length (App.arrays w)) = Some (List.map recoloured ts)
      /\ tasksOf w' tasks = Some ts
      /\ App.canvas w' = App.canvas w
      /\ Forall (fun x => App.isValidHex (App.color x) = true)
                (List.map recoloured ts)
      /\ List.map recoloured (List.map recoloured ts)
         = List.map recoloured ts
      /\ forall x : App.task,
           In x ts ->
           App.hashColor (App.title x) = Ok (App.color (recoloured x))
           /\ App.id (recoloured x) = App.id x
           /\ App.title (recoloured x) = App.title x
           /\ App.start (recoloured x) = App.start x
           /\ App.end_ (recoloured x) = App.end_ x.
Proof.
  intros tasks w ts H.
  destruct (reharmonize_spec tasks w ts H) as (refs' & Er & Ed).
  eexists. split; [exact Er|].
  split; [rewrite tasksOf_new; exact Ed|].
  split; [apply tasksOf_old; exact H|].
  split; [reflexivity|].
  split.
  { apply Forall_forall. intros x Hx. apply in_map_iff in Hx.
    destruct Hx as (y & <- & _). cbn [recoloured App.color].
    exact (proj2 (colourOf_hashColor (App.title y))). }
  split; [rewrite map_map; apply map_ext; intros x; reflexivity|].
  intros x _. split; [exact (proj1 (colourOf_hashColor (App.title x)))|].
  repeat split.
Qed.

Lemma reharmonize_recolours_every_task_witness :
  exists w' : App.world,
    App.reharmonize 0 plain_world = Ok (1%nat, w')
    /\ option_map (List.map App.color) (tasksOf w' 1)
       = Some [VStr (lit "#FFD166")]
    /\ tasksOf w' 0 = Some [plain_task].
Proof.
  destruct (reharmonize_recolours_every_task 0%nat plain_world [plain_task]
              eq_refl)
    as (w' & Er & Et & Eo & _).
  exists w'. split; [exact Er|]. split; [|exact Eo].
  change (length (App.arrays plain_world)) with 1%nat in Et.
  rewrite Et. vm_compute. reflexivity.
Defined.

(** ** Export, corners and the draft *)

(** X26. The stamp of [exportPNG] holds neither a colon nor a [T],
    whatever text the clock gives: it is the first 19 characters of that
    text with each of the two replaced by a hyphen and every other
    character kept in place.  The name of the download therefore holds
    no colon. *)
Theorem export_name_has_no_colon :
  forall iso : jsstring,
    ~ In 58 (App.stamp iso)
    /\ ~ In 84 (App.stamp iso)
    /\ length (App.stamp iso) = Nat.min 19 (length iso)
    /\ (forall (i : nat) (c : Z),
          nth_error iso i = Some c -> (i < 19)%nat ->
          nth_error (App.stamp iso) i
          = Some (if (c =? 58) || (c =? 84) then 45 else c))
    /\ ~ In 58 (App.downloadName iso)
    /\ App.downloadName (lit "2024-03-09T07:05:59.120Z")
       = lit "ThreadFate-2024-03-09-07-05-59.png".
Proof.
  intros iso.
  assert (N : forall k, k = 58 \/ k = 84 -> ~ In k (App.stamp iso)).
  { intros k Hk Hin. unfold App.stamp, dashColonsAndT, slice0 in Hin.
    apply in_map_iff in Hin. destruct Hin as (c & Ec & _).
    destruct (Z.eqb_spec c 58); destruct (Z.eqb_spec c 84);
      cbn [orb] in Ec; lia. }
  split; [apply N; left; reflexivity|].
  split; [apply N; right; reflexivity|].
  split.
  { unfold App.stamp, dashColonsAndT, slice0.
    rewrite length_map. apply length_firstn. }
  split.
  { intros i c Ei Hi. unfold App.stamp, dashColonsAndT, slice0.
    rewrite nth_error_map, nth_error_firstn.
    apply Nat.ltb_lt in Hi. rewrite Hi, Ei. reflexivity. }
  split; [|vm_compute; reflexivity].
  unfold App.downloadName. intros Hin.
  apply in_app_or in Hin. destruct Hin as [Hin | Hin].
  - vm_compute in Hin. intuition discriminate.
  - apply in_app_or in Hin. destruct Hin as [Hin | Hin].
    + apply (N 58); [left; reflexivity | exact Hin].
    + vm_compute in Hin. intuition discriminate.
Qed.

Lemma export_name_has_no_colon_witness :
  nth_error (App.stamp (lit "2024-03-09T07:05:59.120Z")) 10 = Some 45.
Proof.
  apply (proj1 (proj2 (proj2 (proj2
           (export_name_has_no_colon (lit "2024-03-09T07:05:59.120Z")))))
           10%nat 84);
    [reflexivity | lia].
Defined.

(** X27. The corner radius that [roundRect] passes to [arcTo] is never
    negative and never [NaN] when the width, the height and the radius
    asked for are numbers; it is at most half the height and half the
    width in absolute value, and at most the radius asked for when that
    is not negative. *)
Theorem corner_radius_is_never_negative :
  forall w h r : num,
    isNaN w = false -> isNaN h = false -> isNaN r = false ->
    num_le (int 0) (App.cornerRadius w h r) = true
    /\ num_le (App.cornerRadius w h r) (num_div (num_abs h) (int 2)) = true
    /\ num_le (App.cornerRadius w h r) (num_div (num_abs w) (int 2)) = true
    /\ (num_le (int 0) r = true -> num_le (App.cornerRadius w h r) r = true).
Proof.
  intros w h r Hw Hh Hr.
  pose proof (half_abs_nonneg h Hh) as Ah.
  pose proof (half_abs_nonneg w Hw) as Aw.
  destruct (num_le_not_NaN _ _ Ah) as [_ Nh].
  destruct (num_le_not_NaN _ _ Aw) as [_ Nw].
  destruct (num_min_le r _ Hr Nh) as (N1 & L1 & L2).
  destruct (num_min_le _ _ N1 Nw) as (N2 & L3 & L4).
  unfold App.cornerRadius.
  rewrite (num_max_spec (int 0) _ eq_refl N2).
  destruct (num_le (int 0)
              (num_min (num_min r (num_div (num_abs h) (int 2)))
                       (num_div (num_abs w) (int 2)))) eqn:E.
  - split; [exact E|].
    split; [exact (num_le_trans _ _ _ L3 L2)|].
    split; [exact L4|]. intros _. exact (num_le_trans _ _ _ L3 L1).
  - split; [reflexivity|]. split; [exact Ah|]. split; [exact Aw|].
    intros H0. exact H0.
Qed.

Lemma corner_radius_is_never_negative_witness :
  num_le (int 0) (App.cornerRadius (int (-10)) (int 24) (int 10)) = true
  /\ App.cornerRadius (int (-10)) (int 24) (int 10) = int 5.
Proof.
  split; [|vm_compute; reflexivity].
  apply (corner_radius_is_never_negative (int (-10)) (int 24) (int 10));
    reflexivity.
Defined.

(** X28. The draft's [hexToRgb] against the application's.  The two
    agree on every hex colour written with no white space around it, and
    on every hex colour of six digits, white space or not.  They differ
    on a hex colour of three digits with white space before or after it:
    the text is then longer than three code units, the draft does not
    double the digits and reads them as one number, giving the channels
    0, the first digit and the last two digits, where the application
    reads each digit twice.  They differ on a text that starts with a
    code unit that is neither white space, nor [#], nor a sign, nor a
    hexadecimal digit, such as red: the draft answers black, the
    application white.  And on a value that is not a string the draft
    raises, where the application answers a colour. *)
Theorem draft_hexToRgb_against_the_application :
  (forall s : jsstring,
     App.isValidHex (VStr s) = true -> trim s = s ->
     Draft.hexToRgb (VStr s) = Ok (App.hexToRgb (VStr s)))
  /\ (forall s ds : jsstring,
        App.isValidHex (VStr s) = true ->
        trim s = 35 :: ds -> length ds = 6%nat ->
        Draft.hexToRgb (VStr s) = Ok (App.hexToRgb (VStr s)))
  /\ (forall (s : jsstring) (a b c : Z),
        App.isValidHex (VStr s) = true ->
        trim s = [35; a; b; c] -> trim s <> s ->
        Draft.hexToRgb (VStr s) = Ok (rgbOf 0 (hex_val a) (pairVal b c))
        /\ App.hexToRgb (VStr s)
           = rgbOf (pairVal a a) (pairVal b b) (pairVal c c))
  /\ (forall (c : Z) (r : jsstring),
        is_ws c = false -> is_hex_digit c = false ->
        c <> 45 -> c <> 43 -> c <> 35 ->
        Draft.hexToRgb (VStr (c :: r)) = Ok (rgbOf 0 0 0)
        /\ App.hexToRgb (VStr (c :: r)) = rgbOf 255 255 255)
  /\ (forall v : value,
        App.is_string v = false ->
        Draft.hexToRgb v = Throw
        /\ exists r g b, App.hexToRgb v = rgbOf r g b
                         /\ 0 <= r <= 255 /\ 0 <= g <= 255 /\ 0 <= b <= 255)
  /\ Draft.hexToRgb (VStr (lit " #fff ")) = Ok (rgbOf 0 15 255)
  /\ App.hexToRgb (VStr (lit " #fff ")) = rgbOf 255 255 255
  /\ Draft.hexToRgb (VStr (lit " #12ab56 ")) = Ok (rgbOf 18 171 86)
  /\ App.hexToRgb (VStr (lit " #12ab56 ")) = rgbOf 18 171 86
  /\ Draft.hexToRgb (VStr (lit "red")) = Ok (rgbOf 0 0 0)
  /\ App.hexToRgb (VStr (lit "red")) = rgbOf 255 255 255
  /\ Draft.hexToRgb VUndefined = Throw
  /\ App.hexToRgb VUndefined = rgbOf 255 255 255.
Proof.
  assert (Dec : forall s, App.isValidHex (VStr s) = true ->
            exists pre ds post r g b,
              s = pre ++ (35 :: ds) ++ post
              /\ forallb is_ws pre = true /\ forallb is_ws post = true
              /\ forallb is_hex_digit ds = true
              /\ trim s = 35 :: ds
              /\ hexChannels ds = Some (r, g, b)
              /\ App.hexToRgb (VStr s) = rgbOf r g b).
  { intros s V.
    destruct (hexToRgb_valid s V) as (ds & r & g & b & Et & Ec & E).
    apply isValidHex_iff in V.
    destruct V as (s' & pre & ds' & post & Ev & Es & Hpre & Hpost & Hds & _).
    injection Ev as <-.
    assert (Et' : trim s = 35 :: ds').
    { rewrite Es. apply trim_exact; try assumption.
      constructor; [reflexivity | apply hex_digits_not_ws; exact Hds]. }
    rewrite Et in Et'. injection Et' as <-.
    exists pre, ds, post, r, g, b. auto 10. }
  split.
  { intros s V T.
    destruct (hexToRgb_valid s V) as (ds & r & g & b & Et & Ec & E).
    rewrite T in Et. subst s. rewrite E.
    apply draft_hexToRgb_hex; [|exact Ec].
    cbn [App.isValidHex] in V. rewrite T in V. unfold App.hexPattern in V.
    apply andb_true_iff in V. exact (proj1 V). }
  split.
  { intros s ds V T L.
    destruct (Dec s V)
      as (pre & ds' & post & r & g & b & Es & Hpre & Hpost & Hds & Et & Ec & E).
    rewrite T in Et. injection Et as <-.
    destruct ds as [|a1 [|a2 [|b1 [|b2 [|c1 [|c2 [|x rest]]]]]]];
      try discriminate L.
    cbn [hexChannels] in Ec. injection Ec as <- <- <-.
    rewrite E, Es.
    apply PaddedFacts.draft_hexToRgb_six; assumption. }
  split.
  { intros s a b c V T Hne.
    destruct (Dec s V)
      as (pre & ds' & post & r & g & b' & Es & Hpre & Hpost & Hds & Et & Ec & E).
    rewrite T in Et. injection Et as <-.
    cbn [hexChannels] in Ec. injection Ec as <- <- <-.
    split; [|exact E].
    rewrite Es. apply PaddedFacts.draft_hexToRgb_three; try assumption.
    intros Enil. apply app_eq_nil in Enil. destruct Enil as [-> ->].
    apply Hne. rewrite T, Es. reflexivity. }
  split; [exact PaddedFacts.hexToRgb_no_digit|].
  split.
  { intros v Hv. split.
    - destruct v; try reflexivity. discriminate Hv.
    - apply hexToRgb_bytes. }
  repeat split; vm_compute; reflexivity.
Qed.

Lemma draft_hexToRgb_against_the_application_witness :
  Draft.hexToRgb (VStr (lit "#FFD166")) = Ok (rgbOf 255 209 102)
  /\ Draft.hexToRgb (VStr (lit "  #FFD166")) = Ok (rgbOf 255 209 102)
  /\ Draft.hexToRgb (VStr (lit "#abc ")) = Ok (rgbOf 0 10 188)
  /\ App.hexToRgb (VStr (lit "#abc ")) = rgbOf 170 187 204
  /\ Draft.hexToRgb (VStr (lit "teal")) = Ok (rgbOf 0 0 0)
  /\ Draft.hexToRgb (VNum (int 12)) = Throw.
Proof.
  pose proof draft_hexToRgb_against_the_application
    as (Bare & Six & Three & Word & Other & _).
  split; [|split; [|split; [|split; [|split]]]].
  - rewrite (Bare (lit "#FFD166") eq_refl eq_refl).
    vm_compute. reflexivity.
  - rewrite (Six (lit "  #FFD166") (lit "FFD166") eq_refl eq_refl eq_refl).
    vm_compute. reflexivity.
  - apply (proj1 (Three (lit "#abc ") 97 98 99 eq_refl eq_refl
                    ltac:(vm_compute; discriminate))).
  - apply (proj2 (Three (lit "#abc ") 97 98 99 eq_refl eq_refl
                    ltac:(vm_compute; discriminate))).
  - apply (proj1 (Word 116 (lit "eal") eq_refl eq_refl
                    ltac:(discriminate) ltac:(discriminate)
                    ltac:(discriminate))).
  - apply (proj1 (Other (VNum (int 12)) eq_refl)).
Defined.

(** X29. The draft's [hashColor] returns a colour of the palettes, a hex
    colour, on every string; a number or a boolean, which has no
    [length], gets the colour of the empty string; [undefined] and [null]
    raise. *)
Theorem draft_hashColor_on_strings :
  (forall str : jsstring,
     exists pal c,
       In pal App.palettes /\ In c pal
       /\ Draft.hashColor (VStr str) = Ok (VStr c)
       /\ App.isValidHex (VStr c) = true)
  /\ (forall n : num, Draft.hashColor (VNum n) = Draft.hashColor (VStr []))
  /\ (forall b : bool, Draft.hashColor (VBool b) = Draft.hashColor (VStr []))
  /\ Draft.hashColor VUndefined = Throw
  /\ Draft.hashColor VNull = Throw.
Proof.
  split; [|repeat split].
  intros str. unfold Draft.hashColor.
  destruct (fold_draft_hashStep_uint32 str (int 0)) as (u & Eu & Hu).
  { exists 0. split; [reflexivity | unfold two32; lia]. }
  rewrite Eu.
  destruct (draft_pickColor_uint32 u Hu) as (pal & c & Hp & Hc & E).
  exists pal, c. split; [exact Hp|]. split; [exact Hc|].
  split; [exact E | exact (palettes_valid pal c Hp Hc)].
Qed.

(** X30. The shuttle.  With the wall clock at [h:m], a band carries a
    shuttle exactly when the minute [60 h + m] lies between the clamped
    start and the clamped end of its task, both ends included, so that at
    the minute where one task ends and the next begins both bands carry
    one; the shuttle is then at the abscissa of that minute, clamped into
    the frame. *)
Theorem shuttle_iff_clock_inside :
  forall (st : App.settings) (mn span : num) (tk : App.task) (idx : nat)
         (b : App.band),
    0 <= App.nowHours st <= 23 -> 0 <= App.nowMinutes st <= 59 ->
    App.paintTask st mn span tk idx = Ok (Some b) ->
    let now := int (App.nowHours st * 60 + App.nowMinutes st) in
    (num_le (App.b_start b) now = true /\ num_le now (App.b_end b) = true ->
       App.b_shuttle b
       = Some (App.clamp (App.xOf mn span (App.canvasW st) now) (int 48)
                         (num_sub (App.canvasW st) (int 16))))
    /\ (~ (num_le (App.b_start b) now = true
           /\ num_le now (App.b_end b) = true) ->
        App.b_shuttle b = None).
Proof.
  intros st mn span tk idx b Hh Hm E now.
  pose proof (clock_minutes _ _ Hh Hm) as En.
  rewrite (paintTask_shuttle st mn span tk idx b _ E En).
  fold now. unfold num_ge. split.
  - intros [H1 H2]. rewrite H1, H2. reflexivity.
  - intros Hn.
    destruct (num_le (App.b_start b) now) eqn:G1; [|reflexivity].
    destruct (num_le now (App.b_end b)) eqn:G2; [|reflexivity].
    exfalso. apply Hn. split; reflexivity.
Qed.

Lemma shuttle_iff_clock_inside_witness :
  exists b : App.band,
    App.paintTask window_6_22 (int 360) (int 960) later_task 0 = Ok (Some b)
    /\ App.b_shuttle b = None.
Proof.
  eexists. split; [vm_compute; reflexivity|].
  apply (proj2 (shuttle_iff_clock_inside window_6_22 (int 360) (int 960)
                  later_task 0 _ ltac:(cbn; lia) ltac:(cbn; lia)
                  ltac:(vm_compute; reflexivity))).
  intros [_ H]. vm_compute in H. discriminate H.
Defined.
